(** * stress-client: the self-resubmitting command loop of test/stress-client.js

    A shallow embedding of the long-running stress driver: the command
    registry [scCommands], the runner ([scCommandStart], [scCommandLoop]), the
    watchdog ([scWatchdogFire]), the Kang introspection callbacks
    ([knListTypes], [knListObjects], [knGetObject]), the error filters
    ([ignoreErrorTypes], [cbIgnoreErrorTypes]) and the scenario library;
    with them the test server of helper.js ([createServer], [cleanupServer])
    and the command lines of cli-sanity.test.js ([validArgsFor],
    [generateFailureTests], [parseFindobjectsResults]).

    Callback-style JavaScript is embedded as follows.
    - A routine that issues requests to a collaborator and is resumed by a
      callback is a [Prog]: a tree whose nodes are the requests and whose
      branches are the callbacks.
    - The process is a [World]; each turn of the Node event loop is an
      [Event], and [fire] runs the JavaScript of that turn to completion. *)

From stdpp Require Import base list strings pretty.
From Stdlib Require Import Ascii ZArith Lia.

Set Warnings "-register-all".

Local Open Scope Z_scope.

(** ** Strings the source writes with an embedded double quote *)

Definition dquote : string := String "034"%char EmptyString.

(** [quoted s] is [s] between two double quotes, as the format
    ['"%s"'] prints it. *)
Definition quoted (s : string) : string := dquote +:+ s +:+ dquote.

(** [ends_with suffix s]: the test [/suffix$/.test(s)] for a [suffix]
    without regular-expression metacharacters. *)
Fixpoint ends_with (suffix s : string) : bool :=
  if String.eqb suffix s then true
  else match s with
       | EmptyString => false
       | String _ s' => ends_with suffix s'
       end.

(** ** JavaScript values passed to the collaborators *)

Inductive Json : Type :=
| JNull
| JNum (n : Z)
| JStr (s : string)
| JArr (items : list Json)
| JObj (fields : list (string * Json)).

(** ** Errors and the verror library

    An [Error] carries a [name], a [message] and, for a VError, the wrapped
    cause.  An absent error argument ([null] or [undefined]) is [None]
    throughout. *)

Module VError.

Inductive Error : Type :=
  mkError { name : string; message : string; jse_cause : option Error }.

(** The outcome of a call that may throw. *)
Inductive Completion (A : Type) : Type :=
| Normal (a : A)
| Throw (e : Error).
Arguments Normal {A} a.
Arguments Throw {A} e.

(** What [assert-plus] throws when a check fails. *)
Definition AssertionError (msg : string) : Error :=
  mkError "AssertionError" msg None.

(** What the engine throws on a property read of [undefined]. *)
Definition TypeError (msg : string) : Error :=
  mkError "TypeError" msg None.

(** [new Error(msg)] *)
Definition plain (msg : string) : Error := mkError "Error" msg None.

(** [new VError(cause, msg)] and [new VError(msg)]: the message of a wrapped
    error is the short message, a colon and the cause's message. *)
Definition new (cause : option Error) (msg : string) : Error :=
  match cause with
  | Some c => mkError "VError" (msg +:+ ": " +:+ message c) (Some c)
  | None => mkError "VError" msg None
  end.

(** The walk of [findCauseByName]:
    [for (cause = err; cause !== null; cause = VError.cause(cause))]
    returning the first [cause] with [cause.name == name]. *)
Fixpoint find_cause (err : Error) (nm : string) : option Error :=
  match err with
  | mkError n _ c =>
      if String.eqb n nm then Some err
      else match c with
           | Some c' => find_cause c' nm
           | None => None
           end
  end.

(** [VError.findCauseByName(err, name)] of the verror library, an external
    dependency: it asserts that [err] is an Error and that [name] is a
    non-empty string before it walks the chain. *)
Definition findCauseByName (err : option Error) (nm : string)
  : Completion (option Error) :=
  match err with
  | None => Throw (AssertionError "err must be an Error")
  | Some e =>
      if String.eqb nm "" then Throw (AssertionError "name cannot be empty")
      else Normal (find_cause e nm)
  end.

(** The errors of the cause chain, outermost first. *)
Fixpoint chain (err : Error) : list Error :=
  match err with
  | mkError _ _ c =>
      err :: match c with
             | Some c' => chain c'
             | None => []
             end
  end.

End VError.

Abbreviation Error := VError.Error.
Abbreviation Completion := VError.Completion.
Abbreviation Normal := VError.Normal.
Abbreviation Throw := VError.Throw.

(** [has_cause e kind]: [VError.findCauseByName(e, kind) !== null] for an
    Error [e] and a non-empty [kind]. *)
Definition has_cause (e : Error) (kind : string) : bool :=
  match VError.find_cause e kind with
  | Some _ => true
  | None => false
  end.

(** ** Requests to the collaborators

    The Moray client, the test server of helper.js and the timers a scenario
    waits on.  A request is completed by the environment, which calls the
    callback registered with it. *)

Inductive Request : Type :=
| createClient (config : Json)
| helper_createClient
| onConnect
| createServer (portOverride : option Z)
| cleanupServer
| wait (ms : Z)
| listBuckets
| createBucket (bucket : string) (cfg : Json)
| getBucket (bucket : string)
| updateBucket (bucket : string) (cfg : Json)
| deleteBucket (bucket : string)
| putObject (bucket key : string) (value : Json)
| batch (ops : Json)
| getObject (bucket key : string)
| delObject (bucket key : string)
| findObjects (bucket filter : string)
| updateObjects (bucket : string) (fields : Json) (filter : string)
| reindexObjects (bucket : string) (count : Z)
| deleteMany (bucket filter : string)
| getTokens
| sql (statement : string)
| ping (opts : Json)
| versionInternal.

(** ** Routines in continuation-passing style

    [Return err] is the routine calling its own callback with [err];
    [Raise e] is an exception nobody catches; [Sync q p] is a call that
    returns at once; [Await q k] issues [q] and stops until the environment
    calls back, with the error argument and the remaining arguments.  For
    the streaming requests ([findObjects], [sql]) an ['error'] event is a call
    with [Some err] and the ['end'] event a call with [None]. *)

Inductive Prog : Type :=
| Return (err : option Error)
| Raise (e : Error)
| Sync (q : Request) (p : Prog)
| Await (q : Request) (k : option Error -> list Json -> Prog).

Definition Callback : Type := option Error -> list Json -> Prog.

(** A stage of a [vasync.pipeline]: [function (_, subcallback)]. *)
Definition Stage : Type := Callback -> Prog.

(** [vasync.pipeline({ funcs }, callback)]: the stages run in order, the
    first error stops the pipeline and is handed to [callback]. *)
Fixpoint pipeline (funcs : list Stage) (callback : option Error -> Prog) : Prog :=
  match funcs with
  | [] => callback None
  | f :: rest =>
      f (fun err _ =>
           match err with
           | Some e => callback (Some e)
           | None => pipeline rest callback
           end)
  end.

(** ** The error filters *)

(** The loop of [ignoreErrorTypes] over [errtypes], for an Error [err]. *)
Fixpoint ignoreErrorTypes_from (err : Error) (errtypes : list string)
  : Completion (option Error) :=
  match errtypes with
  | [] => Normal (Some err)
  | t :: rest =>
      match VError.findCauseByName (Some err) t with
      | Throw x => Throw x
      | Normal (Some _) => Normal None
      | Normal None => ignoreErrorTypes_from err rest
      end
  end.

Definition ignoreErrorTypes (err : option Error) (errtypes : list string)
  : Completion (option Error) :=
  match err with
  | None => Normal err
  | Some e => ignoreErrorTypes_from e errtypes
  end.

Definition cbIgnoreErrorTypes (callback : Callback) (errtypes : list string)
  : Callback :=
  fun err args =>
    match ignoreErrorTypes err errtypes with
    | Normal err' => callback err' args
    | Throw x => Raise x
    end.

(** A library call inside a routine: an exception it throws is thrown by
    the routine. *)
Definition try {A : Type} (c : Completion A) (k : A -> Prog) : Prog :=
  match c with
  | Normal a => k a
  | Throw x => Raise x
  end.

(** [assertplus.ok(cond)] *)
Definition assert_ok (cond : bool) (k : Prog) : Prog :=
  if cond then k else Raise (VError.AssertionError "assertion failed").

(** [err.message], read once [err] is known to be an Error *)
Definition message_of (err : option Error) : string :=
  match err with
  | Some e => VError.message e
  | None => ""
  end.

(** [v !== null] *)
Definition not_null (v : option Error) : bool :=
  match v with
  | Some _ => true
  | None => false
  end.

(** ** Running a routine against scripted replies

    [run p replies] feeds the replies, in order, to the requests [p] awaits.
    It gives the requests issued and how the routine ends. *)

Inductive Outcome : Type :=
| Done (err : option Error)
| Threw (e : Error)
| Blocked.

Definition Reply : Type := (option Error * list Json)%type.

Fixpoint run (p : Prog) (replies : list Reply) : list Request * Outcome :=
  match p with
  | Return err => ([], Done err)
  | Raise e => ([], Threw e)
  | Sync q p' => let (qs, o) := run p' replies in (q :: qs, o)
  | Await q k =>
      match replies with
      | [] => ([q], Blocked)
      | (err, args) :: rest =>
          let (qs, o) := run (k err args) rest in (q :: qs, o)
      end
  end.

(** ** Module-level constants *)

Definition scTestBucketBogus : string := "stress_client_bogus_bucket".
Definition scTestBucketInvalid : string := "buckets can't have spaces!".
Definition scTestBucket : string := "stress_client_bucket".
Definition scKangPort : Z := 9080.
Definition scWatchdogLimit : Z := 30000.

(** ** Scenario library

    Each setup and exec routine takes the callback the runner hands it.  The
    scenario-private fields of the context ([ctx.client], [ctx.server]) are
    handles of the collaborators: every request below goes to the command's
    own client or server. *)

Module Scenario.

(** *** make RPC requests before ever connected *)

Definition cmdRpcNeverConnectedSetup (callback : option Error -> Prog) : Prog :=
  Sync (createClient (JObj [("host", JStr "bogus_hostname"); ("port", JNum 2020)]))
    (callback None).

Definition cmdRpcNeverConnected (callback : option Error -> Prog) : Prog :=
  Await listBuckets (fun err _ =>
    try (VError.findCauseByName err "NoBackendsError") (fun found =>
      let err := if not_null found then None else err in
      callback err)).

(** *** make RPC requests after connection closed

    The callback of [helper.createServer] receives the server handle. *)

Definition cmdRpcDisconnectedSetup (callback : option Error -> Prog) : Prog :=
  Await (createServer (Some 2021)) (fun _ _ =>
    Sync (createClient (JObj [("host", JStr "127.0.0.1"); ("port", JNum 2021)]))
      (Await onConnect (fun _ _ =>
         Await cleanupServer (fun err _ => callback err)))).

Definition cmdRpcDisconnected (callback : option Error -> Prog) : Prog :=
  Await listBuckets (fun err _ =>
    match err with
    | None => callback (Some (VError.new None "expected error"))
    | Some _ => callback None
    end).

(** *** disconnect/reconnect repeatedly *)

Definition cmdRpcReconnectSetup (callback : option Error -> Prog) : Prog :=
  Sync (createClient (JObj [("host", JStr "127.0.0.1"); ("port", JNum 2022);
                            ("maxConnections", JNum 1);
                            ("retry", JObj [("minTimeout", JNum 50);
                                            ("maxTimeout", JNum 50)])]))
    (callback None).

Definition maxloops : nat := 100.

Definition cmdRpcReconnectSetupServer (subcallback : Callback) : Prog :=
  Await (createServer (Some 2022)) (fun _ _ => subcallback None []).

(** [ctx.nloops] is reset to 0 and [ctx.maxloops] to 100 when exec starts;
    the loop is indexed by [left = ctx.maxloops - ctx.nloops] as it stands
    before the increment, so that [ctx.nloops <= ctx.maxloops] after the
    increment reads [left > 0]. *)
Fixpoint cmdRpcReconnectClientLoop (left : nat) (subcallback : Callback) : Prog :=
  Await (ping JNull) (fun err _ =>
    match err, left with
    | Some _, S left' =>
        Await (wait 100) (fun _ _ => cmdRpcReconnectClientLoop left' subcallback)
    | Some e, O =>
        subcallback (Some (VError.new (Some e) "too many transient errors")) []
    | None, _ => subcallback None []
    end).

Definition cmdRpcReconnectShutdown (subcallback : Callback) : Prog :=
  Await cleanupServer subcallback.

Definition cmdRpcReconnectClientFail (subcallback : Callback) : Prog :=
  Await (ping (JObj [("timeout", JNum 5000)])) (fun err _ =>
    match err with
    | Some e =>
        try (VError.findCauseByName err "NoBackendsError") (fun c1 =>
          if not_null c1 then subcallback None []
          else
            try (VError.findCauseByName err "FastTransportError") (fun c2 =>
              if not_null c2 then subcallback None []
              else
                try (VError.findCauseByName err "FastProtocolError") (fun c3 =>
                  if not_null c3 then subcallback None []
                  else subcallback (Some (VError.new (Some e) "unexpected error")) [])))
    | None => subcallback (Some (VError.new None "unexpected success")) []
    end).

Definition cmdRpcReconnect (callback : option Error -> Prog) : Prog :=
  pipeline [ cmdRpcReconnectSetupServer;
             cmdRpcReconnectClientLoop maxloops;
             cmdRpcReconnectShutdown;
             cmdRpcReconnectClientFail ] callback.

(** *** failed RPC requests *)

Definition cmdRpcFailSetup (callback : option Error -> Prog) : Prog :=
  Sync helper_createClient (Await onConnect (fun err _ => callback err)).

Definition cmdRpcFailCreateBucket (subcallback : Callback) : Prog :=
  Await (createBucket scTestBucketInvalid (JObj []))
    (cbIgnoreErrorTypes subcallback [ "InvalidBucketNameError" ]).

Definition cmdRpcFailGetBucket (subcallback : Callback) : Prog :=
  Await (getBucket scTestBucketBogus)
    (cbIgnoreErrorTypes subcallback [ "BucketNotFoundError" ]).

Definition cmdRpcFailUpdateBucket (subcallback : Callback) : Prog :=
  Await (updateBucket scTestBucketBogus (JObj []))
    (cbIgnoreErrorTypes subcallback [ "BucketNotFoundError" ]).

Definition cmdRpcFailDeleteBucket (subcallback : Callback) : Prog :=
  Await (deleteBucket scTestBucketBogus)
    (cbIgnoreErrorTypes subcallback [ "BucketNotFoundError" ]).

Definition cmdRpcFailPutObject (subcallback : Callback) : Prog :=
  Await (putObject scTestBucketBogus "key" (JObj []))
    (cbIgnoreErrorTypes subcallback [ "BucketNotFoundError" ]).

Definition cmdRpcFailBatch (subcallback : Callback) : Prog :=
  Await (batch (JArr [ JObj [("bucket", JStr scTestBucketBogus);
                             ("operation", JStr "update");
                             ("fields", JObj []);
                             ("filter", JStr "x=*")] ]))
    (cbIgnoreErrorTypes subcallback [ "BucketNotFoundError" ]).

Definition cmdRpcFailGetObject (subcallback : Callback) : Prog :=
  Await (getObject scTestBucketBogus "key")
    (cbIgnoreErrorTypes subcallback [ "BucketNotFoundError" ]).

Definition cmdRpcFailDelObject (subcallback : Callback) : Prog :=
  Await (delObject scTestBucketBogus "key")
    (cbIgnoreErrorTypes subcallback [ "BucketNotFoundError" ]).

Definition cmdRpcFailFindObjects (subcallback : Callback) : Prog :=
  Await (findObjects scTestBucketBogus "key=value") (fun err _ =>
    match err with
    | Some _ =>
        try (ignoreErrorTypes err [ "BucketNotFoundError" ]) (fun err =>
          subcallback err [])
    | None => Raise (VError.plain ("unexpected " +:+ quoted "end"))
    end).

Definition cmdRpcFailUpdateObjects (subcallback : Callback) : Prog :=
  Await (updateObjects scTestBucketBogus (JObj []) "key=value")
    (cbIgnoreErrorTypes subcallback [ "FieldUpdateError" ]).

Definition cmdRpcFailReindexObjects (subcallback : Callback) : Prog :=
  Await (reindexObjects scTestBucketBogus 3)
    (cbIgnoreErrorTypes subcallback [ "BucketNotFoundError" ]).

Definition cmdRpcFailDeleteMany (subcallback : Callback) : Prog :=
  Await (deleteMany scTestBucketBogus "x=y")
    (cbIgnoreErrorTypes subcallback [ "BucketNotFoundError" ]).

Definition cmdRpcFailGetTokens (subcallback : Callback) : Prog :=
  Await getTokens (fun err _ =>
    assert_ok (not_null err)
      (assert_ok (ends_with "Operation not supported" (message_of err))
         (subcallback None []))).

Definition cmdRpcFailSql (subcallback : Callback) : Prog :=
  Await (sql "SELECT ctid from bogus;") (fun err _ =>
    match err with
    | Some e =>
        assert_ok (ends_with ("relation " +:+ quoted "bogus" +:+ " does not exist")
                             (VError.message e))
          (subcallback None [])
    | None => Raise (VError.plain ("unexpected " +:+ quoted "end"))
    end).

Definition cmdRpcFail_funcs : list Stage :=
  [ cmdRpcFailCreateBucket; cmdRpcFailGetBucket; cmdRpcFailUpdateBucket;
    cmdRpcFailDeleteBucket; cmdRpcFailPutObject; cmdRpcFailBatch;
    cmdRpcFailGetObject; cmdRpcFailDelObject; cmdRpcFailFindObjects;
    cmdRpcFailUpdateObjects; cmdRpcFailReindexObjects; cmdRpcFailDeleteMany;
    cmdRpcFailGetTokens; cmdRpcFailSql ].

Definition cmdRpcFail (callback : option Error -> Prog) : Prog :=
  pipeline cmdRpcFail_funcs callback.

(** *** successful RPC requests *)

Definition cmdRpcOkaySetup (callback : option Error -> Prog) : Prog :=
  Sync helper_createClient (Await onConnect (fun err _ => callback err)).

Definition put_op (key : string) (n : Z) : Json :=
  JObj [("bucket", JStr scTestBucket); ("operation", JStr "put");
        ("key", JStr key); ("value", JObj [("field1", JNum n)])].

Definition cmdRpcOkayFindObjects (subcallback : Callback) : Prog :=
  Await (findObjects scTestBucket "field1>=3") (fun err _ =>
    match err with
    | Some e => subcallback (Some (VError.new (Some e) "unexpected error")) []
    | None => subcallback None []
    end).

Definition cmdRpcOkaySql (subcallback : Callback) : Prog :=
  Await (sql "SELECT NOW();") (fun err _ =>
    match err with
    | Some e => subcallback (Some (VError.new (Some e) "unexpected error")) []
    | None => subcallback None []
    end).

Definition cmdRpcOkay_funcs : list Stage :=
  [ (fun subcallback =>
       Await (deleteBucket scTestBucket)
         (cbIgnoreErrorTypes subcallback [ "BucketNotFoundError" ]));
    (fun subcallback => Await (createBucket scTestBucket (JObj [])) subcallback);
    (fun subcallback => Await (getBucket scTestBucket) subcallback);
    (fun subcallback => Await listBuckets subcallback);
    (fun subcallback =>
       Await (updateBucket scTestBucket
                (JObj [("index", JObj [("field1", JObj [("type", JStr "number")])])]))
         subcallback);
    (fun subcallback =>
       Await (putObject scTestBucket "key5" (JObj [("field1", JNum 5)])) subcallback);
    (fun subcallback =>
       Await (batch (JArr [ put_op "key2" 2; put_op "key3" 3;
                            put_op "key7" 7; put_op "key9" 9 ])) subcallback);
    (fun subcallback => Await (getObject scTestBucket "key3") subcallback);
    (fun subcallback => Await (delObject scTestBucket "key5") subcallback);
    cmdRpcOkayFindObjects;
    (fun subcallback =>
       Await (updateObjects scTestBucket (JObj [("field1", JNum 10)]) "field1>=9")
         subcallback);
    (fun subcallback => Await (reindexObjects scTestBucket 3) subcallback);
    (fun subcallback => Await (deleteMany scTestBucket "field1>=7") subcallback);
    (fun subcallback => Await (deleteBucket scTestBucket) subcallback);
    (fun subcallback => Await (ping JNull) subcallback);
    (fun subcallback => Await versionInternal subcallback);
    cmdRpcOkaySql ].

Definition cmdRpcOkay (callback : option Error -> Prog) : Prog :=
  pipeline cmdRpcOkay_funcs callback.

End Scenario.

(** ** The process state *)

(** A JavaScript function: its [name] property and its body, already applied
    to the runner's callback. *)
Record Routine : Type := { fname : string; body : Prog }.

(** [cmdspec.ctx].  [nstarted] is a JavaScript number that only ever holds
    a count; the times are milliseconds of the wall clock; [timer] is the
    handle [setTimeout] returned. *)
Record Ctx : Type := {
  nstarted : nat;
  lastStarted : option Z;
  setupStarted : Z;
  setupDone : option Z;
  timer : option nat
}.

(** An entry of [scCommands].  [ctx] is absent until [scCommandStart]. *)
Record cmdspec : Type := {
  name : string;
  setup : Routine;
  exec : Routine;
  ctx : option Ctx
}.

Inductive Phase : Type := InSetup | InExec.

(** A request a command has issued and that the environment has not yet
    answered, with the callback registered for it. *)
Record Pending : Type := {
  owner : nat;
  phase : Phase;
  request : Request;
  cont : Callback
}.

(** A live timer of [setTimeout(scWatchdogFire, scWatchdogLimit, cmdspec)]:
    the command is referred to by its index in [scCommands]. *)
Record Timer : Type := { handle : nat; expiry : Z; target : nat }.

Inductive Status : Type :=
| Running
| Aborted
| Uncaught (e : Error)
| Exited (code : Z).

Inductive LogRecord : Type :=
| LogDebug (cmdname msg : string)
| LogFatal (cmdname : string) (e : Error).

(** What the process has done to its collaborators, oldest first. *)
Inductive Obs : Type :=
| ExecInvoked (i : nat)
| Issued (i : nat) (q : Request).

Record World : Type := {
  scCommands : list cmdspec;
  clock : Z;
  timers : list Timer;
  nextHandle : nat;
  immediates : list nat;
  pending : list Pending;
  trace : list Obs;
  stderr : list string;
  scLog : list LogRecord;
  started : bool;
  ndone : nat;
  nerrors : nat;
  status : Status
}.

Definition alive (w : World) : bool :=
  match status w with
  | Running => true
  | _ => false
  end.

(** *** Field updates *)

Definition set_ctx (x : Ctx) (c : cmdspec) : cmdspec :=
  {| name := name c; setup := setup c; exec := exec c; ctx := Some x |}.

Definition with_scCommands (l : list cmdspec) (w : World) : World :=
  {| scCommands := l; clock := clock w; timers := timers w;
     nextHandle := nextHandle w; immediates := immediates w;
     pending := pending w; trace := trace w; stderr := stderr w;
     scLog := scLog w; started := started w; ndone := ndone w;
     nerrors := nerrors w; status := status w |}.

Definition with_clock (t : Z) (w : World) : World :=
  {| scCommands := scCommands w; clock := t; timers := timers w;
     nextHandle := nextHandle w; immediates := immediates w;
     pending := pending w; trace := trace w; stderr := stderr w;
     scLog := scLog w; started := started w; ndone := ndone w;
     nerrors := nerrors w; status := status w |}.

Definition with_timers (l : list Timer) (n : nat) (w : World) : World :=
  {| scCommands := scCommands w; clock := clock w; timers := l;
     nextHandle := n; immediates := immediates w;
     pending := pending w; trace := trace w; stderr := stderr w;
     scLog := scLog w; started := started w; ndone := ndone w;
     nerrors := nerrors w; status := status w |}.

Definition with_immediates (l : list nat) (w : World) : World :=
  {| scCommands := scCommands w; clock := clock w; timers := timers w;
     nextHandle := nextHandle w; immediates := l;
     pending := pending w; trace := trace w; stderr := stderr w;
     scLog := scLog w; started := started w; ndone := ndone w;
     nerrors := nerrors w; status := status w |}.

Definition with_pending (l : list Pending) (w : World) : World :=
  {| scCommands := scCommands w; clock := clock w; timers := timers w;
     nextHandle := nextHandle w; immediates := immediates w;
     pending := l; trace := trace w; stderr := stderr w;
     scLog := scLog w; started := started w; ndone := ndone w;
     nerrors := nerrors w; status := status w |}.

Definition observe (o : Obs) (w : World) : World :=
  {| scCommands := scCommands w; clock := clock w; timers := timers w;
     nextHandle := nextHandle w; immediates := immediates w;
     pending := pending w; trace := trace w ++ [o]; stderr := stderr w;
     scLog := scLog w; started := started w; ndone := ndone w;
     nerrors := nerrors w; status := status w |}.

(** [console.error(line)] *)
Definition console_error (line : string) (w : World) : World :=
  {| scCommands := scCommands w; clock := clock w; timers := timers w;
     nextHandle := nextHandle w; immediates := immediates w;
     pending := pending w; trace := trace w; stderr := stderr w ++ [line];
     scLog := scLog w; started := started w; ndone := ndone w;
     nerrors := nerrors w; status := status w |}.

(** A call of the bunyan logger. *)
Definition log (r : LogRecord) (w : World) : World :=
  {| scCommands := scCommands w; clock := clock w; timers := timers w;
     nextHandle := nextHandle w; immediates := immediates w;
     pending := pending w; trace := trace w; stderr := stderr w;
     scLog := scLog w ++ [r]; started := started w; ndone := ndone w;
     nerrors := nerrors w; status := status w |}.

Definition with_started (b : bool) (w : World) : World :=
  {| scCommands := scCommands w; clock := clock w; timers := timers w;
     nextHandle := nextHandle w; immediates := immediates w;
     pending := pending w; trace := trace w; stderr := stderr w;
     scLog := scLog w; started := b; ndone := ndone w;
     nerrors := nerrors w; status := status w |}.

Definition with_done (d e : nat) (w : World) : World :=
  {| scCommands := scCommands w; clock := clock w; timers := timers w;
     nextHandle := nextHandle w; immediates := immediates w;
     pending := pending w; trace := trace w; stderr := stderr w;
     scLog := scLog w; started := started w; ndone := d;
     nerrors := e; status := status w |}.

Definition with_status (s : Status) (w : World) : World :=
  {| scCommands := scCommands w; clock := clock w; timers := timers w;
     nextHandle := nextHandle w; immediates := immediates w;
     pending := pending w; trace := trace w; stderr := stderr w;
     scLog := scLog w; started := started w; ndone := ndone w;
     nerrors := nerrors w; status := s |}.

(** [throw e] with no handler on the stack: the process dies of the
    uncaught exception. *)
Definition throw (e : Error) (w : World) : World := with_status (Uncaught e) w.

(** [process.abort()] *)
Definition process_abort (w : World) : World := with_status Aborted w.

(** [cmdutil.fail(err)]: the message on stderr, then [process.exit(1)]. *)
Definition cmdutil_fail (e : Error) (w : World) : World :=
  with_status (Exited 1) (console_error ("stress-client: " +:+ VError.message e) w).

(** The command object behind index [i], with its context.  The source
    holds the object itself; a missing object or context is the TypeError
    of reading a property of [undefined]. *)
Definition with_cmd (i : nat) (w : World) (k : cmdspec -> Ctx -> World) : World :=
  match scCommands w !! i with
  | Some c =>
      match ctx c with
      | Some x => k c x
      | None => throw (VError.TypeError "cannot read property of undefined") w
      end
  | None => throw (VError.TypeError "cannot read property of undefined") w
  end.

(** [cmdspec.ctx = x] for the command at index [i]. *)
Definition store_ctx (i : nat) (c : cmdspec) (x : Ctx) (w : World) : World :=
  with_scCommands (<[i := set_ctx x c]> (scCommands w)) w.

(** [clearTimeout(h)]: nothing happens for [null] or a timer that is not
    live. *)
Definition clearTimeout (h : option nat) (w : World) : World :=
  match h with
  | Some n => with_timers (filter (fun t => handle t <> n) (timers w)) (nextHandle w) w
  | None => w
  end.

(** [setImmediate(scCommandLoop, cmdspec)] *)
Definition setImmediate (i : nat) (w : World) : World :=
  with_immediates (immediates w ++ [i]) w.

(** ** The command runner *)

(** [cmdspec.exec.name || cmdspec.name], the name of the child logger *)
Definition cmdname (c : cmdspec) : string :=
  if String.eqb (fname (exec c)) "" then name c else fname (exec c).

Definition fresh_ctx (now : Z) : Ctx :=
  {| nstarted := 0; lastStarted := None; setupStarted := now;
     setupDone := None; timer := None |}.

Definition bump_nstarted (x : Ctx) : Ctx :=
  {| nstarted := S (nstarted x); lastStarted := lastStarted x;
     setupStarted := setupStarted x; setupDone := setupDone x;
     timer := timer x |}.

Definition set_lastStarted (now : Z) (x : Ctx) : Ctx :=
  {| nstarted := nstarted x; lastStarted := Some now;
     setupStarted := setupStarted x; setupDone := setupDone x;
     timer := timer x |}.

Definition set_setupDone (now : Z) (x : Ctx) : Ctx :=
  {| nstarted := nstarted x; lastStarted := lastStarted x;
     setupStarted := setupStarted x; setupDone := Some now;
     timer := timer x |}.

Definition set_timer (h : option nat) (x : Ctx) : Ctx :=
  {| nstarted := nstarted x; lastStarted := lastStarted x;
     setupStarted := setupStarted x; setupDone := setupDone x;
     timer := h |}.

(** Running a routine of command [i] until it stops: at its callback
    ([done]), at an exception, or at a request it has to wait for. *)
Fixpoint resume (i : nat) (ph : Phase) (done : option Error -> World -> World)
    (p : Prog) (w : World) : World :=
  match p with
  | Return err => done err w
  | Raise e => throw e w
  | Sync q p' => resume i ph done p' (observe (Issued i q) w)
  | Await q k =>
      with_pending
        (pending w ++ [ {| owner := i; phase := ph; request := q; cont := k |} ])
        (observe (Issued i q) w)
  end.

(** The callback [scCommandLoop] hands to [cmdspec.exec]. *)
Definition execCallback (i : nat) (err : option Error) (w : World) : World :=
  with_cmd i w (fun c x =>
    let w := clearTimeout (timer x) w in
    match err with
    | Some e =>
        let err := VError.new (Some e) ("exec command " +:+ quoted (name c)) in
        let w := log (LogFatal (cmdname c) err) w in
        throw err w
    | None => setImmediate i w
    end).

Definition scCommandLoop (i : nat) (w : World) : World :=
  with_cmd i w (fun c x =>
    let x := bump_nstarted x in
    let w := log (LogDebug (cmdname c) "starting iteration") w in
    let x := set_lastStarted (clock w) x in
    let h := nextHandle w in
    let w := with_timers
               (timers w ++ [ {| handle := h;
                                 expiry := clock w + scWatchdogLimit;
                                 target := i |} ])
               (S h) w in
    let x := set_timer (Some h) x in
    let w := store_ctx i c x w in
    let w := observe (ExecInvoked i) w in
    resume i InExec (execCallback i) (body (exec c)) w).

Definition scWatchdogFire (i : nat) (w : World) : World :=
  match scCommands w !! i with
  | Some c =>
      let w := console_error
                 ("watchdog timer expired for command: " +:+ quoted (name c)) w in
      let w := console_error "aborting (to dump core)" w in
      process_abort w
  | None => throw (VError.TypeError "cannot read property of undefined") w
  end.

(** The completion callback [vasync.forEachParallel] hands to each
    [scCommandStart], followed, once every command has called back, by the
    callback [main] gave to [forEachParallel]. *)
Definition forEachDone (err : option Error) (w : World) : World :=
  let d := S (ndone w) in
  let e := (nerrors w + if not_null err then 1 else 0)%nat in
  let w := with_done d e w in
  if Nat.ltb d (length (scCommands w)) then w
  else if Nat.ltb 0 e then cmdutil_fail (VError.new None "setup") w
  else
    let w := log (LogDebug "stress-client" "set up all commands") w in
    console_error "set up all commands" w.

(** The callback [scCommandStart] hands to [cmdspec.setup]. *)
Definition setupCallback (i : nat) (err : option Error) (w : World) : World :=
  with_cmd i w (fun c x =>
    match err with
    | Some e =>
        forEachDone
          (Some (VError.new (Some e) ("setup command " +:+ quoted (name c)))) w
    | None =>
        let w := store_ctx i c (set_setupDone (clock w) x) w in
        let w := scCommandLoop i w in
        if alive w then forEachDone None w else w
    end).

Definition scCommandStart (i : nat) (w : World) : World :=
  match scCommands w !! i with
  | Some c =>
      let w := store_ctx i c (fresh_ctx (clock w)) w in
      resume i InSetup (setupCallback i) (body (setup c)) w
  | None => w
  end.

(** [vasync.forEachParallel({ inputs: scCommands, func: scCommandStart })]:
    [func] is called on every input in turn, within one turn of the event
    loop. *)
Fixpoint forEachParallel (inputs : list nat) (w : World) : World :=
  match inputs with
  | [] => w
  | i :: rest =>
      let w := scCommandStart i w in
      if alive w then forEachParallel rest w else w
  end.

(** ** The event loop

    [EvServerUp] is the callback of [helper.createServer] in [main], which
    starts every command; [EvReply n err args] is the environment answering
    the [n]-th outstanding request, each request being answered at most once;
    [EvImmediate] runs the oldest [setImmediate] callback; [EvTimeout n] fires
    the [n]-th live timer once its time has come; [EvTick d] lets [d]
    milliseconds pass. *)

Inductive Event : Type :=
| EvServerUp
| EvReply (n : nat) (err : option Error) (args : list Json)
| EvImmediate
| EvTimeout (n : nat)
| EvTick (d : Z).

Definition deliver (p : Pending) (err : option Error) (args : list Json)
    (w : World) : World :=
  match phase p with
  | InSetup => resume (owner p) InSetup (setupCallback (owner p)) (cont p err args) w
  | InExec => resume (owner p) InExec (execCallback (owner p)) (cont p err args) w
  end.

Definition fire (ev : Event) (w : World) : option World :=
  if alive w then
    match ev with
    | EvServerUp =>
        if started w then None
        else Some (forEachParallel (seq 0 (length (scCommands w)))
                     (with_started true w))
    | EvReply n err args =>
        match pending w !! n with
        | Some p => Some (deliver p err args (with_pending (delete n (pending w)) w))
        | None => None
        end
    | EvImmediate =>
        match immediates w with
        | i :: rest => Some (scCommandLoop i (with_immediates rest w))
        | [] => None
        end
    | EvTimeout n =>
        match timers w !! n with
        | Some t =>
            if expiry t <=? clock w
            then Some (scWatchdogFire (target t)
                         (with_timers (delete n (timers w)) (nextHandle w) w))
            else None
        | None => None
        end
    | EvTick d => if 0 <=? d then Some (with_clock (clock w + d) w) else None
    end
  else None.

(** The process once [main] has returned: nothing started, nothing
    outstanding.  (The line [pid %d: setting up] that [main] writes first is
    left out of [stderr].) *)
Definition boot (specs : list cmdspec) (now : Z) : World :=
  {| scCommands := specs; clock := now; timers := []; nextHandle := 0;
     immediates := []; pending := []; trace := []; stderr := [];
     scLog := []; started := false; ndone := 0; nerrors := 0;
     status := Running |}.

Fixpoint play (evs : list Event) (w : World) : option World :=
  match evs with
  | [] => Some w
  | ev :: rest =>
      match fire ev w with
      | Some w' => play rest w'
      | None => None
      end
  end.

(** The states the process can be in when it was started with the registry
    [specs]. *)
Inductive reachable (specs : list cmdspec) : World -> Prop :=
| reach_boot now : reachable specs (boot specs now)
| reach_fire w ev w' :
    reachable specs w -> fire ev w = Some w' -> reachable specs w'.

(** ** The registry: the five [scCommands.push] calls *)

Definition routine (nm : string) (f : (option Error -> Prog) -> Prog) : Routine :=
  {| fname := nm; body := f Return |}.

Definition registry : list cmdspec :=
  [ {| name := "make RPC requests before ever connected";
       setup := routine "cmdRpcNeverConnectedSetup" Scenario.cmdRpcNeverConnectedSetup;
       exec := routine "cmdRpcNeverConnected" Scenario.cmdRpcNeverConnected;
       ctx := None |};
    {| name := "make RPC requests after connection closed";
       setup := routine "cmdRpcDisconnectedSetup" Scenario.cmdRpcDisconnectedSetup;
       exec := routine "cmdRpcDisconnected" Scenario.cmdRpcDisconnected;
       ctx := None |};
    {| name := "disconnect/reconnect repeatedly";
       setup := routine "cmdRpcReconnectSetup" Scenario.cmdRpcReconnectSetup;
       exec := routine "cmdRpcReconnect" Scenario.cmdRpcReconnect;
       ctx := None |};
    {| name := "failed RPC requests";
       setup := routine "cmdRpcFailSetup" Scenario.cmdRpcFailSetup;
       exec := routine "cmdRpcFail" Scenario.cmdRpcFail;
       ctx := None |};
    {| name := "successful RPC requests";
       setup := routine "cmdRpcOkaySetup" Scenario.cmdRpcOkaySetup;
       exec := routine "cmdRpcOkay" Scenario.cmdRpcOkay;
       ctx := None |} ].

(** ** The Kang introspection callbacks

    Each gives its result together with the process state it leaves. *)

Definition knListTypes (w : World) : list string * World := ([ "cmd" ], w).

Definition knListObjects (type : string) (w : World)
  : Completion (list nat) * World :=
  if String.eqb type "cmd"
  then (Normal (imap (fun i _ => i) (scCommands w)), w)
  else (Throw (VError.AssertionError "type == cmd"), w).

(** A [Date] in a snapshot is given by its time value. *)
Definition date_json (d : option Z) : Json :=
  match d with
  | Some t => JNum t
  | None => JNull
  end.

Definition knGetObject (type : string) (which : nat) (w : World)
  : Completion Json * World :=
  if String.eqb type "cmd" then
    match scCommands w !! which with
    | Some cmdspec =>
        match ctx cmdspec with
        | Some x =>
            (Normal (JObj [ ("label", JStr (name cmdspec));
                            ("funcname", JStr (fname (exec cmdspec)));
                            ("nstarted", JNum (Z.of_nat (nstarted x)));
                            ("lastStarted", date_json (lastStarted x)) ]), w)
        | None => (Throw (VError.TypeError "cannot read property of undefined"), w)
        end
    | None => (Throw (VError.TypeError "cannot read property of undefined"), w)
    end
  else (Throw (VError.AssertionError "type == cmd"), w).

(** ** Vocabulary of the specification *)

(** Induction along the cause chain of an error. *)
Section ErrorInduction.

Variable P : Error -> Prop.
Hypothesis leaf : forall n m, P (VError.mkError n m None).
Hypothesis wrap : forall n m c, P c -> P (VError.mkError n m (Some c)).

Fixpoint Error_chain_ind (e : Error) : P e :=
  match e with
  | VError.mkError n m None => leaf n m
  | VError.mkError n m (Some c) => wrap n m c (Error_chain_ind c)
  end.

End ErrorInduction.

(** The cause chain of [e] contains an error named [kind]. *)
Definition caused_by (e : Error) (kind : string) : Prop :=
  exists c, c ∈ VError.chain e /\ VError.name c = kind.

(** The three kinds the reconnect scenario accepts from its final ping. *)
Definition whitelisted (e : Error) : Prop :=
  caused_by e "NoBackendsError" \/ caused_by e "FastTransportError" \/
  caused_by e "FastProtocolError".

Definition final_ping : Request := ping (JObj [("timeout", JNum 5000)]).

(** What a routine that waits on a request does when the request is answered
    with [err] and [args]. *)
Definition answer (p : Prog) (err : option Error) (args : list Json) : Prog :=
  match p with
  | Await _ k => k err args
  | _ => p
  end.

(** The requests of command [i] recorded one after the other. *)
Definition observe_all (i : nat) (qs : list Request) (w : World) : World :=
  foldl (fun w q => observe (Issued i q) w) w qs.

(** The number of times [cmdspec.exec] of command [i] has been invoked. *)
Fixpoint exec_count (i : nat) (tr : list Obs) : nat :=
  match tr with
  | [] => 0
  | ExecInvoked j :: rest => (if Nat.eqb i j then 1 else 0) + exec_count i rest
  | Issued _ _ :: rest => exec_count i rest
  end.

(** [cmdspec.ctx.nstarted], taken as 0 while there is no context. *)
Definition nstarted_of (c : cmdspec) : nat :=
  match ctx c with
  | Some x => nstarted x
  | None => 0
  end.

(** The outstanding requests, the live watchdogs and the queued
    [setImmediate] callbacks of command [i]. *)
Definition pending_of (w : World) (i : nat) : list Pending :=
  filter (fun p => owner p = i) (pending w).

Definition timers_of (w : World) (i : nat) : list Timer :=
  filter (fun t => target t = i) (timers w).

Definition queued_of (w : World) (i : nat) : list nat :=
  filter (fun j => j = i) (immediates w).

(** An iteration of command [i] is outstanding: its exec routine has been
    invoked and is waiting for a request before it can call back. *)
Definition outstanding (w : World) (i : nat) : Prop :=
  exists p, p ∈ pending w /\ owner p = i /\ phase p = InExec.

(** The timer behind handle [h] is live. *)
Definition armed (w : World) (h : nat) : Prop :=
  exists t, t ∈ timers w /\ handle t = h.

(** The life of one command, read off the process state: not started; in
    setup; an iteration in flight under its watchdog; the next iteration
    queued; setup failed. *)
Inductive cmd_ok (i : nat)
  : option Ctx -> list Pending -> list Timer -> list nat -> Prop :=
| ok_idle : cmd_ok i None [] [] []
| ok_setup x p :
    timer x = None -> nstarted x = 0%nat -> phase p = InSetup ->
    cmd_ok i (Some x) [p] [] []
| ok_running x p t s :
    timer x = Some (handle t) -> lastStarted x = Some s ->
    expiry t = s + scWatchdogLimit -> (0 < nstarted x)%nat ->
    phase p = InExec ->
    cmd_ok i (Some x) [p] [t] []
| ok_scheduled x h :
    timer x = Some h -> (0 < nstarted x)%nat ->
    cmd_ok i (Some x) [] [] [i]
| ok_stopped x :
    timer x = None -> nstarted x = 0%nat ->
    cmd_ok i (Some x) [] [] [].

(** Handles are never reused: every handle stored in a context is below the
    next one, every live timer is the one its command's context names, and
    no two contexts name the same handle.  Every outstanding request belongs
    to a registered command. *)
Record Globals (w : World) : Prop := {
  good_fresh : forall i c x h,
    scCommands w !! i = Some c -> ctx c = Some x -> timer x = Some h ->
    (h < nextHandle w)%nat;
  good_timers : forall t,
    t ∈ timers w ->
    exists c x, scCommands w !! target t = Some c /\ ctx c = Some x /\
                timer x = Some (handle t);
  good_distinct : forall i j ci cj xi xj h,
    scCommands w !! i = Some ci -> scCommands w !! j = Some cj ->
    ctx ci = Some xi -> ctx cj = Some xj ->
    timer xi = Some h -> timer xj = Some h -> i = j;
  good_owners : forall p,
    p ∈ pending w -> is_Some (scCommands w !! owner p)
}.

Definition cmd_state (w : World) (i : nat) (c : cmdspec) : Prop :=
  cmd_ok i (ctx c) (pending_of w i) (timers_of w i) (queued_of w i).

(** Every command but [i] is in one of its five states. *)
Definition others_ok (i : nat) (w : World) : Prop :=
  forall j c, j <> i -> scCommands w !! j = Some c -> cmd_state w j c.

Definition Good (w : World) : Prop :=
  Globals w /\ forall i c, scCommands w !! i = Some c -> cmd_state w i c.

(** Command [i] with nothing outstanding, armed or queued. *)
Definition quiet (w : World) (i : nat) : Prop :=
  pending_of w i = [] /\ timers_of w i = [] /\ queued_of w i = [].

(** Before [EvServerUp] nothing has been touched. *)
Definition pristine (w : World) : Prop :=
  pending w = [] /\ immediates w = [] /\ timers w = [] /\ trace w = [] /\
  Forall (fun c => ctx c = None) (scCommands w).

(** [nstarted] of every command is the number of invocations of its exec. *)
Definition counted (w : World) : Prop :=
  forall i c, scCommands w !! i = Some c -> exec_count i (trace w) = nstarted_of c.

Record Inv (w : World) : Prop := {
  inv_pristine : started w = false -> pristine w;
  inv_counted : counted w;
  inv_good : status w = Running -> Good w
}.

(** What one call on behalf of command [i] may change: the other commands
    keep their entries, the registry keeps its length, the trace grows, and
    [nstarted] of [i] grows by the invocations of its exec. *)
Record advances (i : nat) (w w' : World) : Prop := {
  adv_frame : forall j, j <> i -> scCommands w' !! j = scCommands w !! j;
  adv_length : length (scCommands w') = length (scCommands w);
  adv_started : started w' = started w;
  adv_trace : exists obs,
    trace w' = trace w ++ obs /\
    (forall j, j <> i -> exec_count j obs = 0%nat) /\
    (forall c, scCommands w !! i = Some c ->
       exists c', scCommands w' !! i = Some c' /\
                  nstarted_of c' = (nstarted_of c + exec_count i obs)%nat)
}.

(** ** The failure sweep, as the specification tabulates it

    Modelled on the words of the specification, to be compared with
    [Scenario.cmdRpcFail]: each operation with its fixed input and the one
    error kind it has to yield. *)

Definition fail_sweep : list (Request * string) :=
  [ (createBucket scTestBucketInvalid (JObj []), "InvalidBucketNameError");
    (getBucket scTestBucketBogus, "BucketNotFoundError");
    (updateBucket scTestBucketBogus (JObj []), "BucketNotFoundError");
    (deleteBucket scTestBucketBogus, "BucketNotFoundError");
    (putObject scTestBucketBogus "key" (JObj []), "BucketNotFoundError");
    (batch (JArr [ JObj [("bucket", JStr scTestBucketBogus);
                         ("operation", JStr "update");
                         ("fields", JObj []);
                         ("filter", JStr "x=*")] ]), "BucketNotFoundError");
    (getObject scTestBucketBogus "key", "BucketNotFoundError");
    (delObject scTestBucketBogus "key", "BucketNotFoundError");
    (findObjects scTestBucketBogus "key=value", "BucketNotFoundError");
    (updateObjects scTestBucketBogus (JObj []) "key=value", "FieldUpdateError");
    (reindexObjects scTestBucketBogus 3, "BucketNotFoundError");
    (deleteMany scTestBucketBogus "x=y", "BucketNotFoundError") ].

(** The requests of one whole sweep, in the order of the pipeline. *)
Definition fail_requests : list Request :=
  (fst <$> fail_sweep) ++ [ getTokens; sql "SELECT ctid from bogus;" ].

(** The requests that answer with ['error'] and ['end'] events. *)
Definition streaming (q : Request) : bool :=
  match q with
  | findObjects _ _ | sql _ => true
  | _ => false
  end.

(** [new Error('unexpected "end"')] *)
Definition unexpected_end : Error := VError.plain ("unexpected " +:+ quoted "end").

(** The reply is an error with [kind] in its cause chain. *)
Definition swallowed (kind : string) (r : Reply) : Prop :=
  exists e, r.1 = Some e /\ caused_by e kind.

(** ** Sample runs *)

Definition NoBackendsError : Error :=
  VError.mkError "NoBackendsError" "no backends available" None.

(** The process after the given turns of the event loop, from a boot at
    time 0 (the boot state itself if a turn is not enabled). *)
Definition after (evs : list Event) : World :=
  match play evs (boot registry 0) with
  | Some w => w
  | None => boot registry 0
  end.

(** The given turns of the event loop can be taken one after the other. *)
Definition enabled (evs : list Event) : bool :=
  match play evs (boot registry 0) with
  | Some _ => true
  | None => false
  end.

(** ** Vocabulary of the scenarios *)

(** The replies to the failed pings of the reconnect loop: each ping is
    answered with an error, each 100 ms wait that follows with whatever the
    timer passes. *)
Definition failed_pings (fails : list (Error * list Json * Reply)) : list Reply :=
  flat_map (fun f => [ (Some f.1.1, f.1.2); f.2 ]) fails.

(** The requests of [n] failed pings. *)
Definition retries (n : nat) : list Request :=
  concat (replicate n [ ping JNull; wait 100 ]).

(** The number of pings among the requests. *)
Fixpoint pings (qs : list Request) : nat :=
  match qs with
  | [] => 0
  | ping _ :: rest => S (pings rest)
  | _ :: rest => pings rest
  end.

(** The requests of one whole iteration of the success sweep, in the order
    of the pipeline. *)
Definition okay_requests : list Request :=
  [ deleteBucket scTestBucket;
    createBucket scTestBucket (JObj []);
    getBucket scTestBucket;
    listBuckets;
    updateBucket scTestBucket
      (JObj [("index", JObj [("field1", JObj [("type", JStr "number")])])]);
    putObject scTestBucket "key5" (JObj [("field1", JNum 5)]);
    batch (JArr [ Scenario.put_op "key2" 2; Scenario.put_op "key3" 3;
                  Scenario.put_op "key7" 7; Scenario.put_op "key9" 9 ]);
    getObject scTestBucket "key3";
    delObject scTestBucket "key5";
    findObjects scTestBucket "field1>=3";
    updateObjects scTestBucket (JObj [("field1", JNum 10)]) "field1>=9";
    reindexObjects scTestBucket 3;
    deleteMany scTestBucket "field1>=7";
    deleteBucket scTestBucket;
    ping JNull;
    versionInternal;
    sql "SELECT NOW();" ].

(** A reply the success sweep goes on from: a success, or for the first
    [deleteBucket] an error with BucketNotFoundError in its cause chain. *)
Definition okay_reply (k : nat) (r : Reply) : Prop :=
  r.1 = None \/ (k = 0%nat /\ swallowed "BucketNotFoundError" r).

(** The message ends with [suffix]. *)
Definition message_ends (suffix : string) (err : option Error) : Prop :=
  exists e pre, err = Some e /\ VError.message e = pre +:+ suffix.

(** The messages the last two stages of the failure sweep insist on. *)
Definition not_supported : string := "Operation not supported".
Definition no_relation : string :=
  "relation " +:+ quoted "bogus" +:+ " does not exist".

(** ** Vocabulary of the startup *)

#[global] Instance Phase_eq_dec : EqDecision Phase.
Proof. solve_decision. Defined.

(** The setup routines that are waiting for a request: they have been
    invoked and have not called back. *)
Definition in_setup (w : World) : list Pending :=
  filter (fun p => phase p = InSetup) (pending w).

(** The line [main] writes once every setup has succeeded, and the line
    [cmdutil.fail] writes when one has failed. *)
Definition set_up_line : string := "set up all commands".
Definition setup_failed_line : string := "stress-client: setup".

(** The bookkeeping of [vasync.forEachParallel] while [r] of the setups are
    neither waiting nor done (they are being invoked, or are yet to be). *)
Record Accounted (r : nat) (w : World) : Prop := {
  acc_total : status w = Running ->
    (ndone w + length (in_setup w) + r = length (scCommands w))%nat;
  acc_bound : (nerrors w <= ndone w <= length (scCommands w))%nat;
  acc_line : set_up_line ∈ stderr w ->
    ndone w = length (scCommands w) /\ nerrors w = 0%nat;
  acc_once : (length (filter (fun l => l = set_up_line) (stderr w)) <= 1)%nat;
  acc_exit : forall code, status w = Exited code ->
    code = 1 /\ ndone w = length (scCommands w) /\ (0 < nerrors w)%nat /\
    last (stderr w) = Some setup_failed_line;
  acc_done : ndone w = length (scCommands w) -> (0 < length (scCommands w))%nat ->
    if Nat.eqb (nerrors w) 0 then set_up_line ∈ stderr w else status w = Exited 1
}.

(** The bookkeeping between two turns of the event loop. *)
Definition Startup (w : World) : Prop :=
  Accounted (if started w then 0 else length (scCommands w)) w.

(** Sample runs: every setup succeeds; the setup of the failure sweep
    fails and the others succeed. *)
Definition all_set_up : list Event :=
  [ EvServerUp; EvReply 3 None []; EvReply 3 None []; EvReply 1 None [];
    EvReply 4 None []; EvReply 4 None [] ].


(** ** Vocabulary of the registry and its time stamps *)

(** [c'] is the command [c]: the same name and the same two functions,
    whatever its context. *)
Definition same_command (c c' : cmdspec) : Prop :=
  name c' = name c /\ setup c' = setup c /\ exec c' = exec c.

(** From [w] to [w'] the wall clock has not moved, the registry holds the
    same commands, and no command has lost its context. *)
Record keeps (w w' : World) : Prop := {
  keeps_clock : clock w' = clock w;
  keeps_length : length (scCommands w') = length (scCommands w);
  keeps_lookup : forall j c, scCommands w !! j = Some c ->
    exists c', scCommands w' !! j = Some c' /\ same_command c c' /\
               (is_Some (ctx c) -> is_Some (ctx c'))
}.

(** The time stamps of a context at wall-clock time [now]: setup started
    before it was done, it was done before the latest iteration started, and
    an iteration has started exactly when setup is done. *)
Record stamped (now : Z) (x : Ctx) : Prop := {
  st_started : setupStarted x <= now;
  st_done :
    match setupDone x with
    | Some d => setupStarted x <= d <= now /\ (0 < nstarted x)%nat
    | None => nstarted x = 0%nat
    end;
  st_last :
    match lastStarted x with
    | Some s => (exists d, setupDone x = Some d /\ d <= s) /\ s <= now
    | None => nstarted x = 0%nat
    end
}.

Definition Timed (w : World) : Prop :=
  forall i c x, scCommands w !! i = Some c -> ctx c = Some x -> stamped (clock w) x.

(** Every command but [i] has well-stamped times. *)
Definition others_timed (i : nat) (w : World) : Prop :=
  forall j c x, j <> i -> scCommands w !! j = Some c -> ctx c = Some x ->
    stamped (clock w) x.

(** ** The test server of helper.js

    [createServer] spawns a Moray server as a child process (or hands out a
    handle of the remote one), [cleanupServer] kills it.  The handlers that
    [createServer] registers are functions of the state they close over. *)

Module Helper.

(** The variables of [process.env] that helper.js reads: unset, or a
    string. *)
Record Env : Type := {
  MORAY_TEST_SERVER_REMOTE : option string;
  MORAY_TEST_SERVER_RUN : option string;
  MORAY_TEST_EXTRA_ARGS : option string
}.

(** [if (process.env[...])]: the empty string is as false as [undefined]. *)
Definition truthy (v : option string) : bool :=
  match v with
  | Some s => negb (String.eqb s "")
  | None => false
  end.

(** [if (opts.portOverride)] after [opts = opts || {}]: an absent port and
    the port 0 are false. *)
Definition given (portOverride : option Z) : bool :=
  match portOverride with
  | Some n => negb (n =? 0)
  | None => false
  end.


(** What [createServer] sets going when it does not throw: the callback is
    scheduled with the handle [{ ts_remote: true }], or [bash -c script] is
    spawned with [MORAY_TEST_EXTRA_ARGS] as given. *)
Inductive Started : Type :=
| Remote
| Spawned (script : string) (extra_args : option string).

Definition createServer (env : Env) (portOverride : option Z) : Completion Started :=
  if truthy (MORAY_TEST_SERVER_REMOTE env) then
    if given portOverride
    then Throw (VError.plain
                  "multiple servers are not supported in this configuration")
    else Normal Remote
  else
    match MORAY_TEST_SERVER_RUN env with
    | Some script =>
        if String.eqb script ""
        then Throw (VError.plain
                      ("not found in environment: MORAY_TEST_SERVER_RUN. " +:+
                       "(have you already run configure and sourced the env file?)"))
        else Normal (Spawned script
                       (match portOverride with
                        | Some n => if n =? 0 then MORAY_TEST_EXTRA_ARGS env
                                    else Some ("-p " +:+ pretty n)
                        | None => MORAY_TEST_EXTRA_ARGS env
                        end))
    | None =>
        Throw (VError.plain
                 ("not found in environment: MORAY_TEST_SERVER_RUN. " +:+
                  "(have you already run configure and sourced the env file?)"))
    end.

(** [/\d/] *)
Definition digit (c : ascii) : bool :=
  (48 <=? nat_of_ascii c)%nat && (nat_of_ascii c <=? 57)%nat.

(** What is left of [s] behind the prefix [lit]. *)
Fixpoint behind (lit s : string) : option string :=
  match lit with
  | EmptyString => Some s
  | String a lit' =>
      match s with
      | String b s' => if Ascii.eqb a b then behind lit' s' else None
      | EmptyString => None
      end
  end.

(** An unanchored regular expression matches [s] when it matches at the
    start of some suffix of [s]. *)
Fixpoint somewhere (here : string -> bool) (s : string) : bool :=
  here s || match s with
            | EmptyString => false
            | String _ s' => somewhere here s'
            end.

(** [/moray listening on \d+/.test(s)] *)
Definition listening (s : string) : bool :=
  somewhere (fun s' => match behind "moray listening on " s' with
                       | Some (String c _) => digit c
                       | _ => false
                       end) s.

(** [/manatee ready/.test(s)] *)
Definition manatee_ready (s : string) : bool :=
  somewhere (fun s' => match behind "manatee ready" s' with
                       | Some _ => true
                       | None => false
                       end) s.

(** The handle [createServer] passes to its callback; [ts_cleanup_cb] is
    null or the callback [cleanupServer] stored. *)
Record Server : Type := { ts_remote : bool; ts_cleanup_cb : bool }.

(** The variables the handlers of a spawned server close over: the output
    [seen] so far, [ready], whether the timer [t] is pending, and the
    handle. *)
Record Child : Type := {
  seen : string;
  ready : bool;
  t : bool;
  server : Server
}.

(** The state [createServer] leaves when it has spawned the child. *)
Definition spawned : Child :=
  {| seen := ""; ready := false; t := true;
     server := {| ts_remote := false; ts_cleanup_cb := false |} |}.

(** What a handler does to the outside. *)
Inductive Action : Type :=
| Unpipe
| ClearTimer
| Ready
| Kill
| Later.

(** The ['data'] handler, for a chunk that decodes to [c]. *)
Definition onData (c : string) (s : Child) : Child * list Action :=
  let seen' := seen s +:+ c in
  if negb (ready s) && listening seen' && manatee_ready seen'
  then ({| seen := seen'; ready := true; t := false; server := server s |},
        [ Unpipe; ClearTimer; Ready ])
  else ({| seen := seen'; ready := ready s; t := t s; server := server s |}, []).

(** The chunks of the child's output, handled one after the other. *)
Fixpoint feed (chunks : list string) (s : Child) : Child * list Action :=
  match chunks with
  | [] => (s, [])
  | c :: rest =>
      let (s1, a1) := onData c s in
      let (s2, a2) := feed rest s1 in
      (s2, a1 ++ a2)
  end.

(** What the ['exit'] handler comes to: one of its two exceptions, or the
    call of the stored cleanup callback. *)
Inductive ExitVerdict : Type :=
| ExitedClean
| ChildFailed (code : option Z) (signal : option string)
| CallCleanup.

Definition onExit (code : option Z) (signal : option string) (s : Server)
  : ExitVerdict :=
  match code with
  | Some 0 => ExitedClean
  | _ =>
      if negb (ts_cleanup_cb s)
         || negb (match signal with
                  | Some sig => String.eqb sig "SIGKILL"
                  | None => false
                  end)
      then ChildFailed code signal
      else CallCleanup
  end.

Definition cleanupServer (s : Server) : Completion (Server * list Action) :=
  if ts_remote s then Normal (s, [ Later ])
  else if ts_cleanup_cb s
       then Throw (VError.AssertionError "cannot call cleanupServer multiple times")
       else Normal ({| ts_remote := false; ts_cleanup_cb := true |}, [ Kill ]).

(** [cleanupServer] called again and again on the same handle. *)
Fixpoint cleanups (n : nat) (s : Server) : Completion (Server * list Action) :=
  match n with
  | O => Normal (s, [])
  | S n' =>
      match cleanupServer s with
      | Normal (s1, a1) =>
          match cleanups n' s1 with
          | Normal (s2, a2) => Normal (s2, a1 ++ a2)
          | Throw e => Throw e
          end
      | Throw e => Throw e
      end
  end.

End Helper.

(** ** cli-sanity.test.js: the test cases for bad [-h] and [-p] arguments *)

Module CliSanity.

Definition bucket : string := "cli_sanity_test_bucket".

(** [cmdname == 'a' || cmdname == 'b' || ...] *)
Definition one_of (names : list string) (cmdname : string) : bool :=
  existsb (String.eqb cmdname) names.

Definition validArgsFor (cmdname : string) : list string :=
  if String.eqb cmdname "sql" then [ "select NOW()" ]
  else
    let args := [] in
    let args :=
      if one_of [ "backfill"; "delbucket"; "delmany"; "delobject"; "findobjects";
                  "getbucket"; "getobject"; "putbucket"; "putobject";
                  "reindexobjects"; "updatemany" ] cmdname
      then args ++ [ bucket ] else args in
    let args :=
      if one_of [ "delobject"; "getobject"; "putobject" ] cmdname
      then args ++ [ "x" ] else args in
    let args :=
      if one_of [ "delmany"; "findobjects"; "updatemany" ] cmdname
      then args ++ [ "x=y" ] else args in
    args.

(** A test case; the two regular expressions are given by their source. *)
Record TestCase : Type := {
  name : string;
  exec : list string;
  statusCode : Z;
  stdout : string;
  stderr : string
}.

Definition cmds : list string :=
  [ "backfill"; "delbucket"; "delmany"; "delobject"; "findobjects"; "getbucket";
    "getobject"; "listbuckets"; "morayping"; "morayversion"; "putbucket";
    "putobject"; "reindexobjects"; "sql"; "updatemany" ].

(** The two [testcases.push] calls for one command. *)
Definition failure_cases (cmdname : string) : list TestCase :=
  let args := validArgsFor cmdname in
  [ {| name := cmdname +:+ ": bad hostname";
       exec := [ cmdname ] ++ ([ "-h"; "bogus-test"; "-p"; "1111" ] ++ args);
       statusCode := 1;
       stdout := "^$";
       stderr := "^" +:+ cmdname +:+
                 ":.*bogus-test.*: failed to establish connection" |};
    {| name := cmdname +:+ ": bad port";
       exec := [ cmdname ] ++ ([ "-h"; "127.0.0.1"; "-p"; "1111" ] ++ args);
       statusCode := 1;
       stdout := "^$";
       stderr := "^" +:+ cmdname +:+
                 ":.*127\.0\.0\.1.*: failed to establish connection" |} ].

(** [cmds.forEach(...)], pushing onto the module-level [testcases]. *)
Definition generateFailureTests (testcases : list TestCase) : list TestCase :=
  foldl (fun tcs cmdname => tcs ++ failure_cases cmdname) testcases cmds.

Definition newline : ascii := "010"%char.

(** [s.split('\n')] *)
Fixpoint split (s : string) : list string :=
  match s with
  | EmptyString => [ EmptyString ]
  | String c s' =>
      if Ascii.eqb c newline then EmptyString :: split s'
      else match split s' with
           | l :: ls => String c l :: ls
           | [] => [ String c EmptyString ]
           end
  end.

(** [lines.map(function (l) { return (JSON.parse(l)); })]: the first line
    that does not parse throws. *)
Fixpoint parse_all (parse : string -> Completion Json) (lines : list string)
  : Completion (list Json) :=
  match lines with
  | [] => Normal []
  | l :: rest =>
      match parse l with
      | Normal v =>
          match parse_all parse rest with
          | Normal vs => Normal (v :: vs)
          | Throw e => Throw e
          end
      | Throw e => Throw e
      end
  end.

(** The two tape assertions (which record a failure and go on), and the
    objects returned.  [parse] is [JSON.parse]. *)
Definition parseFindobjectsResults (parse : string -> Completion Json)
    (stdout : string) : list bool * Completion (list Json) :=
  let lines := split stdout in
  let more_than_one := Nat.ltb 1 (length lines) in
  let last_is_empty :=
    match last lines with
    | Some l => String.eqb l ""
    | None => false
    end in
  let lines := take (length lines - 1) lines in
  ([ more_than_one; last_is_empty ], parse_all parse lines).

End CliSanity.

(** ** Vocabulary of the command lines and of the test server *)

(** The string has no line feed in it. *)
Fixpoint one_line (s : string) : bool :=
  match s with
  | EmptyString => true
  | String c s' => negb (Ascii.eqb c CliSanity.newline) && one_line s'
  end.

(** The output of a tool that writes each of [lines] followed by a line
    feed. *)
Fixpoint written (lines : list string) : string :=
  match lines with
  | [] => ""
  | l :: rest => l +:+ String CliSanity.newline (written rest)
  end.

(** The number of [Ready] among the actions. *)
Fixpoint readies (acts : list Helper.Action) : nat :=
  match acts with
  | [] => 0
  | Helper.Ready :: rest => S (readies rest)
  | _ :: rest => readies rest
  end.

(** The output so far shows that the server is up. *)
Definition up (s : string) : bool := Helper.listening s && Helper.manatee_ready s.

(** The chunks put together. *)
Fixpoint joined (chunks : list string) : string :=
  match chunks with
  | [] => ""
  | c :: rest => c +:+ joined rest
  end.

(** * Proofs *)

(** ** Cause chains and the error filters *)

Lemma find_cause_name e kind c :
  VError.find_cause e kind = Some c -> c ∈ VError.chain e /\ VError.name c = kind.
Proof.
  induction e as [n m | n m c' IH] using Error_chain_ind; simpl; intros H.
  - destruct (String.eqb n kind) eqn:E; [ | discriminate ].
    inversion H; subst. apply String.eqb_eq in E. split; [ left | exact E ].
  - destruct (String.eqb n kind) eqn:E.
    + inversion H; subst. apply String.eqb_eq in E. split; [ left | exact E ].
    + destruct (IH H) as [Hin Hn]. split; [ right; exact Hin | exact Hn ].
Qed.

Lemma find_cause_none e kind :
  VError.find_cause e kind = None -> ~ caused_by e kind.
Proof.
  induction e as [n m | n m c' IH] using Error_chain_ind; simpl;
    intros H [c [Hin Hn]]; simpl in Hin;
    destruct (String.eqb n kind) eqn:E; try discriminate;
    apply String.eqb_neq in E;
    apply elem_of_cons in Hin as [-> | Hin]; simpl in Hn; try contradiction.
  - inversion Hin.
  - apply (IH H). exists c. auto.
Qed.

Lemma has_cause_spec e kind : has_cause e kind = true <-> caused_by e kind.
Proof.
  unfold has_cause. destruct (VError.find_cause e kind) eqn:E.
  - split; [ intros _ | reflexivity ].
    destruct (find_cause_name _ _ _ E). exists e0. auto.
  - split; [ discriminate | ]. intros H. destruct (find_cause_none _ _ E H).
Qed.

Lemma has_cause_false e kind : has_cause e kind = false <-> ~ caused_by e kind.
Proof.
  rewrite <- has_cause_spec. destruct (has_cause e kind); split; congruence.
Qed.




(** ** Bookkeeping *)

Lemma alive_status w : alive w = true <-> status w = Running.
Proof. unfold alive. destruct (status w); split; congruence. Qed.

Lemma exec_count_app i l1 l2 :
  exec_count i (l1 ++ l2) = (exec_count i l1 + exec_count i l2)%nat.
Proof.
  induction l1 as [| [j | j q] l1 IH]; simpl; [ reflexivity | | exact IH ].
  rewrite IH. lia.
Qed.

(** ** What a call on behalf of one command may change *)

Lemma advances_same i w w' :
  scCommands w' = scCommands w -> trace w' = trace w -> started w' = started w ->
  advances i w w'.
Proof.
  intros Hc Ht Hs. constructor.
  - intros j _. by rewrite Hc.
  - by rewrite Hc.
  - exact Hs.
  - exists []. rewrite app_nil_r. split; [ exact Ht | split; [ reflexivity | ] ].
    intros c H. exists c. rewrite Hc. split; [ exact H | simpl; lia ].
Qed.

Lemma advances_refl i w : advances i w w.
Proof. by apply advances_same. Qed.

Lemma advances_trans i w1 w2 w3 :
  advances i w1 w2 -> advances i w2 w3 -> advances i w1 w3.
Proof.
  intros [F1 L1 S1 (o1 & T1 & Z1 & N1)] [F2 L2 S2 (o2 & T2 & Z2 & N2)].
  constructor.
  - intros j Hj. rewrite (F2 j Hj). by apply F1.
  - congruence.
  - congruence.
  - exists (o1 ++ o2). split; [ | split ].
    + rewrite T2, T1. by rewrite app_assoc.
    + intros j Hj. rewrite exec_count_app, (Z1 j Hj), (Z2 j Hj). reflexivity.
    + intros c Hc. destruct (N1 c Hc) as (c' & Hc' & E1).
      destruct (N2 c' Hc') as (c'' & Hc'' & E2).
      exists c''. split; [ exact Hc'' | ]. rewrite exec_count_app. lia.
Qed.

Lemma advances_observe_issued i q w : advances i w (observe (Issued i q) w).
Proof.
  constructor; try reflexivity.
  exists [Issued i q]. split; [ reflexivity | split; [ reflexivity | ] ].
  intros c Hc. exists c. split; [ exact Hc | simpl; lia ].
Qed.

Lemma resume_advances i ph done :
  (forall err w, advances i w (done err w)) ->
  forall p w, advances i w (resume i ph done p w).
Proof.
  intros Hdone. induction p as [err | e | q p IH | q k _]; intros w; cbn [resume].
  - apply Hdone.
  - by apply advances_same.
  - eapply advances_trans; [ apply advances_observe_issued | apply IH ].
  - eapply advances_trans; [ apply advances_observe_issued | ].
    by apply advances_same.
Qed.

Lemma execCallback_advances i err w : advances i w (execCallback i err w).
Proof.
  unfold execCallback, with_cmd.
  destruct (scCommands w !! i) as [c|]; [ | by apply advances_same ].
  destruct (ctx c) as [x|]; [ | by apply advances_same ].
  destruct err; destruct (timer x); by apply advances_same.
Qed.

Lemma advances_store i c x x' w :
  scCommands w !! i = Some c -> ctx c = Some x -> nstarted x' = nstarted x ->
  advances i w (store_ctx i c x' w).
Proof.
  intros Hc Hx Hn. constructor; cbn.
  - intros j Hj. by rewrite list_lookup_insert_ne.
  - by rewrite length_insert.
  - reflexivity.
  - exists []. rewrite app_nil_r. split; [ reflexivity | split; [ reflexivity | ] ].
    intros c0 Hc0. exists (set_ctx x' c). split.
    + apply list_lookup_insert_eq. by eapply lookup_lt_Some.
    + assert (c0 = c) as -> by congruence.
      unfold nstarted_of. rewrite Hx. cbn. lia.
Qed.

Lemma scCommandLoop_advances i w : advances i w (scCommandLoop i w).
Proof.
  unfold scCommandLoop, with_cmd.
  destruct (scCommands w !! i) as [c|] eqn:Hc; [ | by apply advances_same ].
  destruct (ctx c) as [x|] eqn:Hx; [ | by apply advances_same ].
  eapply advances_trans;
    [ | apply resume_advances; intros; apply execCallback_advances ].
  constructor; cbn.
  - intros j Hj. by rewrite list_lookup_insert_ne.
  - by rewrite length_insert.
  - reflexivity.
  - exists [ExecInvoked i]. split; [ reflexivity | split ].
    + intros j Hj. cbn. destruct (Nat.eqb_spec j i); [ contradiction | reflexivity ].
    + intros c0 Hc0. eexists. split.
      * apply list_lookup_insert_eq. by eapply lookup_lt_Some.
      * assert (c0 = c) as -> by congruence.
        unfold nstarted_of. rewrite Hx. cbn. rewrite Nat.eqb_refl. lia.
Qed.

Lemma forEachDone_advances i err w : advances i w (forEachDone err w).
Proof.
  unfold forEachDone. repeat case_match; by apply advances_same.
Qed.

Lemma setupCallback_advances i err w : advances i w (setupCallback i err w).
Proof.
  unfold setupCallback, with_cmd.
  destruct (scCommands w !! i) as [c|] eqn:Hc; [ | by apply advances_same ].
  destruct (ctx c) as [x|] eqn:Hx; [ | by apply advances_same ].
  destruct err as [e|]; [ apply forEachDone_advances | ].
  eapply advances_trans;
    [ by apply (advances_store i c x (set_setupDone (clock w) x)) | ].
  eapply advances_trans; [ apply scCommandLoop_advances | ].
  destruct (alive _); [ apply forEachDone_advances | apply advances_refl ].
Qed.

Lemma scCommandStart_advances i w :
  (forall c, scCommands w !! i = Some c -> ctx c = None) ->
  advances i w (scCommandStart i w).
Proof.
  intros Hnone. unfold scCommandStart.
  destruct (scCommands w !! i) as [c|] eqn:Hc; [ | apply advances_refl ].
  eapply advances_trans;
    [ | apply resume_advances; intros; apply setupCallback_advances ].
  constructor; cbn.
  - intros j Hj. by rewrite list_lookup_insert_ne.
  - by rewrite length_insert.
  - reflexivity.
  - exists []. rewrite app_nil_r. split; [ reflexivity | split; [ reflexivity | ] ].
    intros c0 Hc0. eexists. split.
    + apply list_lookup_insert_eq. by eapply lookup_lt_Some.
    + assert (c0 = c) as -> by congruence.
      unfold nstarted_of. rewrite (Hnone c eq_refl). reflexivity.
Qed.

Lemma counted_advances i w w' : counted w -> advances i w w' -> counted w'.
Proof.
  intros K [F L S (obs & T & Z & N)] j c' Hc'.
  rewrite T, exec_count_app.
  destruct (decide (j = i)) as [-> | Hj].
  - assert (is_Some (scCommands w !! i)) as [c Hc].
    { apply lookup_lt_is_Some. rewrite <- L. by eapply lookup_lt_Some. }
    destruct (N c Hc) as (c'' & Hc'' & E).
    assert (c'' = c') as -> by congruence.
    rewrite (K i c Hc). lia.
  - rewrite (Z j Hj). rewrite (F j Hj) in Hc'. rewrite (K j c' Hc'). lia.
Qed.

Lemma forEachParallel_counted inputs : forall w,
  NoDup inputs ->
  (forall j c, j ∈ inputs -> scCommands w !! j = Some c -> ctx c = None) ->
  counted w ->
  counted (forEachParallel inputs w) /\
  started (forEachParallel inputs w) = started w /\
  length (scCommands (forEachParallel inputs w)) = length (scCommands w).
Proof.
  induction inputs as [| i rest IH]; intros w Hnd Hnone K; cbn [forEachParallel].
  - auto.
  - apply NoDup_cons in Hnd as [Hi Hnd].
    assert (Hadv : advances i w (scCommandStart i w)).
    { apply scCommandStart_advances. intros c Hc.
      apply (Hnone i c); [ left | exact Hc ]. }
    pose proof (counted_advances _ _ _ K Hadv) as K1.
    destruct (alive (scCommandStart i w)).
    + destruct (IH (scCommandStart i w) Hnd) as (K2 & S2 & L2); [ | exact K1 | ].
      * intros j c Hj Hc. rewrite (adv_frame _ _ _ Hadv) in Hc.
        -- apply (Hnone j c); [ by right | exact Hc ].
        -- intros ->. contradiction.
      * split; [ exact K2 | ]. rewrite S2, L2.
        split; [ apply (adv_started _ _ _ Hadv) | apply (adv_length _ _ _ Hadv) ].
    + split; [ exact K1 | ].
      split; [ apply (adv_started _ _ _ Hadv) | apply (adv_length _ _ _ Hadv) ].
Qed.

Lemma caused_by_find e kind :
  caused_by e kind <-> VError.find_cause e kind <> None.
Proof.
  rewrite <- has_cause_spec. unfold has_cause.
  destruct (VError.find_cause e kind); split; congruence.
Qed.


(** ** How the runner treats the end of an exec routine *)

Lemma resume_exec_status i c x p : forall w,
  scCommands w !! i = Some c -> ctx c = Some x ->
  status (resume i InExec (execCallback i) p w) =
    match snd (run p []) with
    | Done None | Blocked => status w
    | Done (Some e) =>
        Uncaught (VError.new (Some e) ("exec command " +:+ quoted (name c)))
    | Threw e => Uncaught e
    end.
Proof.
  induction p as [err | e | q p IH | q k _]; intros w Hc Hx; cbn [resume run snd].
  - unfold execCallback, with_cmd. rewrite Hc, Hx.
    destruct err as [e|]; [ reflexivity | ].
    destruct (timer x); reflexivity.
  - reflexivity.
  - rewrite (IH (observe (Issued i q) w) Hc Hx).
    destruct (run p []) as [qs o]. reflexivity.
  - reflexivity.
Qed.

Lemma resume_exec_immediates i c x p : forall w,
  scCommands w !! i = Some c -> ctx c = Some x ->
  snd (run p []) = Done None ->
  immediates (resume i InExec (execCallback i) p w) = immediates w ++ [i].
Proof.
  induction p as [err | e | q p IH | q k _]; intros w Hc Hx; cbn [resume run snd].
  - intros [= ->]. unfold execCallback, with_cmd. rewrite Hc, Hx.
    destruct (timer x); reflexivity.
  - discriminate.
  - destruct (run p []) as [qs o] eqn:E. cbn [snd]. intros ->.
    rewrite (IH (observe (Issued i q) w) Hc Hx); [ reflexivity | ].
    reflexivity.
  - discriminate.
Qed.

Lemma clientFail_answer (subcallback : Callback) err args :
  answer (Scenario.cmdRpcReconnectClientFail subcallback) err args =
    match err with
    | Some e =>
        if has_cause e "NoBackendsError" || has_cause e "FastTransportError"
           || has_cause e "FastProtocolError"
        then subcallback None []
        else subcallback (Some (VError.new (Some e) "unexpected error")) []
    | None => subcallback (Some (VError.new None "unexpected success")) []
    end.
Proof.
  destruct err as [e|]; [ | reflexivity ]. cbn. unfold has_cause.
  destruct (VError.find_cause e "NoBackendsError"); cbn; [ reflexivity | ].
  destruct (VError.find_cause e "FastTransportError"); cbn; [ reflexivity | ].
  destruct (VError.find_cause e "FastProtocolError"); reflexivity.
Qed.

Lemma whitelisted_bool e :
  has_cause e "NoBackendsError" || has_cause e "FastTransportError"
    || has_cause e "FastProtocolError" = true <-> whitelisted e.
Proof.
  unfold whitelisted. rewrite !orb_true_iff, !has_cause_spec. tauto.
Qed.


(** ** Filters *)

Section Filters.
Context {A : Type} (P Q : A -> Prop).
Context `{!forall x, Decision (P x), !forall x, Decision (Q x)}.

Lemma filter_all (l : list A) : Forall P l -> filter P l = l.
Proof.
  induction 1 as [| a l Ha _ IH]; [ reflexivity | ].
  by rewrite filter_cons_True, IH.
Qed.

Lemma filter_swap (l : list A) : filter P (filter Q l) = filter Q (filter P l).
Proof.
  rewrite !list_filter_filter. apply list_filter_iff. tauto.
Qed.

Lemma filter_delete_out (l : list A) : forall n a,
  l !! n = Some a -> ~ P a -> filter P (delete n l) = filter P l.
Proof.
  induction l as [| b l IH]; intros [| n] a Hn Ha; try discriminate.
  - cbn in Hn. inversion Hn; subst b. cbn [delete list_delete].
    by rewrite filter_cons_False.
  - cbn in Hn. cbn [delete list_delete].
    rewrite !filter_cons.
    destruct (decide (P b)); [ f_equal | ]; by apply (IH n a).
Qed.

Lemma filter_delete_in (l : list A) : forall n a b,
  l !! n = Some a -> P a -> filter P l = [b] -> filter P (delete n l) = [].
Proof.
  induction l as [| d l IH]; intros [| n] a b Hn Ha Hf; try discriminate.
  - cbn in Hn. inversion Hn; subst d. cbn [delete list_delete].
    rewrite filter_cons_True in Hf by assumption. congruence.
  - cbn in Hn. cbn [delete list_delete].
    destruct (decide (P d)) as [Hd | Hd].
    + rewrite filter_cons_True in Hf by assumption.
      assert (a ∈ filter P l) as Hin.
      { apply list_elem_of_filter. split; [ exact Ha | ].
        by eapply list_elem_of_lookup_2. }
      inversion Hf as [[Hb Hnil]]. rewrite Hnil in Hin. inversion Hin.
    + rewrite filter_cons_False in Hf by assumption.
      rewrite filter_cons_False by assumption. by apply (IH n a b).
Qed.

Lemma filter_one_in a : P a -> filter P [a] = [a].
Proof. intros Ha. by rewrite filter_cons_True. Qed.

Lemma filter_one_out a : ~ P a -> filter P [a] = [].
Proof. intros Ha. by rewrite filter_cons_False. Qed.

End Filters.

(** ** The invariant looks at the registry, the timers, the immediate queue
    and the outstanding requests only *)

Lemma Globals_same w w' :
  scCommands w' = scCommands w -> timers w' = timers w ->
  nextHandle w' = nextHandle w -> pending w' = pending w ->
  Globals w -> Globals w'.
Proof.
  intros Hc Ht Hn Hp [F T D O]. constructor.
  - rewrite Hc, Hn. exact F.
  - rewrite Hc, Ht. exact T.
  - rewrite Hc. exact D.
  - rewrite Hc, Hp. exact O.
Qed.

Lemma cmd_state_same w w' i c :
  timers w' = timers w -> immediates w' = immediates w -> pending w' = pending w ->
  cmd_state w i c -> cmd_state w' i c.
Proof.
  unfold cmd_state, pending_of, timers_of, queued_of. by intros -> -> ->.
Qed.

Lemma Good_same w w' :
  scCommands w' = scCommands w -> timers w' = timers w ->
  nextHandle w' = nextHandle w -> immediates w' = immediates w ->
  pending w' = pending w ->
  Good w -> Good w'.
Proof.
  intros Hc Ht Hn Hi Hp [G S]. split.
  - by eapply Globals_same.
  - intros i c Hl. rewrite Hc in Hl. eapply cmd_state_same; eauto.
Qed.

Lemma Good_join i w :
  Globals w -> others_ok i w ->
  (forall c, scCommands w !! i = Some c -> cmd_state w i c) -> Good w.
Proof.
  intros G O S. split; [ exact G | ]. intros j c Hl.
  destruct (decide (j = i)) as [-> | Hj]; [ by apply S | by apply O ].
Qed.

(** ** Disarming the watchdog of command [i] *)

Lemma handle_owner w i c x h t :
  Globals w -> scCommands w !! i = Some c -> ctx c = Some x ->
  timer x = Some h -> t ∈ timers w -> handle t = h -> target t = i.
Proof.
  intros G Hc Hx Hh Hin Ht.
  destruct (good_timers w G t Hin) as (c' & x' & Hc' & Hx' & Hh').
  rewrite Ht in Hh'. exact (good_distinct w G _ _ _ _ _ _ _ Hc' Hc Hx' Hx Hh' Hh).
Qed.

Lemma timers_of_clear_self w i t h :
  timers_of w i = [t] -> handle t = h ->
  filter (fun t => target t = i) (filter (fun t => handle t <> h) (timers w)) = [].
Proof.
  intros Hi Ht. rewrite filter_swap. unfold timers_of in Hi. rewrite Hi.
  apply filter_one_out. intros H. by apply H.
Qed.

Lemma timers_of_clear_other w i c x h j :
  Globals w -> scCommands w !! i = Some c -> ctx c = Some x ->
  timer x = Some h -> j <> i ->
  filter (fun t => target t = j) (filter (fun t => handle t <> h) (timers w))
    = timers_of w j.
Proof.
  intros G Hc Hx Hh Hj. rewrite filter_swap. apply filter_all.
  apply Forall_forall. intros t Hin Ht.
  apply list_elem_of_filter in Hin as [Htj Hin].
  apply Hj. rewrite <- Htj. by eapply handle_owner.
Qed.

(** ** An exec routine running to its next stop *)

Lemma exec_settle i c x t s p : forall w,
  Globals w -> others_ok i w ->
  scCommands w !! i = Some c -> ctx c = Some x ->
  timer x = Some (handle t) -> lastStarted x = Some s ->
  expiry t = s + scWatchdogLimit -> (0 < nstarted x)%nat ->
  pending_of w i = [] -> timers_of w i = [t] -> queued_of w i = [] ->
  status (resume i InExec (execCallback i) p w) = Running ->
  Good (resume i InExec (execCallback i) p w) /\
  (queued_of (resume i InExec (execCallback i) p w) i = [i] \/
   exists q, pending_of (resume i InExec (execCallback i) p w) i = [q] /\
             phase q = InExec).
Proof.
  induction p as [err | e | q p IH | q k _];
    intros w G O Hc Hx Hh Hs He Hn Hp Ht Hq; cbn [resume].
  - unfold execCallback, with_cmd. rewrite Hc, Hx, Hh.
    destruct err as [e|]; [ discriminate | ]. intros _.
    assert (Hq' : filter (fun j => j = i) (immediates w ++ [i]) = [i]).
    { rewrite filter_app. unfold queued_of in Hq. rewrite Hq.
      by rewrite filter_one_in. }
    split; [ | left; exact Hq' ].
    apply (Good_join i).
    + destruct G as [F T D OW]. constructor; cbn; auto.
      intros t' Hin. apply list_elem_of_filter in Hin as [_ Hin]. by apply T.
    + intros j c' Hj Hl. cbn in Hl. specialize (O j c' Hj Hl).
      unfold cmd_state, pending_of, timers_of, queued_of in *. cbn.
      rewrite (timers_of_clear_other w i c x (handle t) j G Hc Hx Hh Hj).
      rewrite filter_app, filter_one_out, app_nil_r by congruence.
      exact O.
    + intros c' Hl. cbn in Hl. assert (c' = c) as -> by congruence.
      unfold cmd_state, pending_of, timers_of, queued_of. cbn.
      rewrite (timers_of_clear_self w i t (handle t) Ht eq_refl).
      unfold pending_of in Hp. rewrite Hp, Hq', Hx.
      by eapply ok_scheduled.
  - discriminate.
  - apply IH; try assumption.
    eapply Globals_same; [ .. | exact G ]; reflexivity.
  - intros _.
    assert (Hp' : filter (fun p => owner p = i)
                    (pending w ++ [ {| owner := i; phase := InExec;
                                       request := q; cont := k |} ])
                  = [ {| owner := i; phase := InExec; request := q; cont := k |} ]).
    { rewrite filter_app. unfold pending_of in Hp. rewrite Hp.
      by rewrite filter_one_in. }
    split; [ | right; eexists; split; [ exact Hp' | reflexivity ] ].
    apply (Good_join i).
    + destruct G as [F T D OW]. constructor; cbn; auto.
      intros p' Hin. apply elem_of_app in Hin as [Hin | Hin]; [ by apply OW | ].
      apply list_elem_of_singleton in Hin. subst p'. cbn. by rewrite Hc.
    + intros j c' Hj Hl. cbn in Hl. specialize (O j c' Hj Hl).
      unfold cmd_state, pending_of, timers_of, queued_of in *. cbn.
      rewrite filter_app, filter_one_out, app_nil_r by (cbn; congruence).
      exact O.
    + intros c' Hl. cbn in Hl. assert (c' = c) as -> by congruence.
      unfold cmd_state, pending_of, timers_of, queued_of. cbn.
      unfold timers_of in Ht. unfold queued_of in Hq. rewrite Hp', Ht, Hq, Hx.
      by eapply ok_running.
Qed.

(** ** Stores into the context of command [i] *)

Lemma lookup_store_eq i c x w :
  scCommands w !! i = Some c ->
  scCommands (store_ctx i c x w) !! i = Some (set_ctx x c).
Proof. intros Hc. cbn. apply list_lookup_insert_eq. by eapply lookup_lt_Some. Qed.

Lemma lookup_store_ne i j c x w :
  j <> i -> scCommands (store_ctx i c x w) !! j = scCommands w !! j.
Proof. intros Hj. cbn. by apply list_lookup_insert_ne. Qed.

Lemma lookup_store_is_Some i j c x w :
  is_Some (scCommands w !! j) -> is_Some (scCommands (store_ctx i c x w) !! j).
Proof.
  intros H. apply lookup_lt_is_Some. cbn. rewrite length_insert.
  by apply lookup_lt_is_Some.
Qed.

Lemma others_ok_store i c x w :
  others_ok i w -> others_ok i (store_ctx i c x w).
Proof.
  intros O j c' Hj Hl. rewrite lookup_store_ne in Hl by assumption.
  exact (O j c' Hj Hl).
Qed.

(** A store that keeps the [timer] field. *)
Lemma Globals_store i c x' w :
  scCommands w !! i = Some c ->
  timer x' = match ctx c with Some x => timer x | None => None end ->
  (ctx c = None -> timers_of w i = []) ->
  Globals w -> Globals (store_ctx i c x' w).
Proof.
  intros Hc Ht Hnone [F T D O].
  assert (Hold : forall h, timer x' = Some h ->
            exists x, ctx c = Some x /\ timer x = Some h).
  { intros h Hh. rewrite Ht in Hh. destruct (ctx c) as [x|]; [ | discriminate ].
    eauto. }
  constructor.
  - intros j cj xj h Hl Hx Hh. cbn [nextHandle store_ctx with_scCommands].
    destruct (decide (j = i)) as [-> | Hj].
    + rewrite lookup_store_eq in Hl by assumption. inversion Hl; subst cj.
      cbn in Hx. inversion Hx; subst xj.
      destruct (Hold h Hh) as (x & Hx0 & Hh0). by eapply F.
    + rewrite lookup_store_ne in Hl by assumption. by eapply F.
  - intros t Hin. cbn in Hin. destruct (T t Hin) as (c0 & x0 & Hl & Hx & Hh).
    destruct (decide (target t = i)) as [Hti | Hti].
    + rewrite Hti in *. assert (c0 = c) as -> by congruence.
      exists (set_ctx x' c), x'. split; [ by rewrite lookup_store_eq | ].
      split; [ reflexivity | ]. rewrite Ht, Hx. exact Hh.
    + exists c0, x0. by rewrite lookup_store_ne.
  - intros j k cj ck xj xk h Hj Hk Hxj Hxk Hhj Hhk.
    destruct (decide (j = i)) as [-> | Nj]; destruct (decide (k = i)) as [-> | Nk];
      try reflexivity.
    + rewrite lookup_store_eq in Hj by assumption. inversion Hj; subst cj.
      cbn in Hxj. inversion Hxj; subst xj.
      rewrite lookup_store_ne in Hk by assumption.
      destruct (Hold h Hhj) as (x & Hx0 & Hh0). symmetry. by eapply (D k i).
    + rewrite lookup_store_eq in Hk by assumption. inversion Hk; subst ck.
      cbn in Hxk. inversion Hxk; subst xk.
      rewrite lookup_store_ne in Hj by assumption.
      destruct (Hold h Hhk) as (x & Hx0 & Hh0). by eapply (D j i).
    + rewrite lookup_store_ne in Hj, Hk by assumption. by eapply (D j k).
  - intros p Hin. apply lookup_store_is_Some. by apply O.
Qed.

(** ** Starting an iteration *)

Lemma loop_settle i c x w :
  Globals w -> others_ok i w ->
  scCommands w !! i = Some c -> ctx c = Some x -> quiet w i ->
  status (scCommandLoop i w) = Running ->
  Good (scCommandLoop i w) /\
  (queued_of (scCommandLoop i w) i = [i] \/
   exists q, pending_of (scCommandLoop i w) i = [q] /\ phase q = InExec).
Proof.
  intros G O Hc Hx (Hp & Ht & Hq).
  unfold scCommandLoop, with_cmd. rewrite Hc, Hx. cbn zeta.
  set (t := {| handle := nextHandle w; expiry := clock w + scWatchdogLimit;
               target := i |}).
  set (x3 := set_timer _ _).
  cbn [nextHandle timers clock log].
  apply (exec_settle i (set_ctx x3 c) x3 t (clock w)); try reflexivity.
  - destruct G as [F T D OW]. constructor.
    + intros j cj xj h Hl Hxj Hh. cbn [nextHandle observe store_ctx with_scCommands with_timers].
      destruct (decide (j = i)) as [-> | Hj].
      * cbn in Hl. rewrite list_lookup_insert_eq in Hl by (by eapply lookup_lt_Some).
        inversion Hl; subst cj. cbn in Hxj. inversion Hxj; subst xj.
        cbn in Hh. inversion Hh. lia.
      * cbn in Hl. rewrite list_lookup_insert_ne in Hl by congruence.
        pose proof (F j cj xj h Hl Hxj Hh). lia.
    + intros t' Hin. cbn in Hin. apply elem_of_app in Hin as [Hin | Hin].
      * destruct (T t' Hin) as (c0 & x0 & Hl & Hx0 & Hh).
        assert (target t' <> i) as Hti.
        { intros Hti. eapply (filter_nil_not_elem_of _ _ _ Ht); eauto. }
        exists c0, x0. cbn. by rewrite list_lookup_insert_ne by congruence.
      * apply list_elem_of_singleton in Hin. subst t'.
        exists (set_ctx x3 c), x3. cbn.
        rewrite list_lookup_insert_eq by (by eapply lookup_lt_Some). auto.
    + intros j k cj ck xj xk h Hj Hk Hxj Hxk Hhj Hhk. cbn in Hj, Hk.
      destruct (decide (j = i)) as [-> | Nj]; destruct (decide (k = i)) as [-> | Nk];
        try reflexivity.
      * rewrite list_lookup_insert_eq in Hj by (by eapply lookup_lt_Some).
        inversion Hj; subst cj. cbn in Hxj. inversion Hxj; subst xj.
        cbn in Hhj. inversion Hhj; subst h.
        rewrite list_lookup_insert_ne in Hk by congruence.
        pose proof (F k ck xk _ Hk Hxk Hhk). lia.
      * rewrite list_lookup_insert_eq in Hk by (by eapply lookup_lt_Some).
        inversion Hk; subst ck. cbn in Hxk. inversion Hxk; subst xk.
        cbn in Hhk. inversion Hhk; subst h.
        rewrite list_lookup_insert_ne in Hj by congruence.
        pose proof (F j cj xj _ Hj Hxj Hhj). lia.
      * rewrite list_lookup_insert_ne in Hj, Hk by congruence. by eapply (D j k).
    + intros p Hin. cbn in Hin |- *. apply lookup_lt_is_Some.
      rewrite length_insert. apply lookup_lt_is_Some. by apply OW.
  - intros j c' Hj Hl. cbn in Hl. rewrite list_lookup_insert_ne in Hl by congruence.
    specialize (O j c' Hj Hl).
    unfold cmd_state, pending_of, timers_of, queued_of in *. cbn.
    rewrite filter_app, filter_one_out, app_nil_r by (cbn; congruence).
    exact O.
  - cbn. apply list_lookup_insert_eq. by eapply lookup_lt_Some.
  - cbn. lia.
  - exact Hp.
  - unfold timers_of in *. cbn. rewrite filter_app, Ht.
    by rewrite filter_one_in.
  - exact Hq.
Qed.

(** ** Setup *)

Lemma forEachDone_core err w :
  scCommands (forEachDone err w) = scCommands w /\
  timers (forEachDone err w) = timers w /\
  nextHandle (forEachDone err w) = nextHandle w /\
  immediates (forEachDone err w) = immediates w /\
  pending (forEachDone err w) = pending w.
Proof. unfold forEachDone. repeat case_match; repeat split. Qed.

Lemma Good_forEachDone err w : Good w -> Good (forEachDone err w).
Proof.
  intros G. destruct (forEachDone_core err w) as (H1 & H2 & H3 & H4 & H5).
  by eapply Good_same.
Qed.

Lemma setup_settle i c x p : forall w,
  Globals w -> others_ok i w ->
  scCommands w !! i = Some c -> ctx c = Some x ->
  timer x = None -> nstarted x = 0%nat -> quiet w i ->
  status (resume i InSetup (setupCallback i) p w) = Running ->
  Good (resume i InSetup (setupCallback i) p w).
Proof.
  induction p as [err | e | q p IH | q k _];
    intros w G O Hc Hx Hh Hn (Hp & Ht & Hq); cbn [resume].
  - unfold setupCallback, with_cmd. rewrite Hc, Hx.
    destruct err as [e|].
    + intros _. apply Good_forEachDone. apply (Good_join i); try assumption.
      intros c' Hl. assert (c' = c) as -> by congruence.
      unfold cmd_state. rewrite Hp, Ht, Hq, Hx. by apply ok_stopped.
    + cbn zeta.
      set (w1 := store_ctx i c (set_setupDone (clock w) x) w).
      destruct (alive (scCommandLoop i w1)) eqn:Ha.
      * intros _. apply Good_forEachDone.
        apply alive_status in Ha.
        refine (proj1 (loop_settle i (set_ctx (set_setupDone (clock w) x) c)
                         (set_setupDone (clock w) x) w1 _ _ _ _ _ Ha)).
        -- apply Globals_store; try assumption.
           ++ by rewrite Hx.
           ++ by rewrite Hx.
        -- by apply others_ok_store.
        -- by apply lookup_store_eq.
        -- reflexivity.
        -- by repeat split.
      * intros Hr. apply alive_status in Hr. congruence.
  - discriminate.
  - apply IH; try assumption; [ | by repeat split ].
    eapply Globals_same; [ .. | exact G ]; reflexivity.
  - intros _.
    assert (Hp' : filter (fun p => owner p = i)
                    (pending w ++ [ {| owner := i; phase := InSetup;
                                       request := q; cont := k |} ])
                  = [ {| owner := i; phase := InSetup; request := q; cont := k |} ]).
    { rewrite filter_app. unfold pending_of in Hp. rewrite Hp.
      by rewrite filter_one_in. }
    apply (Good_join i).
    + destruct G as [F T D OW]. constructor; cbn; auto.
      intros p' Hin. apply elem_of_app in Hin as [Hin | Hin]; [ by apply OW | ].
      apply list_elem_of_singleton in Hin. subst p'. cbn. by rewrite Hc.
    + intros j c' Hj Hl. cbn in Hl. specialize (O j c' Hj Hl).
      unfold cmd_state, pending_of, timers_of, queued_of in *. cbn.
      rewrite filter_app, filter_one_out, app_nil_r by (cbn; congruence).
      exact O.
    + intros c' Hl. cbn in Hl. assert (c' = c) as -> by congruence.
      unfold cmd_state, pending_of, timers_of, queued_of. cbn.
      unfold timers_of in Ht. unfold queued_of in Hq. rewrite Hp', Ht, Hq, Hx.
      by apply ok_setup.
Qed.

Lemma idle_quiet w i c : cmd_state w i c -> ctx c = None -> quiet w i.
Proof.
  unfold cmd_state, quiet. intros H Hx. rewrite Hx in H.
  by inversion H.
Qed.

Lemma start_settle i c w :
  Good w -> scCommands w !! i = Some c -> ctx c = None ->
  status (scCommandStart i w) = Running ->
  Good (scCommandStart i w).
Proof.
  intros [G S] Hc Hx. unfold scCommandStart. rewrite Hc. cbn zeta.
  pose proof (idle_quiet w i c (S i c Hc) Hx) as Hquiet.
  apply (setup_settle i (set_ctx (fresh_ctx (clock w)) c) (fresh_ctx (clock w)));
    try reflexivity.
  - apply Globals_store; try assumption.
    + by rewrite Hx.
    + intros _. apply Hquiet.
  - apply others_ok_store. intros j c' _. apply S.
  - by apply lookup_store_eq.
  - exact Hquiet.
Qed.

Lemma forEachParallel_good inputs : forall w,
  NoDup inputs ->
  (forall j c, j ∈ inputs -> scCommands w !! j = Some c -> ctx c = None) ->
  Good w ->
  status (forEachParallel inputs w) = Running ->
  Good (forEachParallel inputs w).
Proof.
  induction inputs as [| i rest IH]; intros w Hnd Hnone G; cbn [forEachParallel].
  - auto.
  - apply NoDup_cons in Hnd as [Hi Hnd].
    assert (Hadv : advances i w (scCommandStart i w)).
    { apply scCommandStart_advances. intros c Hc.
      apply (Hnone i c); [ left | exact Hc ]. }
    destruct (alive (scCommandStart i w)) eqn:Ha.
    + apply alive_status in Ha. apply IH; [ exact Hnd | | ].
      * intros j c Hj Hc. rewrite (adv_frame _ _ _ Hadv) in Hc.
        -- apply (Hnone j c); [ by right | exact Hc ].
        -- intros ->. contradiction.
      * destruct (scCommands w !! i) as [c|] eqn:Hc.
        -- apply (start_settle i c); try assumption.
           apply (Hnone i c); [ left | exact Hc ].
        -- unfold scCommandStart. by rewrite Hc.
    + intros Hr. apply alive_status in Hr. congruence.
Qed.

(** ** One turn of the event loop preserves the invariant *)

Lemma deliver_advances p err args w :
  advances (owner p) w (deliver p err args w).
Proof.
  unfold deliver. destruct (phase p); apply resume_advances; intros.
  - apply setupCallback_advances.
  - apply execCallback_advances.
Qed.

Lemma scWatchdogFire_dead i w : status (scWatchdogFire i w) <> Running.
Proof. unfold scWatchdogFire. by destruct (scCommands w !! i). Qed.

Lemma scWatchdogFire_core i w :
  scCommands (scWatchdogFire i w) = scCommands w /\
  trace (scWatchdogFire i w) = trace w /\
  started (scWatchdogFire i w) = started w.
Proof. unfold scWatchdogFire. by destruct (scCommands w !! i). Qed.

Lemma counted_same w w' :
  scCommands w' = scCommands w -> trace w' = trace w -> counted w -> counted w'.
Proof. unfold counted. by intros -> ->. Qed.

Lemma Good_unpend w n p :
  Good w -> pending w !! n = Some p ->
  Globals (with_pending (delete n (pending w)) w) /\
  others_ok (owner p) (with_pending (delete n (pending w)) w) /\
  exists c, scCommands w !! owner p = Some c /\
    ((exists x, ctx c = Some x /\ timer x = None /\ nstarted x = 0%nat /\
                phase p = InSetup /\
                quiet (with_pending (delete n (pending w)) w) (owner p)) \/
     (exists x t s, ctx c = Some x /\ timer x = Some (handle t) /\
                lastStarted x = Some s /\ expiry t = s + scWatchdogLimit /\
                (0 < nstarted x)%nat /\ phase p = InExec /\
                pending_of (with_pending (delete n (pending w)) w) (owner p) = [] /\
                timers_of w (owner p) = [t] /\ queued_of w (owner p) = [])).
Proof.
  intros [G S] Hn.
  assert (Hin : p ∈ pending w) by (by eapply list_elem_of_lookup_2).
  split; [ | split ].
  - destruct G as [F T D O]. constructor; cbn; auto.
    intros p' Hp'. apply O. by eapply list_elem_of_delete_inv.
  - intros j c Hj Hl. cbn in Hl. specialize (S j c Hl).
    unfold cmd_state, pending_of, timers_of, queued_of in *. cbn.
    rewrite (filter_delete_out _ _ n p Hn) by congruence. exact S.
  - destruct (good_owners w G p Hin) as [c Hc]. exists c. split; [ exact Hc | ].
    specialize (S _ c Hc). unfold cmd_state in S.
    assert (Hmem : p ∈ pending_of w (owner p)).
    { apply list_elem_of_filter. auto. }
    inversion S as [ Hx Hp Ht Hq | x p0 Hh Hz Hph Hx Hp Ht Hq
                   | x p0 t s Hh Hs He Hz Hph Hx Hp Ht Hq
                   | x h Hh Hz Hx Hp Ht Hq | x Hh Hz Hx Hp Ht Hq ];
      try (rewrite <- Hp in Hmem; inversion Hmem; fail).
    + rewrite <- Hp in Hmem. apply list_elem_of_singleton in Hmem. subst p0.
      left. exists x. repeat split; auto.
      unfold pending_of. cbn.
      symmetry in Hp. by apply (filter_delete_in _ _ n p p Hn).
    + rewrite <- Hp in Hmem. apply list_elem_of_singleton in Hmem. subst p0.
      right. exists x, t, s. repeat split; auto.
      unfold pending_of. cbn.
      symmetry in Hp. by apply (filter_delete_in _ _ n p p Hn).
Qed.

Lemma Inv_fire ev w w' : fire ev w = Some w' -> Inv w -> Inv w'.
Proof.
  unfold fire. destruct (alive w) eqn:Ha; [ | discriminate ].
  apply alive_status in Ha. intros Hf [P K G]. specialize (G Ha).
  destruct ev as [| n err args | | n | d].
  - (* EvServerUp *)
    destruct (started w) eqn:Hs; [ discriminate | ]. inversion Hf; subst w'; clear Hf.
    destruct (P eq_refl) as (Hp & Hi & Ht & Htr & Hnone).
    set (w0 := with_started true w).
    assert (Hidle : forall j c, j ∈ seq 0 (length (scCommands w)) ->
                      scCommands w0 !! j = Some c -> ctx c = None).
    { intros j c _ Hl. rewrite Forall_forall in Hnone. apply Hnone.
      by eapply list_elem_of_lookup_2. }
    destruct (forEachParallel_counted (seq 0 (length (scCommands w))) w0)
      as (K' & S' & _); [ apply NoDup_seq | exact Hidle | exact K | ].
    constructor.
    + rewrite S'. discriminate.
    + exact K'.
    + apply forEachParallel_good; [ apply NoDup_seq | exact Hidle | ].
      eapply Good_same; [ .. | exact G ]; reflexivity.
  - (* EvReply *)
    destruct (pending w !! n) as [p|] eqn:Hn; [ | discriminate ].
    inversion Hf; subst w'; clear Hf.
    set (w1 := with_pending (delete n (pending w)) w).
    pose proof (deliver_advances p err args w1) as Hadv.
    constructor.
    + rewrite (adv_started _ _ _ Hadv). cbn. intros Hs.
      destruct (P Hs) as (Hp & _). rewrite Hp in Hn. discriminate.
    + eapply counted_advances; [ | exact Hadv ].
      eapply counted_same; [ .. | exact K ]; reflexivity.
    + destruct (Good_unpend w n p G Hn) as (G1 & O1 & c & Hc & Hcase).
      unfold deliver.
      destruct Hcase as [(x & Hx & Hh & Hz & Hph & Hq)
                        | (x & t & s & Hx & Hh & Hs & He & Hz & Hph & Hp & Ht & Hq)];
        rewrite Hph.
      * by apply (setup_settle (owner p) c x).
      * intros Hr. by apply (exec_settle (owner p) c x t s).
  - (* EvImmediate *)
    destruct (immediates w) as [| i rest] eqn:Hi; [ discriminate | ].
    inversion Hf; subst w'; clear Hf.
    set (w1 := with_immediates rest w).
    pose proof (scCommandLoop_advances i w1) as Hadv.
    constructor.
    + rewrite (adv_started _ _ _ Hadv). cbn. intros Hs.
      destruct (P Hs) as (_ & Him & _). congruence.
    + eapply counted_advances; [ | exact Hadv ].
      eapply counted_same; [ .. | exact K ]; reflexivity.
    + intros Hr. destruct G as [G S].
      destruct (scCommands w !! i) as [c|] eqn:Hc.
      2:{ unfold scCommandLoop, with_cmd in Hr. cbn in Hr. rewrite Hc in Hr.
          discriminate. }
      pose proof (S i c Hc) as Si. unfold cmd_state in Si.
      assert (Hq : queued_of w i = i :: filter (fun j => j = i) rest).
      { unfold queued_of. rewrite Hi. by rewrite filter_cons_True. }
      rewrite Hq in Si.
      inversion Si as [ | | | x h Hh Hz Hx Hp Ht Hq' | ].
      refine (proj1 (loop_settle i c x w1 _ _ Hc (eq_sym Hx) _ Hr)).
      * eapply Globals_same; [ .. | exact G ]; reflexivity.
      * intros j c' Hj Hl. cbn in Hl. specialize (S j c' Hl).
        unfold cmd_state, pending_of, timers_of, queued_of in *. cbn.
        rewrite Hi in S. by rewrite filter_cons_False in S by congruence.
      * repeat split; auto.
  - (* EvTimeout *)
    destruct (timers w !! n) as [t|] eqn:Hn; [ | discriminate ].
    destruct (expiry t <=? clock w); [ | discriminate ].
    inversion Hf; subst w'; clear Hf.
    destruct (scWatchdogFire_core (target t)
                (with_timers (delete n (timers w)) (nextHandle w) w))
      as (Hc & Htr & Hs).
    constructor.
    + rewrite Hs. cbn. intros Hst. destruct (P Hst) as (_ & _ & Ht & _).
      rewrite Ht in Hn. discriminate.
    + eapply counted_same; [ exact Hc | exact Htr | ].
      eapply counted_same; [ .. | exact K ]; reflexivity.
    + intros Hr. by apply scWatchdogFire_dead in Hr.
  - (* EvTick *)
    destruct (0 <=? d); [ | discriminate ]. inversion Hf; subst w'; clear Hf.
    constructor.
    + exact P.
    + exact K.
    + intros _. eapply Good_same; [ .. | exact G ]; reflexivity.
Qed.

Lemma Inv_boot specs now :
  Forall (fun c => ctx c = None) specs -> Inv (boot specs now).
Proof.
  intros Hnone.
  assert (Hl : forall i c, specs !! i = Some c -> ctx c = None).
  { intros i c Hc. rewrite Forall_forall in Hnone. apply Hnone.
    by eapply list_elem_of_lookup_2. }
  constructor.
  - intros _. by repeat split.
  - intros i c Hc. cbn in Hc. unfold nstarted_of. by rewrite (Hl i c Hc).
  - intros _. split.
    + constructor; cbn.
      * intros i c x h Hc Hx. rewrite (Hl i c Hc) in Hx. discriminate.
      * intros t Hin. inversion Hin.
      * intros i j ci cj xi xj h Hc _ Hx. rewrite (Hl i ci Hc) in Hx. discriminate.
      * intros p Hin. inversion Hin.
    + intros i c Hc. cbn in Hc. unfold cmd_state. rewrite (Hl i c Hc).
      apply ok_idle.
Qed.

Lemma reachable_Inv specs w :
  Forall (fun c => ctx c = None) specs -> reachable specs w -> Inv w.
Proof.
  intros Hnone. induction 1 as [now | w ev w' _ IH Hf].
  - by apply Inv_boot.
  - by eapply Inv_fire.
Qed.

(** ** The failure sweep *)

Lemma run_await q k err args rest :
  run (Await q k) ((err, args) :: rest)
    = (q :: (run (answer (Await q k) err args) rest).1,
       (run (answer (Await q k) err args) rest).2).
Proof. cbn. by destruct (run (k err args) rest). Qed.

Lemma sweep_verdict k q kind :
  fail_sweep !! k = Some (q, kind) ->
  exists cont,
    pipeline (drop k Scenario.cmdRpcFail_funcs) Return = Await q cont /\
    (exists q' cont', fail_requests !! S k = Some q' /\
       pipeline (drop (S k) Scenario.cmdRpcFail_funcs) Return = Await q' cont') /\
    forall err args,
      cont err args =
        match err with
        | Some e => if has_cause e kind
                    then pipeline (drop (S k) Scenario.cmdRpcFail_funcs) Return
                    else Return (Some e)
        | None => if streaming q then Raise unexpected_end
                  else pipeline (drop (S k) Scenario.cmdRpcFail_funcs) Return
        end.
Proof.
  intros Hk.
  do 12 (destruct k as [| k];
         [ inversion Hk; subst q kind; eexists; split; [ reflexivity | ];
           split; [ eexists; eexists; split; reflexivity | ];
           intros [e|] args; [ | reflexivity ];
           unfold cbIgnoreErrorTypes; cbn;
           unfold has_cause; destruct (VError.find_cause e _); reflexivity | ]).
  discriminate.
Qed.

Lemma fail_requests_lookup k q kind :
  fail_sweep !! k = Some (q, kind) -> fail_requests !! k = Some q.
Proof.
  intros Hk. unfold fail_requests.
  rewrite lookup_app_l.
  - by rewrite list_lookup_fmap, Hk.
  - rewrite length_fmap. by eapply lookup_lt_Some.
Qed.

Lemma sweep_prefix rs pre : forall k0,
  (k0 + length pre <= length fail_sweep)%nat ->
  (forall j r q kind, pre !! j = Some r ->
     fail_sweep !! (k0 + j)%nat = Some (q, kind) -> swallowed kind r) ->
  run (pipeline (drop k0 Scenario.cmdRpcFail_funcs) Return) (pre ++ rs) =
    (take (length pre) (drop k0 fail_requests)
       ++ (run (pipeline (drop (k0 + length pre) Scenario.cmdRpcFail_funcs) Return) rs).1,
     (run (pipeline (drop (k0 + length pre) Scenario.cmdRpcFail_funcs) Return) rs).2).
Proof.
  induction pre as [| [err args] pre IH]; intros k0 Hlen Hpre.
  - cbn [length app take]. rewrite Nat.add_0_r. by destruct (run _ rs).
  - cbn [length] in *.
    assert (is_Some (fail_sweep !! k0)) as [[q kind] Hk]
      by (apply lookup_lt_is_Some; lia).
    destruct (sweep_verdict k0 q kind Hk) as (cont & Hp & _ & Hcont).
    destruct (Hpre 0%nat (err, args) q kind eq_refl) as (e & He & Hc).
    { by rewrite Nat.add_0_r. }
    cbn in He. subst err.
    rewrite Hp, <- app_comm_cons.
    rewrite run_await. cbn [answer]. rewrite Hcont.
    apply has_cause_spec in Hc. rewrite Hc.
    rewrite (IH (S k0)).
    + rewrite (drop_S _ q k0) by (by eapply fail_requests_lookup).
      cbn [take app fst snd]. by rewrite Nat.add_succ_r.
    + lia.
    + intros j r q' kind' Hj Hk'. apply (Hpre (S j) r q' kind'); [ exact Hj | ].
      by rewrite Nat.add_succ_r.
Qed.

(** ** Reachable states *)

Lemma reachable_play specs evs : forall w w',
  reachable specs w -> play evs w = Some w' -> reachable specs w'.
Proof.
  induction evs as [| ev evs IH]; intros w w' Hr Hp; cbn [play] in Hp.
  - by inversion Hp; subst.
  - destruct (fire ev w) as [w1|] eqn:Hf; [ | discriminate ].
    apply (IH w1 w'); [ | exact Hp ]. by eapply reach_fire.
Qed.

Lemma registry_fresh : Forall (fun c => ctx c = None) registry.
Proof. repeat constructor. Qed.

Lemma reachable_after evs :
  enabled evs = true -> reachable registry (after evs).
Proof.
  unfold enabled, after. destruct (play evs (boot registry 0)) as [w|] eqn:H;
    [ intros _ | discriminate ].
  eapply reachable_play; [ apply reach_boot | exact H ].
Qed.

Ltac by_running := vm_compute; reflexivity.

Lemma fire_dead ev w : status w <> Running -> fire ev w = None.
Proof.
  intros H. unfold fire. destruct (alive w) eqn:Ha; [ | reflexivity ].
  apply alive_status in Ha. contradiction.
Qed.

Lemma reachable_Good specs w :
  Forall (fun c => ctx c = None) specs -> reachable specs w ->
  status w = Running -> Good w.
Proof. intros Hs Hr. apply inv_good. by eapply reachable_Inv. Qed.

(** ** A routine that ends without waiting *)

Lemma observe_all_core i qs : forall w,
  scCommands (observe_all i qs w) = scCommands w /\
  timers (observe_all i qs w) = timers w /\
  immediates (observe_all i qs w) = immediates w /\
  pending (observe_all i qs w) = pending w /\
  scLog (observe_all i qs w) = scLog w /\
  status (observe_all i qs w) = status w /\
  trace (observe_all i qs w) = trace w ++ (Issued i <$> qs).
Proof.
  induction qs as [| q qs IH]; intros w; cbn.
  - rewrite app_nil_r. repeat split.
  - destruct (IH (observe (Issued i q) w)) as (H1 & H2 & H3 & H4 & H5 & H6 & H7).
    unfold observe_all in *. rewrite H1, H2, H3, H4, H5, H6, H7. cbn.
    rewrite <- app_assoc. repeat split.
Qed.

Lemma resume_done i ph done p : forall w qs err,
  run p [] = (qs, Done err) ->
  resume i ph done p w = done err (observe_all i qs w).
Proof.
  induction p as [err0 | e | q p IH | q k _]; intros w qs err Hr; cbn in Hr.
  - by inversion Hr; subst.
  - discriminate.
  - destruct (run p []) as [qs' o] eqn:E. inversion Hr; subst. cbn [resume].
    by rewrite (IH (observe (Issued i q) w) qs' err).
  - discriminate.
Qed.

Lemma exec_count_issued i j qs : exec_count j (Issued i <$> qs) = 0%nat.
Proof. induction qs as [| q qs IH]; [ reflexivity | exact IH ]. Qed.

(** No exec routine is invoked while an exec routine or its callback runs. *)
Lemma resume_exec_trace i p : forall w,
  exists obs, trace (resume i InExec (execCallback i) p w) = trace w ++ obs /\
              forall j, exec_count j obs = 0%nat.
Proof.
  induction p as [err | e | q p IH | q k _]; intros w; cbn [resume].
  - exists []. rewrite app_nil_r. split; [ | reflexivity ].
    unfold execCallback, with_cmd, clearTimeout. repeat case_match; reflexivity.
  - exists []. by rewrite app_nil_r.
  - destruct (IH (observe (Issued i q) w)) as (obs & Ht & Hz).
    exists (Issued i q :: obs). split; [ | exact Hz ].
    rewrite Ht. cbn. by rewrite <- app_assoc.
  - exists [Issued i q]. split; reflexivity.
Qed.

(** An iteration that starts invokes exec once. *)
Lemma scCommandLoop_trace i w :
  status (scCommandLoop i w) = Running ->
  exists obs, trace (scCommandLoop i w) = trace w ++ ExecInvoked i :: obs /\
              forall j, exec_count j obs = 0%nat.
Proof.
  unfold scCommandLoop, with_cmd.
  destruct (scCommands w !! i) as [c|]; [ | discriminate ].
  destruct (ctx c) as [x|]; [ | discriminate ]. cbn zeta. intros _.
  match goal with
  | |- context [resume i InExec (execCallback i) ?p ?w0] =>
      destruct (resume_exec_trace i p w0) as (obs & Ht & Hz)
  end.
  exists obs. split; [ | exact Hz ]. rewrite Ht. cbn. by rewrite <- app_assoc.
Qed.

Lemma fire_nstarted_mono ev w w' i c :
  Inv w -> fire ev w = Some w' -> scCommands w !! i = Some c ->
  exists c', scCommands w' !! i = Some c' /\ (nstarted_of c <= nstarted_of c')%nat.
Proof.
  intros [P K G] Hf Hc.
  assert (Hadv : forall i0 w1, scCommands w1 = scCommands w ->
            advances i0 w1 w' ->
            exists c', scCommands w' !! i = Some c' /\
                       (nstarted_of c <= nstarted_of c')%nat).
  { intros i0 w1 H1 [F L S (obs & T & Z & N)].
    destruct (decide (i = i0)) as [-> | Hi].
    - destruct (N c) as (c' & Hc' & E); [ by rewrite H1 | ].
      exists c'. split; [ exact Hc' | lia ].
    - exists c. rewrite (F i Hi), H1. split; [ exact Hc | lia ]. }
  unfold fire in Hf. destruct (alive w); [ | discriminate ].
  destruct ev as [| n err args | | n | d].
  - destruct (started w) eqn:Hs; [ discriminate | ]. inversion Hf; subst w'.
    destruct (P eq_refl) as (_ & _ & _ & _ & Hnone).
    destruct (forEachParallel_counted (seq 0 (length (scCommands w)))
                (with_started true w)) as (_ & _ & L); [ apply NoDup_seq | | exact K | ].
    { intros j c0 _ Hl. rewrite Forall_forall in Hnone. apply Hnone.
      by eapply list_elem_of_lookup_2. }
    assert (is_Some (scCommands (forEachParallel (seq 0 (length (scCommands w)))
                                   (with_started true w)) !! i)) as [c' Hc'].
    { apply lookup_lt_is_Some. rewrite L. by eapply lookup_lt_Some. }
    exists c'. split; [ exact Hc' | ].
    assert (ctx c = None) as Hx.
    { rewrite Forall_forall in Hnone. apply Hnone. by eapply list_elem_of_lookup_2. }
    unfold nstarted_of at 1. rewrite Hx. lia.
  - destruct (pending w !! n) as [p|]; [ | discriminate ]. inversion Hf; subst w'.
    eapply (Hadv (owner p)); [ | apply deliver_advances ]. reflexivity.
  - destruct (immediates w) as [| i0 rest]; [ discriminate | ]. inversion Hf; subst w'.
    eapply (Hadv i0); [ | apply scCommandLoop_advances ]. reflexivity.
  - destruct (timers w !! n) as [t|]; [ | discriminate ].
    destruct (expiry t <=? clock w); [ | discriminate ]. inversion Hf; subst w'.
    exists c. split; [ | lia ].
    destruct (scWatchdogFire_core (target t)
                (with_timers (delete n (timers w)) (nextHandle w) w)) as (H1 & _).
    by rewrite H1.
  - destruct (0 <=? d); [ | discriminate ]. inversion Hf; subst w'.
    exists c. split; [ exact Hc | lia ].
Qed.

Lemma outstanding_pending_of w i :
  outstanding w i <-> exists p, p ∈ pending_of w i /\ phase p = InExec.
Proof.
  unfold outstanding, pending_of. split.
  - intros (p & Hin & Ho & Hp). exists p. split; [ | exact Hp ].
    by apply list_elem_of_filter.
  - intros (p & Hin & Hp). apply list_elem_of_filter in Hin as [Ho Hin]. eauto.
Qed.

(** ** The claims about the runner *)

(** C1 (as amended).  In every state the running process can reach, and for
    every command that has a context: an iteration of the command is
    outstanding exactly when the handle stored in [timer] is that of a live
    watchdog; [timer] is null only as long as no iteration has been started.
    ([clearTimeout] disarms the watchdog on completion, before the next one
    is armed, and leaves the handle in the field.) *)
Theorem watchdog_armed_iff_outstanding (specs : list cmdspec) (w : World)
    (i : nat) (c : cmdspec) (x : Ctx) :
  Forall (fun c => ctx c = None) specs -> reachable specs w ->
  status w = Running ->
  scCommands w !! i = Some c -> ctx c = Some x ->
  (outstanding w i <-> exists h, timer x = Some h /\ armed w h) /\
  (timer x = None -> nstarted x = 0%nat).
Proof.
  intros Hs Hr Hrun Hc Hx.
  destruct (reachable_Good specs w Hs Hr Hrun) as [G S].
  specialize (S i c Hc). unfold cmd_state in S. rewrite Hx in S.
  rewrite outstanding_pending_of.
  inversion S as [ | x0 p Hh Hz Hph Hx0 Hp Ht Hq
                 | x0 p t s Hh Hl He Hz Hph Hx0 Hp Ht Hq
                 | x0 h Hh Hz Hx0 Hp Ht Hq | x0 Hh Hz Hx0 Hp Ht Hq ]; subst x0.
  - split; [ | auto ]. split.
    + intros (p' & Hin & Hph'). apply list_elem_of_singleton in Hin. congruence.
    + intros (h & Hh' & _). congruence.
  - split; [ | congruence ]. split.
    + intros _. exists (handle t). split; [ exact Hh | ]. exists t.
      split; [ | reflexivity ].
      assert (t ∈ timers_of w i) as Hin by (rewrite <- Ht; left).
      by apply list_elem_of_filter in Hin as [_ Hin].
    + intros _. exists p. split; [ left | exact Hph ].
  - split; [ | congruence ]. split.
    + intros (p' & Hin & _). inversion Hin.
    + intros (h' & Hh' & t & Hin & Hht).
      assert (target t = i) as Hti by (by eapply (handle_owner w i c x h')).
      assert (t ∈ timers_of w i) as Hin' by (by apply list_elem_of_filter).
      rewrite <- Ht in Hin'. inversion Hin'.
  - split; [ | auto ]. split.
    + intros (p' & Hin & _). inversion Hin.
    + intros (h & Hh' & _). congruence.
Qed.

Lemma watchdog_armed_iff_outstanding_witness :
  let w := after [EvServerUp] in
  exists c x,
    scCommands w !! 0%nat = Some c /\ ctx c = Some x /\
    ((outstanding w 0 <-> exists h, timer x = Some h /\ armed w h) /\
     (timer x = None -> nstarted x = 0%nat)).
Proof.
  cbn zeta. eexists _, _.
  split; [ by_running | ]. split; [ by_running | ].
  eapply (watchdog_armed_iff_outstanding registry (after [EvServerUp]) 0).
  - exact registry_fresh.
  - apply (reachable_after [EvServerUp]). by_running.
  - by_running.
  - by_running.
  - by_running.
Defined.

(** C1 (as stated) fails: once the first iteration of the never-connected
    command has completed, and before the next one starts, no iteration is
    outstanding and [timer] still holds the handle of the disarmed
    watchdog. *)
Lemma timer_stays_set_after_iteration :
  let w := after [EvServerUp; EvReply 0 (Some NoBackendsError) []] in
  reachable registry w /\ status w = Running /\
  (exists c x h, scCommands w !! 0%nat = Some c /\ ctx c = Some x /\
                 timer x = Some h) /\
  ~ outstanding w 0.
Proof.
  cbn zeta. split; [ | split; [ | split ] ].
  - apply (reachable_after [EvServerUp; EvReply 0 (Some NoBackendsError) []]).
    by_running.
  - by_running.
  - eexists _, _, _. split; [ by_running | split; by_running ].
  - rewrite outstanding_pending_of. intros (p & Hin & _).
    assert (pending_of (after [EvServerUp; EvReply 0 (Some NoBackendsError) []]) 0
            = []) as E by by_running.
    rewrite E in Hin. inversion Hin.
Qed.

(** C2.  In every state the process can reach, [nstarted] of every command
    is the number of times its exec routine has been invoked so far: 0 until
    the first iteration (and when the context is created), one more with
    every iteration start, the invocation in flight included.  No turn of the
    event loop decreases it, and what a turn adds to it is exactly the number
    of invocations of exec the turn makes. *)
Theorem nstarted_counts_iterations (specs : list cmdspec) (w : World)
    (i : nat) (c : cmdspec) :
  Forall (fun c => ctx c = None) specs -> reachable specs w ->
  scCommands w !! i = Some c ->
  nstarted_of c = exec_count i (trace w) /\
  (forall x, ctx c = Some x -> exec_count i (trace w) = 0%nat ->
     nstarted x = 0%nat) /\
  (forall ev w', fire ev w = Some w' ->
     exists c', scCommands w' !! i = Some c' /\
       (nstarted_of c <= nstarted_of c')%nat /\
       (nstarted_of c' - nstarted_of c
        = exec_count i (trace w') - exec_count i (trace w))%nat).
Proof.
  intros Hs Hr Hc.
  pose proof (reachable_Inv specs w Hs Hr) as I.
  pose proof (inv_counted w I i c Hc) as K.
  split; [ by symmetry | ]. split.
  - intros x Hx Hz. unfold nstarted_of in K. rewrite Hx in K. congruence.
  - intros ev w' Hf.
    destruct (fire_nstarted_mono ev w w' i c I Hf Hc) as (c' & Hc' & Hle).
    exists c'. split; [ exact Hc' | ]. split; [ exact Hle | ].
    pose proof (Inv_fire ev w w' Hf I) as I'.
    rewrite (inv_counted w' I' i c' Hc'), K. reflexivity.
Qed.

Lemma nstarted_counts_iterations_witness :
  let w := after [EvServerUp] in
  exists c,
    scCommands w !! 0%nat = Some c /\
    (nstarted_of c = exec_count 0 (trace w) /\
     (forall x, ctx c = Some x -> exec_count 0 (trace w) = 0%nat ->
        nstarted x = 0%nat) /\
     (forall ev w', fire ev w = Some w' ->
        exists c', scCommands w' !! 0%nat = Some c' /\
          (nstarted_of c <= nstarted_of c')%nat /\
          (nstarted_of c' - nstarted_of c
           = exec_count 0 (trace w') - exec_count 0 (trace w))%nat)).
Proof.
  cbn zeta. eexists. split; [ by_running | ].
  eapply (nstarted_counts_iterations registry (after [EvServerUp]) 0).
  - exact registry_fresh.
  - apply (reachable_after [EvServerUp]). by_running.
  - by_running.
Defined.

(** C3.  The watchdog limit is 30000 milliseconds.  In every state the
    running process can reach, every iteration in flight has a live watchdog,
    and every live watchdog is the one armed at the latest iteration start of
    its command, due 30000 milliseconds after that start.  Once its time has
    come the event loop can fire it; the fire handler then writes the name of
    the command to stderr and aborts the process, after which nothing runs. *)
Theorem watchdog_deadline_and_abort (specs : list cmdspec) (w : World) :
  Forall (fun c => ctx c = None) specs -> reachable specs w ->
  status w = Running ->
  scWatchdogLimit = 30000 /\
  (forall i, outstanding w i -> exists t, t ∈ timers w /\ target t = i) /\
  (forall t, t ∈ timers w ->
     exists c x s,
       scCommands w !! target t = Some c /\ ctx c = Some x /\
       timer x = Some (handle t) /\ lastStarted x = Some s /\
       expiry t = s + 30000) /\
  (forall n t, timers w !! n = Some t -> expiry t <= clock w ->
     exists c w',
       scCommands w !! target t = Some c /\
       fire (EvTimeout n) w = Some w' /\
       stderr w' = stderr w ++
         [ "watchdog timer expired for command: " +:+ quoted (name c);
           "aborting (to dump core)" ] /\
       status w' = Aborted /\
       forall ev, fire ev w' = None).
Proof.
  intros Hs Hr Hrun.
  destruct (reachable_Good specs w Hs Hr Hrun) as [G S].
  assert (Hlive : forall t, t ∈ timers w ->
            exists c x s,
              scCommands w !! target t = Some c /\ ctx c = Some x /\
              timer x = Some (handle t) /\ lastStarted x = Some s /\
              expiry t = s + 30000).
  { intros t Hin. destruct (good_timers w G t Hin) as (c & x & Hc & Hx & Hh).
    pose proof (S _ c Hc) as St. unfold cmd_state in St. rewrite Hx in St.
    assert (t ∈ timers_of w (target t)) as Hin'
      by (by apply list_elem_of_filter).
    inversion St as [ | x0 p Hh0 Hz Hph Hx0 Hp Ht Hq
                    | x0 p t0 s Hh0 Hl He Hz Hph Hx0 Hp Ht Hq
                    | x0 h Hh0 Hz Hx0 Hp Ht Hq | x0 Hh0 Hz Hx0 Hp Ht Hq ];
      subst x0; rewrite <- Ht in Hin'; try (inversion Hin'; fail).
    apply list_elem_of_singleton in Hin'. subst t0.
    exists c, x, s. auto. }
  split; [ reflexivity | ]. split; [ | split; [ exact Hlive | ] ].
  - intros i Hout. apply outstanding_pending_of in Hout as (p & Hin & Hph).
    assert (is_Some (scCommands w !! i)) as [c Hc].
    { apply list_elem_of_filter in Hin as [Ho Hin]. rewrite <- Ho.
      by apply (good_owners w G). }
    pose proof (S i c Hc) as Si. unfold cmd_state in Si.
    inversion Si as [ Hx0 Hp Ht Hq | x0 p0 Hh0 Hz Hph0 Hx0 Hp Ht Hq
                    | x0 p0 t0 s Hh0 Hl He Hz Hph0 Hx0 Hp Ht Hq
                    | x0 h Hh0 Hz Hx0 Hp Ht Hq | x0 Hh0 Hz Hx0 Hp Ht Hq ];
      rewrite <- Hp in Hin; try (inversion Hin; fail).
    + apply list_elem_of_singleton in Hin. congruence.
    + exists t0. assert (t0 ∈ timers_of w i) as Hin' by (rewrite <- Ht; left).
      apply list_elem_of_filter in Hin' as [Htg Hin']. auto.
  - intros n t Hn Hexp.
    assert (Hin : t ∈ timers w) by (by eapply list_elem_of_lookup_2).
    destruct (Hlive t Hin) as (c & x & s & Hc & _).
    exists c. eexists. split; [ exact Hc | ].
    unfold fire. rewrite (proj2 (alive_status w) Hrun), Hn.
    apply Z.leb_le in Hexp. rewrite Hexp.
    split; [ reflexivity | ].
    unfold scWatchdogFire.
    cbn [scCommands with_timers]. rewrite Hc.
    split; [ | split; [ reflexivity | ] ].
    + cbn. by rewrite <- app_assoc.
    + intros ev. by apply fire_dead.
Qed.

Lemma watchdog_deadline_and_abort_witness :
  let w := after [EvServerUp; EvTick 30000] in
  scWatchdogLimit = 30000 /\
  (forall i, outstanding w i -> exists t, t ∈ timers w /\ target t = i) /\
  (forall t, t ∈ timers w ->
     exists c x s,
       scCommands w !! target t = Some c /\ ctx c = Some x /\
       timer x = Some (handle t) /\ lastStarted x = Some s /\
       expiry t = s + 30000) /\
  (forall n t, timers w !! n = Some t -> expiry t <= clock w ->
     exists c w',
       scCommands w !! target t = Some c /\
       fire (EvTimeout n) w = Some w' /\
       stderr w' = stderr w ++
         [ "watchdog timer expired for command: " +:+ quoted (name c);
           "aborting (to dump core)" ] /\
       status w' = Aborted /\
       forall ev, fire ev w' = None).
Proof.
  cbn zeta.
  apply (watchdog_deadline_and_abort registry (after [EvServerUp; EvTick 30000])).
  - exact registry_fresh.
  - apply (reachable_after [EvServerUp; EvTick 30000]). by_running.
  - by_running.
Defined.

Lemma cmd_ok_bounds i oc ps ts qs :
  cmd_ok i oc ps ts qs ->
  (length ts <= 1)%nat /\ (length ps + length qs <= 1)%nat /\
  (qs <> [] -> ts = [] /\ ps = []).
Proof.
  intros H. inversion H; subst; cbn; repeat split; try lia; try congruence;
    intros; congruence.
Qed.

(** C4.  In every state the running process can reach, and for every
    command: at most one watchdog is live; at most one iteration is in flight
    or queued; while the next iteration is queued the watchdog of the
    previous one is already disarmed and its exec has called back.  The turn
    of the event loop in which an exec routine is resumed invokes no exec
    routine: if the process survives it, the command is either still waiting
    inside the same iteration or its next iteration sits in the
    [setImmediate] queue; it is the turn that takes the command from that
    queue which invokes exec, once. *)
Theorem one_iteration_at_a_time (specs : list cmdspec) (w : World)
    (i : nat) (c : cmdspec) :
  Forall (fun c => ctx c = None) specs -> reachable specs w ->
  status w = Running ->
  scCommands w !! i = Some c ->
  (length (timers_of w i) <= 1)%nat /\
  (length (pending_of w i) + length (queued_of w i) <= 1)%nat /\
  (queued_of w i <> [] -> timers_of w i = [] /\ pending_of w i = []) /\
  (forall n p err args w',
     pending w !! n = Some p -> owner p = i -> phase p = InExec ->
     fire (EvReply n err args) w = Some w' ->
     (forall j, exec_count j (trace w') = exec_count j (trace w)) /\
     (status w' = Running ->
        queued_of w' i = [i] \/
        exists q, pending_of w' i = [q] /\ phase q = InExec)) /\
  (forall rest w',
     immediates w = i :: rest -> fire EvImmediate w = Some w' ->
     status w' = Running ->
     exec_count i (trace w') = S (exec_count i (trace w))).
Proof.
  intros Hs Hr Hrun Hc.
  pose proof (reachable_Good specs w Hs Hr Hrun) as G.
  destruct (cmd_ok_bounds _ _ _ _ _ (proj2 G i c Hc)) as (B1 & B2 & B3).
  split; [ exact B1 | ]. split; [ exact B2 | ]. split; [ exact B3 | ].
  split.
  2:{ intros rest w' Hi Hf Hrun'. unfold fire in Hf.
      rewrite (proj2 (alive_status w) Hrun), Hi in Hf.
      inversion Hf; subst w'; clear Hf.
      destruct (scCommandLoop_trace i (with_immediates rest w) Hrun')
        as (obs & Ht & Hz).
      rewrite Ht. cbn [trace with_immediates].
      rewrite exec_count_app. cbn [exec_count]. rewrite Nat.eqb_refl, (Hz i). lia. }
  intros n p err args w' Hn Ho Hph Hf.
  unfold fire in Hf. rewrite (proj2 (alive_status w) Hrun), Hn in Hf.
  inversion Hf; subst w'; clear Hf. unfold deliver. rewrite Hph, Ho.
  set (w1 := with_pending (delete n (pending w)) w).
  split.
  - intros j. destruct (resume_exec_trace i (cont p err args) w1) as (obs & Ht & Hz).
    rewrite Ht, exec_count_app, (Hz j). cbn. lia.
  - intros Hrun'.
    destruct (Good_unpend w n p G Hn) as (G1 & O1 & c0 & Hc0 & Hcase).
    rewrite Ho in *.
    destruct Hcase as [(x & Hx & Hh & Hz & Hph' & Hq)
                      | (x & t & s & Hx & Hh & Hl & He & Hz & _ & Hp & Ht & Hq)];
      [ congruence | ].
    by apply (exec_settle i c0 x t s (cont p err args) w1).
Qed.

Lemma one_iteration_at_a_time_witness :
  let w := after [EvServerUp] in
  exists c,
    scCommands w !! 0%nat = Some c /\
    ((length (timers_of w 0) <= 1)%nat /\
     (length (pending_of w 0) + length (queued_of w 0) <= 1)%nat /\
     (queued_of w 0 <> [] -> timers_of w 0 = [] /\ pending_of w 0 = []) /\
     (forall n p err args w',
        pending w !! n = Some p -> owner p = 0%nat -> phase p = InExec ->
        fire (EvReply n err args) w = Some w' ->
        (forall j, exec_count j (trace w') = exec_count j (trace w)) /\
        (status w' = Running ->
           queued_of w' 0 = [0%nat] \/
           exists q, pending_of w' 0 = [q] /\ phase q = InExec)) /\
     (forall rest w',
        immediates w = 0%nat :: rest -> fire EvImmediate w = Some w' ->
        status w' = Running ->
        exec_count 0 (trace w') = S (exec_count 0 (trace w)))).
Proof.
  cbn zeta. eexists. split; [ by_running | ].
  eapply (one_iteration_at_a_time registry (after [EvServerUp]) 0).
  - exact registry_fresh.
  - apply (reachable_after [EvServerUp]). by_running.
  - by_running.
  - by_running.
Defined.

(** What the callback of exec does with an error, wherever exec calls it. *)
Lemma exec_error_settles i c x p w qs e :
  scCommands w !! i = Some c -> ctx c = Some x ->
  run p [] = (qs, Done (Some e)) ->
  let w' := resume i InExec (execCallback i) p w in
  let fatal := VError.new (Some e) ("exec command " +:+ quoted (name c)) in
  status w' = Uncaught fatal /\
  scLog w' = scLog w ++ [ LogFatal (cmdname c) fatal ] /\
  timers w' = timers (clearTimeout (timer x) w) /\
  immediates w' = immediates w /\
  (forall j, exec_count j (trace w') = exec_count j (trace w)) /\
  (forall ev, fire ev w' = None).
Proof.
  intros Hc Hx Hdone. cbn zeta.
  rewrite (resume_done i InExec (execCallback i) p w qs (Some e) Hdone).
  destruct (observe_all_core i qs w) as (C1 & C2 & C3 & C4 & C5 & C6 & C7).
  unfold execCallback, with_cmd. rewrite C1, Hc, Hx.
  split; [ reflexivity | ]. split; [ | split; [ | split; [ | split ] ] ].
  - unfold clearTimeout. destruct (timer x); cbn; by rewrite C5.
  - unfold clearTimeout. destruct (timer x); cbn; by rewrite C2.
  - unfold clearTimeout. destruct (timer x); cbn; by rewrite C3.
  - intros j. unfold clearTimeout. destruct (timer x); cbn;
      rewrite C7, exec_count_app, exec_count_issued; lia.
  - intros ev. by apply fire_dead.
Qed.

(** C5.  Whenever an exec routine calls back with an error [e], at once or
    after any number of requests, the runner's callback disarms the
    watchdog, wraps [e] in a VError whose message names the command, logs
    that error at fatal level and throws it: the process is dead of the
    uncaught exception, nothing has been added to the [setImmediate] queue,
    no exec routine has been invoked and no further turn of the event loop
    runs.  In particular this is how the turn ends in which the environment
    answers an outstanding request of an exec routine and the routine
    thereupon reports an error. *)
Theorem exec_error_is_fatal (specs : list cmdspec) (w : World) :
  Forall (fun c => ctx c = None) specs -> reachable specs w ->
  status w = Running ->
  (forall i c x p qs e,
     scCommands w !! i = Some c -> ctx c = Some x ->
     run p [] = (qs, Done (Some e)) ->
     let w' := resume i InExec (execCallback i) p w in
     let fatal := VError.new (Some e) ("exec command " +:+ quoted (name c)) in
     status w' = Uncaught fatal /\
     scLog w' = scLog w ++ [ LogFatal (cmdname c) fatal ] /\
     timers w' = timers (clearTimeout (timer x) w) /\
     immediates w' = immediates w /\
     (forall j, exec_count j (trace w') = exec_count j (trace w)) /\
     (forall ev, fire ev w' = None)) /\
  (forall n p err args qs e,
     pending w !! n = Some p -> phase p = InExec ->
     run (cont p err args) [] = (qs, Done (Some e)) ->
     exists c w',
       scCommands w !! owner p = Some c /\
       fire (EvReply n err args) w = Some w' /\
       status w' =
         Uncaught (VError.new (Some e) ("exec command " +:+ quoted (name c))) /\
       scLog w' = scLog w ++
         [ LogFatal (cmdname c)
             (VError.new (Some e) ("exec command " +:+ quoted (name c))) ] /\
       timers_of w' (owner p) = [] /\
       immediates w' = immediates w /\
       (forall j, exec_count j (trace w') = exec_count j (trace w)) /\
       (forall ev, fire ev w' = None)).
Proof.
  intros Hs Hr Hrun. split.
  - intros i c x p qs e Hc Hx Hdone. by apply (exec_error_settles i c x p w qs e).
  - intros n p err args qs e Hn Hph Hdone.
    pose proof (reachable_Good specs w Hs Hr Hrun) as G.
    destruct (Good_unpend w n p G Hn) as (G1 & O1 & c & Hc & Hcase).
    destruct Hcase as [(x & Hx & Hh & Hz & Hph' & Hq)
                      | (x & t & s & Hx & Hh & Hl & He & Hz & _ & Hp & Ht & Hq)];
      [ congruence | ].
    exists c. eexists. split; [ exact Hc | ].
    unfold fire. rewrite (proj2 (alive_status w) Hrun), Hn.
    split; [ reflexivity | ].
    unfold deliver. rewrite Hph.
    set (w1 := with_pending (delete n (pending w)) w).
    destruct (exec_error_settles (owner p) c x (cont p err args) w1 qs e Hc Hx Hdone)
      as (E1 & E2 & E3 & E4 & E5 & E6).
    split; [ exact E1 | ]. split; [ exact E2 | ].
    split; [ | split; [ exact E4 | split; [ exact E5 | exact E6 ] ] ].
    unfold timers_of. rewrite E3, Hh. cbn.
    by apply (timers_of_clear_self w (owner p) t (handle t)).
Qed.

Lemma exec_error_is_fatal_witness :
  let w := after [EvServerUp] in
  let e := VError.plain "connection refused" in
  exists p,
    pending w !! 0%nat = Some p /\
    exists c w',
      scCommands w !! owner p = Some c /\
      fire (EvReply 0 (Some e) []) w = Some w' /\
      status w' =
        Uncaught (VError.new (Some e) ("exec command " +:+ quoted (name c))) /\
      scLog w' = scLog w ++
        [ LogFatal (cmdname c)
            (VError.new (Some e) ("exec command " +:+ quoted (name c))) ] /\
      timers_of w' (owner p) = [] /\
      immediates w' = immediates w /\
      (forall j, exec_count j (trace w') = exec_count j (trace w)) /\
      (forall ev, fire ev w' = None).
Proof.
  cbn zeta. eexists. split; [ by_running | ].
  eapply (proj2 (exec_error_is_fatal registry (after [EvServerUp])
                   registry_fresh
                   (reachable_after [EvServerUp] ltac:(by_running))
                   ltac:(by_running))).
  - by_running.
  - by_running.
  - by_running.
Defined.

(** ** The claims about the scenarios *)

(** C6.  Every iteration of the never-connected scenario issues the one
    request [listBuckets] and nothing else.  It completes normally (the
    process lives on and the next iteration is queued) exactly when the
    request fails with an error that has a NoBackendsError in its cause
    chain.  Any other error is handed to the runner's callback, which dies of
    it; a request that succeeds makes [VError.findCauseByName] throw, and the
    process dies of that. *)
Theorem never_connected_verdict (w : World) (i : nat) (c : cmdspec) (x : Ctx)
    (err : option Error) (args : list Json) (rest : list Reply) :
  scCommands w !! i = Some c -> ctx c = Some x -> status w = Running ->
  (exists o,
     run (Scenario.cmdRpcNeverConnected Return) ((err, args) :: rest)
       = ([listBuckets], o) /\
     (o = Done None <-> exists e, err = Some e /\ caused_by e "NoBackendsError") /\
     (forall e, err = Some e -> ~ caused_by e "NoBackendsError" ->
        o = Done (Some e)) /\
     (err = None -> o = Threw (VError.AssertionError "err must be an Error"))) /\
  (let w' := resume i InExec (execCallback i)
               (answer (Scenario.cmdRpcNeverConnected Return) err args) w in
   (status w' = Running <-> exists e, err = Some e /\ caused_by e "NoBackendsError") /\
   (status w' = Running -> immediates w' = immediates w ++ [i]) /\
   (forall e, err = Some e -> ~ caused_by e "NoBackendsError" ->
      status w' =
        Uncaught (VError.new (Some e) ("exec command " +:+ quoted (name c)))) /\
   (err = None ->
      status w' = Uncaught (VError.AssertionError "err must be an Error"))).
Proof.
  intros Hc Hx Hrun.
  pose proof (resume_exec_status i c x) as Hst.
  pose proof (resume_exec_immediates i c x) as Him.
  cbn zeta. rewrite (Hst _ w Hc Hx).
  destruct err as [e|]; cbn [answer Scenario.cmdRpcNeverConnected].
  - cbn. destruct (VError.find_cause e "NoBackendsError") eqn:E; cbn.
    + assert (caused_by e "NoBackendsError") as Hcb
        by (apply caused_by_find; congruence).
      split.
      * eexists; split; [ reflexivity | ].
        split; [ split; eauto | ]. split; [ | discriminate ].
        intros e' [= <-] Hn. contradiction.
      * split; [ split; eauto | ]. split; [ | split; [ | discriminate ] ].
        -- intros _. apply (Him (Return None) w Hc Hx). reflexivity.
        -- intros e' [= <-] Hn. contradiction.
    + assert (~ caused_by e "NoBackendsError") as Hcb
        by (rewrite caused_by_find; congruence).
      split.
      * eexists; split; [ reflexivity | ].
        split; [ split; [ discriminate | ] | ].
        -- intros (e' & [= <-] & Hy). contradiction.
        -- split; [ | discriminate ]. by intros e' [= <-] _.
      * split; [ split; [ discriminate | ] | ].
        -- intros (e' & [= <-] & Hy). contradiction.
        -- split; [ discriminate | ]. split; [ | discriminate ].
           by intros e' [= <-] _.
  - cbn. split.
    + eexists; split; [ reflexivity | ].
      split; [ split; [ discriminate | ] | ].
      * intros (e' & He & _). discriminate.
      * split; [ discriminate | reflexivity ].
    + split; [ split; [ discriminate | ] | ].
      * intros (e' & He & _). discriminate.
      * split; [ discriminate | ]. split; [ discriminate | reflexivity ].
Qed.

Lemma never_connected_verdict_witness :
  let w := after [EvServerUp] in
  let err := Some NoBackendsError in
  exists c x,
    scCommands w !! 0%nat = Some c /\ ctx c = Some x /\
    ((exists o,
        run (Scenario.cmdRpcNeverConnected Return) [(err, [])]
          = ([listBuckets], o) /\
        (o = Done None <-> exists e, err = Some e /\ caused_by e "NoBackendsError") /\
        (forall e, err = Some e -> ~ caused_by e "NoBackendsError" ->
           o = Done (Some e)) /\
        (err = None -> o = Threw (VError.AssertionError "err must be an Error"))) /\
     (let w' := resume 0 InExec (execCallback 0)
                  (answer (Scenario.cmdRpcNeverConnected Return) err []) w in
      (status w' = Running <-> exists e, err = Some e /\ caused_by e "NoBackendsError") /\
      (status w' = Running -> immediates w' = immediates w ++ [0%nat]) /\
      (forall e, err = Some e -> ~ caused_by e "NoBackendsError" ->
         status w' =
           Uncaught (VError.new (Some e) ("exec command " +:+ quoted (name c)))) /\
      (err = None ->
         status w' = Uncaught (VError.AssertionError "err must be an Error")))).
Proof.
  cbn zeta. eexists _, _. split; [ by_running | ]. split; [ by_running | ].
  eapply (never_connected_verdict (after [EvServerUp]) 0).
  - by_running.
  - by_running.
  - by_running.
Defined.

(** C7.  The last stage of the reconnect scenario issues one ping with a
    timeout of 5000 milliseconds.  An error with a NoBackendsError, a
    FastTransportError or a FastProtocolError in its cause chain is
    swallowed: the stage hands no error on, the iteration completes and the
    next one is queued.  Any other error is wrapped as 'unexpected error' and
    a successful ping becomes the error 'unexpected success'; either is the
    result of exec, and the process dies of it. *)
Theorem reconnect_final_ping (w : World) (i : nat) (c : cmdspec) (x : Ctx)
    (err : option Error) (args : list Json) :
  scCommands w !! i = Some c -> ctx c = Some x -> status w = Running ->
  (forall subcallback : Callback,
     exists k,
       Scenario.cmdRpcReconnectClientFail subcallback = Await final_ping k /\
       (forall e, err = Some e -> whitelisted e ->
          k err args = subcallback None []) /\
       (forall e, err = Some e -> ~ whitelisted e ->
          k err args =
            subcallback (Some (VError.new (Some e) "unexpected error")) []) /\
       (err = None ->
          k err args =
            subcallback (Some (VError.new None "unexpected success")) [])) /\
  (forall r1 a2 a3 rest,
     exists o,
       run (Scenario.cmdRpcReconnect Return)
           (r1 :: (None, a2) :: (None, a3) :: (err, args) :: rest)
         = ([createServer (Some 2022); ping JNull; cleanupServer; final_ping], o) /\
       (o = Done None <-> exists e, err = Some e /\ whitelisted e) /\
       (forall e, err = Some e -> ~ whitelisted e ->
          o = Done (Some (VError.new (Some e) "unexpected error"))) /\
       (err = None -> o = Done (Some (VError.new None "unexpected success")))) /\
  (let w' := resume i InExec (execCallback i)
               (answer (pipeline [Scenario.cmdRpcReconnectClientFail] Return)
                       err args) w in
   (status w' = Running <-> exists e, err = Some e /\ whitelisted e) /\
   (status w' = Running -> immediates w' = immediates w ++ [i]) /\
   (forall e, err = Some e -> ~ whitelisted e ->
      status w' =
        Uncaught (VError.new (Some (VError.new (Some e) "unexpected error"))
                             ("exec command " +:+ quoted (name c)))) /\
   (err = None ->
      status w' =
        Uncaught (VError.new (Some (VError.new None "unexpected success"))
                             ("exec command " +:+ quoted (name c))))).
Proof.
  intros Hc Hx Hrun.
  assert (Hans : forall sub : Callback,
             answer (Scenario.cmdRpcReconnectClientFail sub) err args =
             match err with
             | Some e =>
                 if has_cause e "NoBackendsError" || has_cause e "FastTransportError"
                    || has_cause e "FastProtocolError"
                 then sub None []
                 else sub (Some (VError.new (Some e) "unexpected error")) []
             | None => sub (Some (VError.new None "unexpected success")) []
             end) by (intros; apply clientFail_answer).
  split; [ | split ].
  - intros sub.
    exists (answer (Scenario.cmdRpcReconnectClientFail sub)).
    split; [ reflexivity | ]. rewrite (Hans sub). repeat split.
    + intros e -> Hw. apply whitelisted_bool in Hw. by rewrite Hw.
    + intros e -> Hw. rewrite <- whitelisted_bool in Hw.
      by destruct (_ || _).
    + by intros ->.
  - intros [e1 b1] a2 a3 rest.
    unfold Scenario.cmdRpcReconnect.
    cbn [pipeline run Scenario.cmdRpcReconnectSetupServer
         Scenario.cmdRpcReconnectClientLoop Scenario.maxloops
         Scenario.cmdRpcReconnectShutdown].
    match goal with
    | |- context [run (Scenario.cmdRpcReconnectClientFail ?s) _] =>
        pose proof (Hans s) as Hs; set (sub := s) in *
    end.
    cbn [answer Scenario.cmdRpcReconnectClientFail] in Hs.
    cbn [run Scenario.cmdRpcReconnectClientFail]. rewrite Hs. subst sub.
    destruct err as [e|].
    + destruct (_ || _) eqn:Hw; cbn [run]; eexists; (split; [ reflexivity | ]).
      * apply whitelisted_bool in Hw. repeat split.
        -- intros _. eauto.
        -- intros e' [= <-] Hn. contradiction.
        -- discriminate.
      * assert (~ whitelisted e) as Hn
          by (rewrite <- whitelisted_bool; congruence).
        repeat split.
        -- discriminate.
        -- intros [e' [[= <-] Hw']]. contradiction.
        -- intros e' [= <-] _. reflexivity.
        -- discriminate.
    + cbn [run]. eexists; split; [ reflexivity | ]. repeat split.
      * discriminate.
      * intros [e [He _]]. discriminate.
      * discriminate.
  - cbn zeta. cbn [pipeline].
    match goal with
    | |- context [answer (Scenario.cmdRpcReconnectClientFail ?s) _ _] =>
        rewrite (Hans s)
    end.
    pose proof (resume_exec_status i c x) as Hst.
    pose proof (resume_exec_immediates i c x) as Him.
    destruct err as [e|].
    + destruct (_ || _) eqn:Hw.
      * apply whitelisted_bool in Hw.
        rewrite (Hst _ w Hc Hx). cbn [run snd].
        split; [ | split; [ | split ] ].
        -- split; eauto.
        -- intros _. apply (Him _ w Hc Hx). reflexivity.
        -- intros e' [= <-] Hn. contradiction.
        -- discriminate.
      * assert (~ whitelisted e) as Hn
          by (rewrite <- whitelisted_bool; congruence).
        rewrite (Hst _ w Hc Hx). cbn [run snd].
        split; [ | split; [ | split ] ].
        -- split; [ discriminate | ].
           intros [e' [[= <-] Hw']]. contradiction.
        -- discriminate.
        -- intros e' [= <-] _. reflexivity.
        -- discriminate.
    + rewrite (Hst _ w Hc Hx). cbn [run snd].
      split; [ | split; [ | split ] ].
      * split; [ discriminate | ]. intros [e [He _]]. discriminate.
      * discriminate.
      * discriminate.
      * reflexivity.
Qed.

Lemma reconnect_final_ping_witness :
  let w := after [EvServerUp] in
  let e := VError.mkError "FastTransportError" "connection closed" None in
  exists c x,
    scCommands w !! 2%nat = Some c /\ ctx c = Some x /\ status w = Running /\
    status (resume 2 InExec (execCallback 2)
              (answer (pipeline [Scenario.cmdRpcReconnectClientFail] Return)
                      (Some e) []) w) = Running.
Proof.
  cbn zeta. eexists _, _.
  split; [ by_running | ]. split; [ by_running | ]. split; [ by_running | ].
  eapply (reconnect_final_ping (after [EvServerUp]) 2).
  - by_running.
  - by_running.
  - by_running.
  - eexists. split; [ reflexivity | ]. right; left.
    eexists. split; [ left | reflexivity ].
Defined.




(** ** The claims about introspection and the error filters *)

(** C9 (as amended).  The three Kang callbacks leave the process state as it
    is.  The only type listed is "cmd"; the objects of that type are the
    indices of [scCommands]; the snapshot of a command that has a context has
    exactly the four fields [label], [funcname], [nstarted] and
    [lastStarted], read from the name of the command, the name of its exec
    function, and the [nstarted] and [lastStarted] of its context. *)
Theorem kang_reads_published_state (w : World) (which : nat) (c : cmdspec)
    (x : Ctx) :
  scCommands w !! which = Some c -> ctx c = Some x ->
  knListTypes w = ([ "cmd" ], w) /\
  knListObjects "cmd" w = (Normal (seq 0 (length (scCommands w))), w) /\
  knGetObject "cmd" which w =
    (Normal (JObj [ ("label", JStr (name c));
                    ("funcname", JStr (fname (exec c)));
                    ("nstarted", JNum (Z.of_nat (nstarted x)));
                    ("lastStarted", date_json (lastStarted x)) ]), w).
Proof.
  intros Hc Hx. split; [ reflexivity | ]. split.
  - unfold knListObjects. cbn [String.eqb Ascii.eqb Bool.eqb].
    change (imap (fun i _ => i) (scCommands w))
      with (imap (fun i (_ : cmdspec) => id i) (scCommands w)).
    rewrite (imap_seq_0 (scCommands w) id). by rewrite list_fmap_id.
  - unfold knGetObject. cbn [String.eqb Ascii.eqb Bool.eqb].
    by rewrite Hc, Hx.
Qed.

Lemma kang_reads_published_state_witness :
  let w := after [EvServerUp] in
  exists c x,
    scCommands w !! 0%nat = Some c /\ ctx c = Some x /\
    knListObjects "cmd" w = (Normal [0; 1; 2; 3; 4]%nat, w) /\
    knGetObject "cmd" 0 w =
      (Normal (JObj [ ("label", JStr "make RPC requests before ever connected");
                      ("funcname", JStr "cmdRpcNeverConnected");
                      ("nstarted", JNum 1);
                      ("lastStarted", JNum 0) ]), w).
Proof.
  cbn zeta. eexists _, _. split; [ by_running | ]. split; [ by_running | ].
  destruct (kang_reads_published_state (after [EvServerUp]) 0 _ _
              ltac:(by_running) ltac:(by_running)) as (_ & H2 & H3).
  split; [ exact H2 | exact H3 ].
Defined.

(** C9 (as stated) fails: the type the introspection surface lists is "cmd",
    not "command", and the snapshot has no field [functionName],
    [iterationsStarted] or [lastStartedTimestamp]. *)
Lemma kang_names_differ :
  let w := after [EvServerUp] in
  (knListTypes w).1 = [ "cmd" ] /\
  ("command" ∉ (knListTypes w).1) /\
  exists fields,
    (knGetObject "cmd" 0 w).1 = Normal (JObj fields) /\
    fields.*1 = [ "label"; "funcname"; "nstarted"; "lastStarted" ].
Proof.
  cbn zeta. split; [ reflexivity | ]. split.
  - cbn. intros H. apply list_elem_of_singleton in H. discriminate.
  - eexists. split; by_running.
Qed.




(** * Further properties *)

(** ** The scenarios *)

Lemma ends_with_spec suffix s :
  ends_with suffix s = true <-> exists pre, s = pre +:+ suffix.
Proof.
  split.
  - induction s as [| a s IH]; cbn [ends_with].
    + destruct (String.eqb_spec suffix "") as [-> | _]; [ | discriminate ].
      intros _. by exists "".
    + destruct (String.eqb_spec suffix (String a s)) as [-> | _].
      * intros _. by exists "".
      * intros H. destruct (IH H) as [pre ->]. by exists (String a pre).
  - intros [pre ->]. induction pre as [| a pre IH].
    + change ("" +:+ suffix) with suffix.
      destruct suffix; cbn [ends_with]; by rewrite String.eqb_refl.
    + change (String a pre +:+ suffix) with (String a (pre +:+ suffix)).
      cbn [ends_with].
      destruct (String.eqb suffix (String a (pre +:+ suffix))); [ reflexivity | ].
      exact IH.
Qed.

Lemma message_ends_bool suffix err :
  not_null err && ends_with suffix (message_of err) = true <-> message_ends suffix err.
Proof.
  unfold message_ends. destruct err as [e|]; cbn.
  - rewrite ends_with_spec. split.
    + intros [pre H]. eauto.
    + intros (e' & pre & [= <-] & H). eauto.
  - split; [ discriminate | ]. intros (e & pre & H & _). discriminate.
Qed.

(** X1.  Every iteration of the disconnected scenario issues the one request
    [listBuckets].  Any error at all, whatever its kind, counts as the
    failure the scenario expects: the iteration completes, the process lives
    on and the next iteration is queued.  A request that succeeds makes exec
    report the error 'expected error', and the process dies of it with
    nothing queued. *)
Theorem disconnected_verdict (w : World) (i : nat) (c : cmdspec) (x : Ctx)
    (err : option Error) (args : list Json) (rest : list Reply) :
  scCommands w !! i = Some c -> ctx c = Some x -> status w = Running ->
  let w' := resume i InExec (execCallback i)
              (answer (Scenario.cmdRpcDisconnected Return) err args) w in
  (exists o,
     run (Scenario.cmdRpcDisconnected Return) ((err, args) :: rest)
       = ([listBuckets], o) /\
     (o = Done None <-> err <> None) /\
     (err = None -> o = Done (Some (VError.new None "expected error")))) /\
  (status w' = Running <-> err <> None) /\
  (err <> None -> immediates w' = immediates w ++ [i]) /\
  (err = None ->
     status w' =
       Uncaught (VError.new (Some (VError.new None "expected error"))
                            ("exec command " +:+ quoted (name c))) /\
     immediates w' = immediates w).
Proof.
  intros Hc Hx Hrun. cbn zeta.
  rewrite (resume_exec_status i c x _ w Hc Hx).
  destruct err as [e|]; cbn [answer Scenario.cmdRpcDisconnected run snd].
  - split; [ | split; [ | split ] ].
    + eexists. split; [ reflexivity | ]. split; [ | discriminate ].
      split; [ discriminate | reflexivity ].
    + split; [ discriminate | intros _; exact Hrun ].
    + intros _. by apply (resume_exec_immediates i c x (Return None) w).
    + discriminate.
  - split; [ | split; [ | split ] ].
    + eexists. split; [ reflexivity | ]. split; [ | reflexivity ].
      split; [ discriminate | congruence ].
    + split; [ discriminate | congruence ].
    + congruence.
    + intros _. split; [ reflexivity | ].
      cbn [resume]. unfold execCallback, with_cmd. rewrite Hc, Hx.
      unfold clearTimeout. by destruct (timer x).
Qed.

Lemma disconnected_verdict_witness :
  let w := after [EvServerUp] in
  let err := Some NoBackendsError in
  status (resume 1 InExec (execCallback 1)
            (answer (Scenario.cmdRpcDisconnected Return) err []) w) = Running.
Proof.
  cbn zeta.
  eapply (disconnected_verdict (after [EvServerUp]) 1 _ _ (Some NoBackendsError) [] []).
  - by_running.
  - by_running.
  - by_running.
  - discriminate.
Defined.

(** ** The reconnect loop *)

Lemma client_loop_run (sub : Callback) fails : forall left rs,
  (length fails <= left)%nat ->
  run (Scenario.cmdRpcReconnectClientLoop left sub) (failed_pings fails ++ rs) =
    (retries (length fails)
       ++ (run (Scenario.cmdRpcReconnectClientLoop (left - length fails) sub) rs).1,
     (run (Scenario.cmdRpcReconnectClientLoop (left - length fails) sub) rs).2).
Proof.
  induction fails as [| [[e a] [e' a']] fails IH]; intros left rs Hle.
  - cbn [length failed_pings flat_map app retries replicate concat].
    rewrite Nat.sub_0_r. by destruct (run _ rs).
  - cbn [length] in Hle. destruct left as [| left]; [ lia | ].
    change (failed_pings ((e, a, (e', a')) :: fails) ++ rs)
      with ((Some e, a) :: (e', a') :: (failed_pings fails ++ rs)).
    cbn [Scenario.cmdRpcReconnectClientLoop run].
    fold Scenario.cmdRpcReconnectClientLoop.
    rewrite (IH left rs) by lia.
    cbn [length Nat.sub retries replicate concat app fst snd]. reflexivity.
Qed.

(** X2.  The reconnect loop pings until a ping succeeds.  As long as no more
    pings have failed than [left] retries remain, each failed ping is
    followed by a wait of 100 milliseconds and another ping, and the first
    ping that succeeds ends the stage without an error.  When all the
    retries are used up, the next failed ping ends the stage with the error
    'too many transient errors' that wraps the error of that last ping. *)
Theorem reconnect_loop_retries (sub : Callback)
    (fails : list (Error * list Json * Reply)) (left : nat)
    (args : list Json) (rest : list Reply) :
  (length fails <= left)%nat ->
  run (Scenario.cmdRpcReconnectClientLoop left sub)
      (failed_pings fails ++ (None, args) :: rest)
    = (retries (length fails) ++ ping JNull :: (run (sub None []) rest).1,
       (run (sub None []) rest).2) /\
  (length fails = left -> forall e,
     let err := VError.new (Some e) "too many transient errors" in
     run (Scenario.cmdRpcReconnectClientLoop left sub)
         (failed_pings fails ++ (Some e, args) :: rest)
       = (retries left ++ ping JNull :: (run (sub (Some err) []) rest).1,
          (run (sub (Some err) []) rest).2)).
Proof.
  intros Hle. split.
  - rewrite (client_loop_run sub fails left _ Hle).
    destruct (left - length fails)%nat;
      cbn [Scenario.cmdRpcReconnectClientLoop run]; by destruct (run _ rest).
  - intros Hn e. cbn zeta.
    rewrite (client_loop_run sub fails left _ Hle), Hn, Nat.sub_diag.
    cbn [Scenario.cmdRpcReconnectClientLoop run].
    by destruct (run _ rest).
Qed.

Lemma reconnect_loop_retries_witness :
  let e := VError.plain "connect ECONNREFUSED" in
  (2 <= Scenario.maxloops)%nat /\
  run (Scenario.cmdRpcReconnectClientLoop Scenario.maxloops (fun err _ => Return err))
      (failed_pings [ (e, [], (None, [])); (e, [], (None, [])) ] ++ [ (None, []) ])
    = ([ ping JNull; wait 100; ping JNull; wait 100; ping JNull ], Done None).
Proof.
  cbn zeta.
  assert (H : (2 <= Scenario.maxloops)%nat) by (unfold Scenario.maxloops; lia).
  split; [ exact H | ].
  exact (proj1 (reconnect_loop_retries (fun err _ => Return err)
                  [ (VError.plain "connect ECONNREFUSED", [], (None, []));
                    (VError.plain "connect ECONNREFUSED", [], (None, [])) ]
                  Scenario.maxloops [] [] H)).
Defined.

(** X3.  The retry budget of the reconnect loop is 100, and a loop that may
    retry [left] times never pings more than [left + 1] times, whatever the
    replies are.  If the stage ends with an error, it has pinged exactly
    [left + 1] times and the error is 'too many transient errors' wrapped
    around a cause. *)
Theorem reconnect_loop_bounded (left : nat) (replies : list Reply) :
  Scenario.maxloops = 100%nat /\
  (pings (run (Scenario.cmdRpcReconnectClientLoop left (fun err _ => Return err))
              replies).1 <= S left)%nat /\
  (forall e, (run (Scenario.cmdRpcReconnectClientLoop left (fun err _ => Return err))
                  replies).2 = Done (Some e) ->
     pings (run (Scenario.cmdRpcReconnectClientLoop left (fun err _ => Return err))
                replies).1 = S left /\
     exists c, e = VError.new (Some c) "too many transient errors").
Proof.
  split; [ reflexivity | ].
  revert replies. induction left as [| left IH]; intros replies.
  - destruct replies as [| [[e|] a] rest]; cbn; split; try lia; try discriminate.
    intros e' [= <-]. split; [ reflexivity | eauto ].
  - destruct replies as [| [[e|] a] rest];
      cbn [Scenario.cmdRpcReconnectClientLoop run fst snd pings];
      [ split; [ lia | discriminate ] | | split; [ lia | discriminate ] ].
    fold Scenario.cmdRpcReconnectClientLoop.
    destruct rest as [| [e' a'] rest]; cbn [run fst snd pings];
      [ split; [ lia | discriminate ] | ].
    destruct (IH rest) as [IH1 IH2].
    destruct (run (Scenario.cmdRpcReconnectClientLoop left _) rest) as [qs o].
    cbn [fst snd pings] in *. split; [ lia | ].
    intros e0 He0. destruct (IH2 e0 He0) as [Hn Hc]. split; [ lia | exact Hc ].
Qed.

(** ** The success sweep *)

Lemma okay_stage k q :
  okay_requests !! k = Some q ->
  exists cont,
    pipeline (drop k Scenario.cmdRpcOkay_funcs) Return = Await q cont /\
    forall err args,
      cont err args =
        match err with
        | None => pipeline (drop (S k) Scenario.cmdRpcOkay_funcs) Return
        | Some e =>
            if Nat.eqb k 0 && has_cause e "BucketNotFoundError"
            then pipeline (drop (S k) Scenario.cmdRpcOkay_funcs) Return
            else Return (Some (if streaming q
                               then VError.new (Some e) "unexpected error"
                               else e))
        end.
Proof.
  intros Hk.
  destruct k as [| k].
  { inversion Hk; subst q. eexists. split; [ reflexivity | ].
    intros [e|] args; [ | reflexivity ].
    unfold cbIgnoreErrorTypes; cbn.
    unfold has_cause; destruct (VError.find_cause e _); reflexivity. }
  do 16 (destruct k as [| k];
         [ inversion Hk; subst q; eexists; split; [ reflexivity | ];
           intros [e|] args; reflexivity | ]).
  discriminate.
Qed.

Lemma okay_prefix rs pre : forall k0,
  (k0 + length pre <= length okay_requests)%nat ->
  (forall j r, pre !! j = Some r -> okay_reply (k0 + j) r) ->
  run (pipeline (drop k0 Scenario.cmdRpcOkay_funcs) Return) (pre ++ rs) =
    (take (length pre) (drop k0 okay_requests)
       ++ (run (pipeline (drop (k0 + length pre) Scenario.cmdRpcOkay_funcs) Return) rs).1,
     (run (pipeline (drop (k0 + length pre) Scenario.cmdRpcOkay_funcs) Return) rs).2).
Proof.
  induction pre as [| [err args] pre IH]; intros k0 Hlen Hpre.
  - cbn [length app take]. rewrite Nat.add_0_r. by destruct (run _ rs).
  - cbn [length] in *.
    assert (is_Some (okay_requests !! k0)) as [q Hk]
      by (apply lookup_lt_is_Some; lia).
    destruct (okay_stage k0 q Hk) as (cont & Hp & Hcont).
    rewrite Hp, <- app_comm_cons, run_await. cbn [answer]. rewrite Hcont.
    assert (Hgo : match err with
                  | None => pipeline (drop (S k0) Scenario.cmdRpcOkay_funcs) Return
                  | Some e =>
                      if Nat.eqb k0 0 && has_cause e "BucketNotFoundError"
                      then pipeline (drop (S k0) Scenario.cmdRpcOkay_funcs) Return
                      else Return (Some (if streaming q
                                         then VError.new (Some e) "unexpected error"
                                         else e))
                  end = pipeline (drop (S k0) Scenario.cmdRpcOkay_funcs) Return).
    { destruct (Hpre 0%nat (err, args) eq_refl) as [He | [Hz (e & He & Hc)]];
        cbn in He; subst err; [ reflexivity | ].
      rewrite Nat.add_0_r in Hz. subst k0.
      apply has_cause_spec in Hc. by rewrite Hc. }
    rewrite Hgo, (IH (S k0)).
    + rewrite (drop_S _ q k0) by exact Hk.
      cbn [take app fst snd]. by rewrite Nat.add_succ_r.
    + lia.
    + intros j r Hj. rewrite Nat.add_succ_l, <- Nat.add_succ_r. by apply (Hpre (S j)).
Qed.

(** X4.  The success sweep has seventeen stages.  When every request
    succeeds (where the first [deleteBucket], the cleanup of an unclean
    exit, may also fail with a BucketNotFoundError in the cause chain), one
    iteration issues the seventeen requests of [okay_requests] in that order
    and exec calls back without an error. *)
Theorem okay_sweep_completes (replies rest : list Reply) :
  length replies = length okay_requests ->
  (forall j r, replies !! j = Some r -> okay_reply j r) ->
  length okay_requests = 17%nat /\
  run (Scenario.cmdRpcOkay Return) (replies ++ rest) = (okay_requests, Done None).
Proof.
  intros Hlen Hok. split; [ reflexivity | ].
  unfold Scenario.cmdRpcOkay.
  change (pipeline Scenario.cmdRpcOkay_funcs Return)
    with (pipeline (drop 0 Scenario.cmdRpcOkay_funcs) Return).
  rewrite (okay_prefix rest replies 0).
  - cbn [Nat.add drop]. rewrite Hlen.
    rewrite firstn_all.
    change (drop (length okay_requests) Scenario.cmdRpcOkay_funcs) with (@nil Stage).
    cbn [pipeline run fst snd]. by rewrite app_nil_r.
  - cbn [Nat.add]. lia.
  - intros j r Hj. by apply Hok.
Qed.

Lemma okay_sweep_completes_witness :
  let missing := VError.mkError "BucketNotFoundError" "no such bucket" None in
  run (Scenario.cmdRpcOkay Return)
      (((Some missing, []) :: replicate 16 (None, [])) ++ [])
    = (okay_requests, Done None).
Proof.
  cbn zeta.
  apply (okay_sweep_completes
           ((Some (VError.mkError "BucketNotFoundError" "no such bucket" None), [])
              :: replicate 16 (None, [])) []).
  - reflexivity.
  - intros [| j] r Hj.
    + inversion Hj; subst r. right. split; [ reflexivity | ].
      eexists. split; [ reflexivity | ]. eexists. split; [ left | reflexivity ].
    + left. change (replicate 16 (None, []) !! j = Some r) in Hj.
      apply lookup_replicate in Hj as [-> _]. reflexivity.
Defined.

(** X5.  In the success sweep the first error stops the iteration: no later
    request is issued.  A BucketNotFoundError is tolerated by the first
    stage only.  The error of [findObjects] and of [sql] is wrapped as
    'unexpected error'; the error of any other request is handed on as it
    is.  Either way it is the result of exec, and the process dies of it. *)
Theorem okay_sweep_stops_at_error (w : World) (i : nat) (c : cmdspec) (x : Ctx)
    (k : nat) (q : Request) (pre : list Reply)
    (e : Error) (args : list Json) (rest : list Reply) :
  scCommands w !! i = Some c -> ctx c = Some x ->
  okay_requests !! k = Some q ->
  length pre = k ->
  (forall j r, pre !! j = Some r -> okay_reply j r) ->
  (k = 0%nat -> ~ caused_by e "BucketNotFoundError") ->
  let result := if streaming q then VError.new (Some e) "unexpected error" else e in
  run (Scenario.cmdRpcOkay Return) (pre ++ (Some e, args) :: rest)
    = (take (S k) okay_requests, Done (Some result)) /\
  status (resume i InExec (execCallback i)
            (answer (pipeline (drop k Scenario.cmdRpcOkay_funcs) Return) (Some e) args)
            w)
    = Uncaught (VError.new (Some result) ("exec command " +:+ quoted (name c))).
Proof.
  intros Hc Hx Hk Hlen Hok Hfirst. cbn zeta.
  destruct (okay_stage k q Hk) as (cont & Hp & Hcont).
  assert (Hstop : cont (Some e) args =
                    Return (Some (if streaming q
                                  then VError.new (Some e) "unexpected error"
                                  else e))).
  { rewrite Hcont. destruct (Nat.eqb_spec k 0) as [Hz | _]; [ | reflexivity ].
    apply Hfirst, has_cause_false in Hz. by rewrite Hz. }
  split.
  - unfold Scenario.cmdRpcOkay.
    change (pipeline Scenario.cmdRpcOkay_funcs Return)
      with (pipeline (drop 0 Scenario.cmdRpcOkay_funcs) Return).
    rewrite (okay_prefix ((Some e, args) :: rest) pre 0).
    + cbn [Nat.add drop]. rewrite Hlen, Hp, run_await. cbn [answer]. rewrite Hstop.
      cbn [run fst snd].
      by rewrite (take_S_r _ k q) by exact Hk.
    + cbn [Nat.add]. rewrite Hlen. apply Nat.lt_le_incl. by eapply lookup_lt_Some.
    + intros j r Hj. by apply Hok.
  - rewrite (resume_exec_status i c x _ w Hc Hx), Hp. cbn [answer].
    by rewrite Hstop.
Qed.

Lemma okay_sweep_stops_at_error_witness :
  let w := after [EvServerUp] in
  let e := VError.plain "connection reset" in
  exists c x,
    scCommands w !! 4%nat = Some c /\ ctx c = Some x /\
    run (Scenario.cmdRpcOkay Return)
        (replicate 9 (None, []) ++ [ (Some e, []) ])
      = (take 10 okay_requests,
         Done (Some (VError.new (Some e) "unexpected error"))).
Proof.
  cbn zeta. eexists _, _.
  split; [ by_running | ]. split; [ by_running | ].
  eapply (okay_sweep_stops_at_error (after [EvServerUp]) 4 _ _ 9
            (findObjects scTestBucket "field1>=3") (replicate 9 (None, []))).
  - by_running.
  - by_running.
  - reflexivity.
  - reflexivity.
  - intros j r Hj. left. apply lookup_replicate in Hj as [-> _]. reflexivity.
  - discriminate.
Defined.

(** ** The last two stages of the failure sweep *)

Lemma fail_tail_run err1 a1 err2 a2 rest :
  run (pipeline (drop (length fail_sweep) Scenario.cmdRpcFail_funcs) Return)
      ((err1, a1) :: (err2, a2) :: rest) =
    if not_null err1 && ends_with not_supported (message_of err1)
    then match err2 with
         | Some e =>
             ([ getTokens; sql "SELECT ctid from bogus;" ],
              if ends_with no_relation (VError.message e) then Done None
              else Threw (VError.AssertionError "assertion failed"))
         | None => ([ getTokens; sql "SELECT ctid from bogus;" ], Threw unexpected_end)
         end
    else ([ getTokens ], Threw (VError.AssertionError "assertion failed")).
Proof.
  change (drop (length fail_sweep) Scenario.cmdRpcFail_funcs)
    with [ Scenario.cmdRpcFailGetTokens; Scenario.cmdRpcFailSql ].
  cbn [pipeline Scenario.cmdRpcFailGetTokens run].
  destruct err1 as [e1|]; cbn [not_null message_of andb assert_ok]; [ | reflexivity ].
  change (ends_with "Operation not supported" (VError.message e1))
    with (ends_with not_supported (VError.message e1)).
  destruct (ends_with not_supported (VError.message e1)); cbn [assert_ok run];
    [ | reflexivity ].
  cbn [Scenario.cmdRpcFailSql run].
  destruct err2 as [e2|]; [ | reflexivity ].
  change (ends_with ("relation " +:+ quoted "bogus" +:+ " does not exist")
            (VError.message e2))
    with (ends_with no_relation (VError.message e2)).
  by destruct (ends_with no_relation (VError.message e2)).
Qed.

(** X6.  The last two stages of the failure sweep, reached when the twelve
    tabulated operations have failed as they should.  The iteration
    completes exactly when [getTokens] fails with a message that ends with
    'Operation not supported' and [sql] fails with a message that ends with
    'relation "bogus" does not exist'.  A [getTokens] that succeeds or fails
    with another message trips an assertion before [sql] is issued; an [sql]
    that ends without an error throws 'unexpected "end"', and one that fails
    with another message trips an assertion. *)
Theorem failure_sweep_tail (pre : list Reply) (err1 err2 : option Error)
    (a1 a2 : list Json) (rest : list Reply) :
  length pre = length fail_sweep ->
  (forall j r q kind, pre !! j = Some r -> fail_sweep !! j = Some (q, kind) ->
     swallowed kind r) ->
  let out := run (Scenario.cmdRpcFail Return)
               (pre ++ (err1, a1) :: (err2, a2) :: rest) in
  (out = (fail_requests, Done None) <->
     message_ends not_supported err1 /\ message_ends no_relation err2) /\
  (~ message_ends not_supported err1 ->
     out.1 = (fst <$> fail_sweep) ++ [ getTokens ] /\
     exists x, out.2 = Threw x /\ VError.name x = "AssertionError") /\
  (message_ends not_supported err1 ->
     out.1 = fail_requests /\
     (err2 = None -> out.2 = Threw unexpected_end) /\
     (err2 <> None -> ~ message_ends no_relation err2 ->
        exists x, out.2 = Threw x /\ VError.name x = "AssertionError")).
Proof.
  intros Hlen Hpre. cbn zeta.
  unfold Scenario.cmdRpcFail.
  change (pipeline Scenario.cmdRpcFail_funcs Return)
    with (pipeline (drop 0 Scenario.cmdRpcFail_funcs) Return).
  rewrite (sweep_prefix _ pre 0);
    [ | cbn [Nat.add]; lia | intros j r q kind Hj Hk; by apply (Hpre j r q kind) ].
  cbn [Nat.add drop]. rewrite Hlen, fail_tail_run.
  assert (Htake : take (length fail_sweep) (drop 0 fail_requests)
                  = fst <$> fail_sweep) by reflexivity.
  rewrite Htake.
  pose proof (message_ends_bool not_supported err1) as H1.
  pose proof (message_ends_bool no_relation err2) as H2.
  destruct (not_null err1 && ends_with not_supported (message_of err1)).
  - assert (M1 : message_ends not_supported err1) by (by apply H1).
    destruct err2 as [e2|]; cbn [not_null message_of andb fst snd] in *.
    + destruct (ends_with no_relation (VError.message e2)).
      * assert (M2 : message_ends no_relation (Some e2)) by (by apply H2).
        split; [ split; [ auto | reflexivity ] | ].
        split; [ contradiction | ]. intros _.
        split; [ reflexivity | ]. split; [ discriminate | contradiction ].
      * assert (M2 : ~ message_ends no_relation (Some e2))
          by (rewrite <- H2; discriminate).
        split; [ split; [ discriminate | tauto ] | ].
        split; [ contradiction | ]. intros _.
        split; [ reflexivity | ]. split; [ discriminate | ].
        intros _ _. eexists. split; reflexivity.
    + assert (M2 : ~ message_ends no_relation None)
        by (rewrite <- H2; discriminate).
      split; [ split; [ discriminate | tauto ] | ].
      split; [ contradiction | ]. intros _.
      split; [ reflexivity | ]. split; [ reflexivity | congruence ].
  - assert (M1 : ~ message_ends not_supported err1)
      by (rewrite <- H1; discriminate).
    cbn [fst snd].
    split; [ split; [ discriminate | tauto ] | ].
    split; [ | contradiction ]. intros _.
    split; [ reflexivity | ]. eexists. split; reflexivity.
Qed.

Lemma failure_sweep_tail_witness :
  let bad (kind : string) : Reply := (Some (VError.mkError kind "request failed" None), []) in
  let pre := bad "InvalidBucketNameError" :: replicate 8 (bad "BucketNotFoundError")
             ++ bad "FieldUpdateError" :: replicate 2 (bad "BucketNotFoundError") in
  let e1 := VError.plain "getTokens: Operation not supported" in
  let e2 := VError.plain ("relation " +:+ quoted "bogus" +:+ " does not exist") in
  run (Scenario.cmdRpcFail Return) (pre ++ [ (Some e1, []); (Some e2, []) ])
    = (fail_requests, Done None).
Proof.
  cbn zeta.
  eapply (failure_sweep_tail _ _ _ [] [] []).
  - reflexivity.
  - intros j r q kind Hj Hk.
    do 12 (destruct j as [| j];
           [ inversion Hj; subst r; inversion Hk; subst q kind;
             eexists; split; [ reflexivity | ];
             eexists; split; [ left | reflexivity ] | ]).
    discriminate.
  - split.
    + eexists _, "getTokens: ". split; reflexivity.
    + eexists _, "". split; reflexivity.
Defined.

(** ** The watchdog and the startup *)

(** X7.  The watchdog fires only for an iteration that is overdue: whenever
    the event loop fires a watchdog timer, the command the timer belongs to
    has an iteration in flight (its exec is waiting for a request), the
    timer is the one stored in the context, and the iteration started at
    least 30000 milliseconds ago.  The process is then aborted, having
    written the two lines of [scWatchdogFire] and nothing else. *)
Theorem watchdog_fires_only_when_overdue (specs : list cmdspec) (w w' : World)
    (n : nat) :
  Forall (fun c => ctx c = None) specs -> reachable specs w ->
  fire (EvTimeout n) w = Some w' ->
  exists t c x s p,
    timers w !! n = Some t /\
    scCommands w !! target t = Some c /\ ctx c = Some x /\
    timer x = Some (handle t) /\ lastStarted x = Some s /\
    s + 30000 <= clock w /\
    p ∈ pending w /\ owner p = target t /\ phase p = InExec /\
    status w' = Aborted /\
    stderr w' = stderr w ++
      [ "watchdog timer expired for command: " +:+ quoted (name c);
        "aborting (to dump core)" ] /\
    trace w' = trace w.
Proof.
  intros Hs Hr Hf. unfold fire in Hf.
  destruct (alive w) eqn:Ha; [ | discriminate ]. apply alive_status in Ha.
  destruct (timers w !! n) as [t|] eqn:Hn; [ | discriminate ].
  destruct (expiry t <=? clock w) eqn:Hdue; [ | discriminate ].
  inversion Hf; subst w'; clear Hf. apply Z.leb_le in Hdue.
  destruct (reachable_Good specs w Hs Hr Ha) as [G S].
  assert (Hin : t ∈ timers w) by (by eapply list_elem_of_lookup_2).
  destruct (good_timers w G t Hin) as (c & x & Hc & Hx & Hh).
  pose proof (S _ c Hc) as St. unfold cmd_state in St. rewrite Hx in St.
  assert (t ∈ timers_of w (target t)) as Hin' by (by apply list_elem_of_filter).
  inversion St as [ | x0 p Hh0 Hz Hph Hx0 Hp Ht Hq
                  | x0 p t0 s Hh0 Hl He Hz Hph Hx0 Hp Ht Hq
                  | x0 h Hh0 Hz Hx0 Hp Ht Hq | x0 Hh0 Hz Hx0 Hp Ht Hq ];
    subst x0; rewrite <- Ht in Hin'; try (inversion Hin'; fail).
  apply list_elem_of_singleton in Hin'. subst t0.
  assert (Hp' : p ∈ pending_of w (target t)) by (rewrite <- Hp; left).
  apply list_elem_of_filter in Hp' as [Ho Hp'].
  exists t, c, x, s, p.
  split; [ reflexivity | ]. split; [ exact Hc | ]. split; [ exact Hx | ].
  split; [ exact Hh | ]. split; [ exact Hl | ].
  split; [ unfold scWatchdogLimit in He; lia | ].
  split; [ exact Hp' | ]. split; [ exact Ho | ]. split; [ exact Hph | ].
  unfold scWatchdogFire. cbn [scCommands with_timers]. rewrite Hc.
  split; [ reflexivity | ]. split; [ | reflexivity ].
  cbn. by rewrite <- app_assoc.
Qed.

Lemma watchdog_fires_only_when_overdue_witness :
  let w := after [EvServerUp; EvTick 30000] in
  let w' := after [EvServerUp; EvTick 30000; EvTimeout 0] in
  fire (EvTimeout 0) w = Some w' /\
  exists t p,
    timers w !! 0%nat = Some t /\
    p ∈ pending w /\ owner p = target t /\ phase p = InExec /\
    status w' = Aborted.
Proof.
  cbn zeta.
  assert (Hf : fire (EvTimeout 0) (after [EvServerUp; EvTick 30000])
               = Some (after [EvServerUp; EvTick 30000; EvTimeout 0]))
    by by_running.
  split; [ exact Hf | ].
  destruct (watchdog_fires_only_when_overdue registry
              (after [EvServerUp; EvTick 30000]) _ 0 registry_fresh
              (reachable_after [EvServerUp; EvTick 30000] ltac:(by_running)) Hf)
    as (t & c & x & s & p & H1 & _ & _ & _ & _ & _ & H7 & H8 & H9 & H10 & _).
  exists t, p. auto 10.
Defined.

(** ** The bookkeeping of the setups *)

Lemma filter_line_out (extra : list string) :
  set_up_line ∉ extra -> filter (fun l => l = set_up_line) extra = [].
Proof.
  induction extra as [| a extra IH]; intros Hn; [ reflexivity | ].
  rewrite filter_cons_False.
  - apply IH. intros H. apply Hn. by right.
  - intros ->. apply Hn. left.
Qed.

Lemma Accounted_frame r w w' :
  status w = Running ->
  ndone w' = ndone w -> nerrors w' = nerrors w ->
  length (scCommands w') = length (scCommands w) ->
  length (in_setup w') = length (in_setup w) ->
  (exists extra, stderr w' = stderr w ++ extra /\ set_up_line ∉ extra) ->
  (forall code, status w' <> Exited code) ->
  Accounted r w -> Accounted r w'.
Proof.
  intros Hrun Hd He Hl Hs (extra & Herr & Hx) Hst [T B L O E D].
  constructor.
  - intros _. rewrite Hd, Hs, Hl. auto.
  - rewrite Hd, He, Hl. exact B.
  - rewrite Herr, Hd, He, Hl. intros Hin.
    apply elem_of_app in Hin as [Hin | Hin]; [ auto | contradiction ].
  - rewrite Herr, filter_app, length_app, (filter_line_out extra Hx). cbn. lia.
  - intros code Hc. destruct (Hst code Hc).
  - rewrite Hd, He, Hl. intros H1 H2. specialize (D H1 H2).
    destruct (Nat.eqb (nerrors w) 0).
    + rewrite Herr. apply elem_of_app. by left.
    + rewrite Hrun in D. discriminate.
Qed.

Lemma Accounted_quiet r w w' :
  status w = Running ->
  ndone w' = ndone w -> nerrors w' = nerrors w ->
  length (scCommands w') = length (scCommands w) ->
  length (in_setup w') = length (in_setup w) ->
  stderr w' = stderr w ->
  (forall code, status w' <> Exited code) ->
  Accounted r w -> Accounted r w'.
Proof.
  intros Hrun Hd He Hl Hs Herr Hst.
  apply Accounted_frame; try assumption.
  exists []. rewrite app_nil_r. split; [ exact Herr | ]. apply not_elem_of_nil.
Qed.

Lemma Accounted_dead r r' w :
  status w <> Running -> Accounted r w -> Accounted r' w.
Proof.
  intros Hd [T B L O E D]. constructor; try assumption. intros H. contradiction.
Qed.

Lemma in_setup_exec w i q k :
  in_setup (with_pending
              (pending w ++ [ {| owner := i; phase := InExec; request := q; cont := k |} ])
              (observe (Issued i q) w)) = in_setup w.
Proof.
  unfold in_setup. cbn. rewrite filter_app, filter_one_out, app_nil_r; [ reflexivity | ].
  cbn. discriminate.
Qed.

Lemma execCallback_acc r i err w :
  status w = Running -> Accounted r w -> Accounted r (execCallback i err w).
Proof.
  intros Hrun A. unfold execCallback, with_cmd.
  destruct (scCommands w !! i) as [c|];
    [ | by apply (Accounted_quiet r w) ].
  destruct (ctx c) as [x|]; [ | by apply (Accounted_quiet r w) ].
  unfold clearTimeout.
  destruct err as [e|]; destruct (timer x);
    apply (Accounted_quiet r w); try reflexivity; try assumption;
    cbn; try discriminate; try (rewrite Hrun; discriminate).
Qed.

Lemma resume_exec_acc r i p : forall w,
  status w = Running -> Accounted r w ->
  Accounted r (resume i InExec (execCallback i) p w).
Proof.
  induction p as [err | e | q p IH | q k _]; intros w Hrun A; cbn [resume].
  - by apply execCallback_acc.
  - by apply (Accounted_quiet r w).
  - apply IH; [ exact Hrun | ].
    apply (Accounted_quiet r w); try reflexivity; try assumption.
    cbn. rewrite Hrun. discriminate.
  - apply (Accounted_quiet r w); try reflexivity; try assumption.
    + by rewrite in_setup_exec.
    + cbn. rewrite Hrun. discriminate.
Qed.

Lemma scCommandLoop_acc r i w :
  status w = Running -> Accounted r w -> Accounted r (scCommandLoop i w).
Proof.
  intros Hrun A. unfold scCommandLoop, with_cmd.
  destruct (scCommands w !! i) as [c|];
    [ | by apply (Accounted_quiet r w) ].
  destruct (ctx c) as [x|]; [ | by apply (Accounted_quiet r w) ].
  cbn zeta. apply resume_exec_acc; [ exact Hrun | ].
  apply (Accounted_quiet r w); try reflexivity; try assumption.
  - cbn. by rewrite length_insert.
  - cbn. rewrite Hrun. discriminate.
Qed.

Lemma forEachDone_acc r err w :
  status w = Running -> Accounted (S r) w -> Accounted r (forEachDone err w).
Proof.
  intros Hrun [T B L O E D]. specialize (T Hrun).
  assert (Hnot : set_up_line ∉ stderr w).
  { intros Hin. destruct (L Hin) as [Hd _]. lia. }
  unfold forEachDone. cbn zeta.
  cbn [scCommands with_done].
  set (e := (nerrors w + (if not_null err then 1 else 0))%nat).
  assert (He : (e <= S (ndone w))%nat) by (subst e; destruct (not_null err); lia).
  destruct (Nat.ltb_spec (S (ndone w)) (length (scCommands w))) as [Hlt | Hge].
  - constructor; cbn.
    + intros _. unfold in_setup in *. cbn. lia.
    + lia.
    + intros Hin. contradiction.
    + exact O.
    + intros code Hc. rewrite Hrun in Hc. discriminate.
    + lia.
  - assert (Hall : S (ndone w) = length (scCommands w)) by lia.
    destruct (Nat.ltb_spec 0 e) as [Hpos | Hzero].
    + constructor; cbn.
      * discriminate.
      * lia.
      * intros Hin. apply elem_of_app in Hin as [Hin | Hin]; [ contradiction | ].
        apply list_elem_of_singleton in Hin. discriminate.
      * rewrite filter_app, length_app, filter_one_out by discriminate. cbn. lia.
      * intros code [= <-]. split; [ reflexivity | ]. split; [ exact Hall | ].
        split; [ exact Hpos | ]. apply last_snoc.
      * intros _ _. destruct (Nat.eqb_spec e 0); [ lia | reflexivity ].
    + assert (Hz : e = 0%nat) by lia.
      constructor; cbn.
      * intros _. unfold in_setup in *. cbn. lia.
      * lia.
      * intros _. auto.
      * rewrite filter_app, length_app, (filter_line_out _ Hnot).
        rewrite filter_one_in by reflexivity. cbn. lia.
      * intros code Hc. rewrite Hrun in Hc. discriminate.
      * intros _ _. rewrite Hz. cbn. apply elem_of_app. right. left.
Qed.

Lemma setupCallback_acc r i err w :
  status w = Running -> Accounted (S r) w -> Accounted r (setupCallback i err w).
Proof.
  intros Hrun A. unfold setupCallback, with_cmd.
  destruct (scCommands w !! i) as [c|];
    [ | apply (Accounted_dead (S r)); [ discriminate | ];
        by apply (Accounted_quiet (S r) w) ].
  destruct (ctx c) as [x|];
    [ | apply (Accounted_dead (S r)); [ discriminate | ];
        by apply (Accounted_quiet (S r) w) ].
  destruct err as [e|]; [ by apply forEachDone_acc | ].
  cbn zeta.
  set (w1 := store_ctx i c (set_setupDone (clock w) x) w).
  assert (A1 : Accounted (S r) (scCommandLoop i w1)).
  { apply scCommandLoop_acc; [ exact Hrun | ].
    apply (Accounted_quiet (S r) w); try reflexivity; try assumption.
    - cbn. by rewrite length_insert.
    - cbn. rewrite Hrun. discriminate. }
  destruct (alive (scCommandLoop i w1)) eqn:Ha.
  - apply alive_status in Ha. by apply forEachDone_acc.
  - apply (Accounted_dead (S r)); [ | exact A1 ].
    intros Hr. apply alive_status in Hr. congruence.
Qed.

Lemma resume_setup_acc r i p : forall w,
  status w = Running -> Accounted (S r) w ->
  Accounted r (resume i InSetup (setupCallback i) p w).
Proof.
  induction p as [err | e | q p IH | q k _]; intros w Hrun A; cbn [resume].
  - by apply setupCallback_acc.
  - apply (Accounted_dead (S r)); [ discriminate | ].
    by apply (Accounted_quiet (S r) w).
  - apply IH; [ exact Hrun | ].
    apply (Accounted_quiet (S r) w); try reflexivity; try assumption.
    cbn. rewrite Hrun. discriminate.
  - destruct A as [T B L O E D]. specialize (T Hrun).
    constructor; cbn; try assumption.
    intros _. unfold in_setup in *. cbn.
    rewrite filter_app, filter_one_in by reflexivity.
    rewrite length_app. cbn. lia.
Qed.

Lemma scCommandStart_length i w :
  length (scCommands (scCommandStart i w)) = length (scCommands w).
Proof.
  unfold scCommandStart. destruct (scCommands w !! i) as [c|]; [ | reflexivity ].
  cbn zeta.
  rewrite (adv_length _ _ _
             (resume_advances i InSetup (setupCallback i)
                (setupCallback_advances i) (body (setup c))
                (store_ctx i c (fresh_ctx (clock w)) w))).
  cbn. by rewrite length_insert.
Qed.

Lemma scCommandStart_acc r i w :
  (i < length (scCommands w))%nat ->
  status w = Running -> Accounted (S r) w -> Accounted r (scCommandStart i w).
Proof.
  intros Hi Hrun A. unfold scCommandStart.
  apply lookup_lt_is_Some in Hi as [c Hc]. rewrite Hc. cbn zeta.
  apply resume_setup_acc; [ exact Hrun | ].
  apply (Accounted_quiet (S r) w); try reflexivity; try assumption.
  - cbn. by rewrite length_insert.
  - cbn. rewrite Hrun. discriminate.
Qed.

Lemma forEachParallel_acc r inputs : forall w,
  Forall (fun i => (i < length (scCommands w))%nat) inputs ->
  status w = Running -> Accounted (length inputs + r) w ->
  Accounted r (forEachParallel inputs w).
Proof.
  induction inputs as [| i rest IH]; intros w Hin Hrun A; cbn [forEachParallel].
  - exact A.
  - apply Forall_cons in Hin as [Hi Hin]. cbn [length Nat.add] in A.
    pose proof (scCommandStart_acc _ i w Hi Hrun A) as A1.
    destruct (alive (scCommandStart i w)) eqn:Ha.
    + apply alive_status in Ha. apply IH; [ | exact Ha | exact A1 ].
      rewrite scCommandStart_length. exact Hin.
    + apply (Accounted_dead (length rest + r)); [ | exact A1 ].
      intros Hr. apply alive_status in Hr. congruence.
Qed.

Lemma Startup_boot specs now : Startup (boot specs now).
Proof.
  unfold Startup. cbn. constructor; cbn.
  - intros _. reflexivity.
  - lia.
  - intros H. inversion H.
  - lia.
  - discriminate.
  - intros H1 H2. lia.
Qed.

Lemma Startup_fire ev w w' :
  fire ev w = Some w' -> Inv w -> Startup w -> Startup w'.
Proof.
  unfold fire. destruct (alive w) eqn:Ha; [ | discriminate ].
  apply alive_status in Ha. intros Hf [P K G] A. unfold Startup in *.
  destruct ev as [| n err args | | n | d].
  - (* EvServerUp *)
    destruct (started w) eqn:Hs; [ discriminate | ]. inversion Hf; subst w'; clear Hf.
    destruct (P eq_refl) as (Hp & Hi & Ht & Htr & Hnone).
    set (w0 := with_started true w).
    destruct (forEachParallel_counted (seq 0 (length (scCommands w))) w0)
      as (_ & S' & _); [ apply NoDup_seq | | exact K | ].
    { intros j c _ Hl. rewrite Forall_forall in Hnone. apply Hnone.
      by eapply list_elem_of_lookup_2. }
    rewrite S'. cbn [started with_started w0].
    apply forEachParallel_acc.
    + apply Forall_forall. intros i Hi'. apply elem_of_seq in Hi'. cbn. lia.
    + exact Ha.
    + rewrite length_seq, Nat.add_0_r.
      apply (Accounted_quiet _ w); try reflexivity; try assumption.
      cbn. rewrite Ha. discriminate.
  - (* EvReply *)
    destruct (pending w !! n) as [p|] eqn:Hn; [ | discriminate ].
    inversion Hf; subst w'; clear Hf.
    set (w1 := with_pending (delete n (pending w)) w).
    rewrite (adv_started _ _ _ (deliver_advances p err args w1)).
    cbn [started with_pending w1].
    destruct (started w) eqn:Hs.
    2:{ destruct (P eq_refl) as (Hp & _). rewrite Hp in Hn. discriminate. }
    unfold deliver. destruct (phase p) eqn:Hph.
    + apply resume_setup_acc; [ exact Ha | ].
      destruct A as [T B L O E D]. specialize (T Ha).
      assert (Hlen : (length (in_setup w) = S (length (in_setup w1)))%nat).
      { unfold in_setup, w1. cbn. clear -Hn Hph.
        revert n Hn. induction (pending w) as [| a l IH]; intros [| n] Hn;
          try discriminate; cbn in Hn.
        - inversion Hn; subst a. cbn [delete list_delete].
          by rewrite filter_cons_True.
        - cbn [delete list_delete]. rewrite !filter_cons.
          destruct (decide (phase a = InSetup)); cbn [length];
            rewrite (IH n Hn); reflexivity. }
      constructor; cbn; try assumption.
      intros _. unfold in_setup in T, Hlen. unfold w1 in Hlen.
      cbn [pending with_pending] in Hlen. lia.
    + apply resume_exec_acc; [ exact Ha | ].
      apply (Accounted_quiet _ w); try reflexivity; try assumption.
      * unfold in_setup, w1. cbn.
        rewrite (filter_delete_out _ _ n p Hn); [ reflexivity | ].
        rewrite Hph. discriminate.
      * cbn. rewrite Ha. discriminate.
  - (* EvImmediate *)
    destruct (immediates w) as [| i rest] eqn:Hi; [ discriminate | ].
    inversion Hf; subst w'; clear Hf.
    rewrite (adv_started _ _ _ (scCommandLoop_advances i (with_immediates rest w))).
    cbn [started with_immediates].
    destruct (started w) eqn:Hs.
    2:{ destruct (P eq_refl) as (_ & Him & _). congruence. }
    apply scCommandLoop_acc; [ exact Ha | ].
    apply (Accounted_quiet _ w); try reflexivity; try assumption.
    cbn. rewrite Ha. discriminate.
  - (* EvTimeout *)
    destruct (timers w !! n) as [t|] eqn:Hn; [ | discriminate ].
    destruct (expiry t <=? clock w); [ | discriminate ].
    inversion Hf; subst w'; clear Hf.
    destruct (scWatchdogFire_core (target t)
                (with_timers (delete n (timers w)) (nextHandle w) w))
      as (Hc & _ & Hs).
    rewrite Hs. cbn [started with_timers].
    destruct (started w) eqn:Hst.
    2:{ destruct (P eq_refl) as (_ & _ & Ht & _). rewrite Ht in Hn. discriminate. }
    unfold scWatchdogFire. cbn [scCommands with_timers].
    destruct (scCommands w !! target t) as [c|].
    + apply (Accounted_frame _ w); try reflexivity; try assumption.
      * eexists. cbn. rewrite <- app_assoc. split; [ reflexivity | ].
        cbn. intros Hin. apply elem_of_cons in Hin as [Hin | Hin].
        -- destruct (name c); cbn in Hin; discriminate.
        -- apply list_elem_of_singleton in Hin. discriminate.
      * discriminate.
    + by apply (Accounted_quiet _ w).
  - (* EvTick *)
    destruct (0 <=? d); [ | discriminate ]. inversion Hf; subst w'; clear Hf.
    cbn [started scCommands with_clock].
    apply (Accounted_quiet _ w); try reflexivity; try assumption.
    cbn. rewrite Ha. discriminate.
Qed.

Lemma reachable_Startup specs w :
  Forall (fun c => ctx c = None) specs -> reachable specs w -> Startup w.
Proof.
  intros Hs. induction 1 as [now | w ev w' Hr IH Hf].
  - apply Startup_boot.
  - eapply Startup_fire; [ exact Hf | by eapply reachable_Inv | exact IH ].
Qed.

Lemma fire_length ev w w' :
  Inv w -> fire ev w = Some w' ->
  length (scCommands w') = length (scCommands w).
Proof.
  intros [P K G] Hf. unfold fire in Hf. destruct (alive w); [ | discriminate ].
  destruct ev as [| n err args | | n | d].
  - destruct (started w) eqn:Hs; [ discriminate | ]. inversion Hf; subst w'.
    destruct (P eq_refl) as (_ & _ & _ & _ & Hnone).
    destruct (forEachParallel_counted (seq 0 (length (scCommands w)))
                (with_started true w)) as (_ & _ & L);
      [ apply NoDup_seq | | exact K | exact L ].
    intros j c0 _ Hl. rewrite Forall_forall in Hnone. apply Hnone.
    by eapply list_elem_of_lookup_2.
  - destruct (pending w !! n) as [p|]; [ | discriminate ]. inversion Hf; subst w'.
    apply (adv_length _ _ _
             (deliver_advances p err args (with_pending (delete n (pending w)) w))).
  - destruct (immediates w) as [| i0 rest]; [ discriminate | ]. inversion Hf; subst w'.
    apply (adv_length _ _ _ (scCommandLoop_advances i0 (with_immediates rest w))).
  - destruct (timers w !! n) as [t|]; [ | discriminate ].
    destruct (expiry t <=? clock w); [ | discriminate ]. inversion Hf; subst w'.
    destruct (scWatchdogFire_core (target t)
                (with_timers (delete n (timers w)) (nextHandle w) w)) as (H1 & _).
    by rewrite H1.
  - destruct (0 <=? d); [ | discriminate ]. by inversion Hf; subst w'.
Qed.

Lemma reachable_length specs w :
  Forall (fun c => ctx c = None) specs -> reachable specs w ->
  length (scCommands w) = length specs.
Proof.
  intros Hs. induction 1 as [now | w ev w' Hr IH Hf]; [ reflexivity | ].
  rewrite <- IH. eapply fire_length; [ | exact Hf ]. by eapply reachable_Inv.
Qed.

(** X8.  The bookkeeping of [vasync.forEachParallel] in [main].  Before the
    server is up no setup is waiting and nothing has been requested.  In
    every state the running process can reach afterwards, every command's
    setup has either called back or is waiting for a request: the two
    numbers add up to the number of commands.  No more setups have failed
    than have called back, and no more have called back than there are
    commands. *)
Theorem setups_are_accounted (specs : list cmdspec) (w : World) :
  Forall (fun c => ctx c = None) specs -> reachable specs w ->
  (started w = false -> in_setup w = [] /\ trace w = []) /\
  (status w = Running ->
     (ndone w + length (in_setup w)
      = if started w then length specs else 0)%nat) /\
  (nerrors w <= ndone w <= length specs)%nat.
Proof.
  intros Hs Hr.
  pose proof (reachable_Inv specs w Hs Hr) as [P K G].
  pose proof (reachable_Startup specs w Hs Hr) as [T B L O E D].
  rewrite <- (reachable_length specs w Hs Hr).
  split; [ | split; [ | exact B ] ].
  - intros Hst. destruct (P Hst) as (Hp & _ & _ & Htr & _).
    unfold in_setup. by rewrite Hp.
  - intros Hrun. specialize (T Hrun). destruct (started w); lia.
Qed.

Lemma setups_are_accounted_witness :
  let w := after [EvServerUp] in
  status w = Running /\ started w = true /\ ndone w = 2%nat /\
  (ndone w + length (in_setup w) = length registry)%nat.
Proof.
  cbn zeta.
  assert (H1 : status (after [EvServerUp]) = Running) by by_running.
  assert (H2 : started (after [EvServerUp]) = true) by by_running.
  split; [ exact H1 | ]. split; [ exact H2 | ]. split; [ by_running | ].
  pose proof (proj1 (proj2 (setups_are_accounted registry (after [EvServerUp])
                              registry_fresh
                              (reachable_after [EvServerUp] ltac:(by_running))))
                H1) as H.
  rewrite H2 in H. exact H.
Defined.

(** X9.  With at least one command registered, the line 'set up all
    commands' is on stderr exactly when every setup has called back and none
    has failed.  It is written at most once, and a process that has written
    it never exits through [cmdutil.fail]. *)
Theorem set_up_line_iff_all_succeeded (specs : list cmdspec) (w : World) :
  Forall (fun c => ctx c = None) specs -> reachable specs w -> specs <> [] ->
  (set_up_line ∈ stderr w <->
     ndone w = length specs /\ nerrors w = 0%nat) /\
  (length (filter (fun l => l = set_up_line) (stderr w)) <= 1)%nat /\
  (set_up_line ∈ stderr w -> forall code, status w <> Exited code).
Proof.
  intros Hs Hr Hne.
  pose proof (reachable_Startup specs w Hs Hr) as [T B L O E D].
  pose proof (reachable_length specs w Hs Hr) as Hlen. rewrite Hlen in *.
  assert (Hpos : (0 < length specs)%nat) by (destruct specs; [ done | cbn; lia ]).
  split; [ | split; [ exact O | ] ].
  - split; [ exact L | ]. intros [H1 H2]. specialize (D H1 Hpos).
    by rewrite H2 in D.
  - intros Hin code Hc. destruct (L Hin) as [_ Hz].
    destruct (E code Hc) as (_ & _ & Hp & _). lia.
Qed.

Lemma set_up_line_iff_all_succeeded_witness :
  let w := after all_set_up in
  set_up_line ∈ stderr w /\ ndone w = 5%nat /\ nerrors w = 0%nat.
Proof.
  cbn zeta.
  assert (Hd : ndone (after all_set_up) = length registry) by by_running.
  assert (He : nerrors (after all_set_up) = 0%nat) by by_running.
  split; [ | split; [ exact Hd | exact He ] ].
  apply (proj1 (set_up_line_iff_all_succeeded registry (after all_set_up)
                  registry_fresh
                  (reachable_after all_set_up ltac:(by_running))
                  ltac:(discriminate))).
  split; [ exact Hd | exact He ].
Defined.






(** ** The registry *)

(** ** What the runner never touches *)

Lemma keeps_same w w' :
  scCommands w' = scCommands w -> clock w' = clock w -> keeps w w'.
Proof.
  intros Hc Hk. constructor; [ exact Hk | by rewrite Hc | ].
  intros j c Hj. exists c. rewrite Hc. by repeat split.
Qed.

Lemma keeps_refl w : keeps w w.
Proof. by apply keeps_same. Qed.

Lemma keeps_trans w1 w2 w3 : keeps w1 w2 -> keeps w2 w3 -> keeps w1 w3.
Proof.
  intros [K1 L1 F1] [K2 L2 F2]. constructor; [ congruence | congruence | ].
  intros j c Hj. destruct (F1 j c Hj) as (c' & Hj' & (N1 & S1 & E1) & X1).
  destruct (F2 j c' Hj') as (c'' & Hj'' & (N2 & S2 & E2) & X2).
  exists c''. split; [ exact Hj'' | ]. split; [ | auto ].
  repeat split; congruence.
Qed.

Lemma keeps_store i c x w :
  scCommands w !! i = Some c -> keeps w (store_ctx i c x w).
Proof.
  intros Hc. constructor; [ reflexivity | cbn; by rewrite length_insert | ].
  intros j c0 Hj. destruct (decide (j = i)) as [-> | Hne].
  - exists (set_ctx x c). rewrite lookup_store_eq by exact Hc.
    assert (c0 = c) as -> by congruence.
    split; [ reflexivity | ]. split; [ by repeat split | ]. intros _. by eexists.
  - exists c0. rewrite lookup_store_ne by exact Hne.
    split; [ exact Hj | ]. split; [ by repeat split | auto ].
Qed.

Lemma resume_keeps i ph done :
  (forall err w, keeps w (done err w)) ->
  forall p w, keeps w (resume i ph done p w).
Proof.
  intros Hdone. induction p as [err | e | q p IH | q k _]; intros w; cbn [resume].
  - apply Hdone.
  - by apply keeps_same.
  - eapply keeps_trans; [ | apply IH ]. by apply keeps_same.
  - by apply keeps_same.
Qed.

Lemma execCallback_same i err w :
  scCommands (execCallback i err w) = scCommands w /\
  clock (execCallback i err w) = clock w.
Proof.
  unfold execCallback, with_cmd.
  destruct (scCommands w !! i) as [c|]; [ | by split ].
  destruct (ctx c) as [x|]; [ | by split ].
  unfold clearTimeout. destruct err; destruct (timer x); by split.
Qed.

Lemma resume_exec_same i p : forall w,
  scCommands (resume i InExec (execCallback i) p w) = scCommands w /\
  clock (resume i InExec (execCallback i) p w) = clock w.
Proof.
  induction p as [err | e | q p IH | q k _]; intros w; cbn [resume].
  - apply execCallback_same.
  - by split.
  - destruct (IH (observe (Issued i q) w)) as [H1 H2]. by rewrite H1, H2.
  - by split.
Qed.

Lemma forEachDone_same err w :
  scCommands (forEachDone err w) = scCommands w /\
  clock (forEachDone err w) = clock w.
Proof. unfold forEachDone. repeat case_match; by split. Qed.

(** The context an iteration start leaves. *)
Lemma scCommandLoop_ctx i c x w :
  scCommands w !! i = Some c -> ctx c = Some x ->
  scCommands (scCommandLoop i w)
    = <[i := set_ctx (set_timer (Some (nextHandle w))
                        (set_lastStarted (clock w) (bump_nstarted x))) c]>
        (scCommands w) /\
  clock (scCommandLoop i w) = clock w.
Proof.
  intros Hc Hx. unfold scCommandLoop, with_cmd. rewrite Hc, Hx. cbn zeta.
  match goal with
  | |- context [resume i InExec (execCallback i) ?p ?w0] =>
      destruct (resume_exec_same i p w0) as [H1 H2]
  end.
  rewrite H1, H2. by split.
Qed.

Lemma scCommandLoop_keeps i w : keeps w (scCommandLoop i w).
Proof.
  destruct (scCommands w !! i) as [c|] eqn:Hc.
  2:{ unfold scCommandLoop, with_cmd. rewrite Hc. by apply keeps_same. }
  destruct (ctx c) as [x|] eqn:Hx.
  2:{ unfold scCommandLoop, with_cmd. rewrite Hc, Hx. by apply keeps_same. }
  destruct (scCommandLoop_ctx i c x w Hc Hx) as [H1 H2].
  eapply keeps_trans;
    [ apply (keeps_store i c (set_timer (Some (nextHandle w))
                                (set_lastStarted (clock w) (bump_nstarted x))) w Hc) | ].
  apply keeps_same; [ | exact H2 ]. rewrite H1. reflexivity.
Qed.

Lemma setupCallback_keeps i err w : keeps w (setupCallback i err w).
Proof.
  unfold setupCallback, with_cmd.
  destruct (scCommands w !! i) as [c|] eqn:Hc; [ | by apply keeps_same ].
  destruct (ctx c) as [x|]; [ | by apply keeps_same ].
  destruct err as [e|].
  - destruct (forEachDone_same (Some (VError.new (Some e)
                 ("setup command " +:+ quoted (name c)))) w) as [H1 H2].
    by apply keeps_same.
  - cbn zeta.
    eapply keeps_trans;
      [ apply (keeps_store i c (set_setupDone (clock w) x) w Hc) | ].
    eapply keeps_trans; [ apply scCommandLoop_keeps | ].
    destruct (alive _); [ | apply keeps_refl ].
    match goal with
    | |- keeps ?w0 (forEachDone ?e0 ?w0) =>
        destruct (forEachDone_same e0 w0) as [H1 H2]
    end.
    by apply keeps_same.
Qed.

Lemma scCommandStart_keeps i w : keeps w (scCommandStart i w).
Proof.
  unfold scCommandStart.
  destruct (scCommands w !! i) as [c|] eqn:Hc; [ | apply keeps_refl ].
  cbn zeta.
  eapply keeps_trans; [ apply (keeps_store i c (fresh_ctx (clock w)) w Hc) | ].
  apply resume_keeps. intros. apply setupCallback_keeps.
Qed.

Lemma scCommandStart_has_ctx i c w :
  scCommands w !! i = Some c ->
  exists c', scCommands (scCommandStart i w) !! i = Some c' /\ is_Some (ctx c').
Proof.
  intros Hc. unfold scCommandStart. rewrite Hc. cbn zeta.
  set (w1 := store_ctx i c (fresh_ctx (clock w)) w).
  destruct (keeps_lookup _ _
              (resume_keeps i InSetup (setupCallback i)
                 (setupCallback_keeps i) (body (setup c)) w1)
              i (set_ctx (fresh_ctx (clock w)) c))
    as (c' & Hc' & _ & Hx).
  { by apply lookup_store_eq. }
  exists c'. split; [ exact Hc' | ]. apply Hx. by eexists.
Qed.

Lemma forEachParallel_keeps inputs : forall w, keeps w (forEachParallel inputs w).
Proof.
  induction inputs as [| i rest IH]; intros w; cbn [forEachParallel].
  - apply keeps_refl.
  - destruct (alive _); [ | apply scCommandStart_keeps ].
    eapply keeps_trans; [ apply scCommandStart_keeps | apply IH ].
Qed.

Lemma forEachParallel_all_ctx inputs : forall w,
  status (forEachParallel inputs w) = Running ->
  forall i, i ∈ inputs -> is_Some (scCommands w !! i) ->
    exists c', scCommands (forEachParallel inputs w) !! i = Some c' /\
               is_Some (ctx c').
Proof.
  induction inputs as [| i0 rest IH]; intros w Hrun i Hin [c Hc];
    [ inversion Hin | ].
  cbn [forEachParallel] in *.
  destruct (alive (scCommandStart i0 w)) eqn:Ha.
  2:{ apply alive_status in Hrun. congruence. }
  apply elem_of_cons in Hin as [-> | Hin].
  - destruct (scCommandStart_has_ctx i0 c w Hc) as (c1 & Hc1 & Hx1).
    destruct (keeps_lookup _ _ (forEachParallel_keeps rest (scCommandStart i0 w))
                i0 c1 Hc1) as (c' & Hc' & _ & Hx).
    exists c'. auto.
  - apply (IH _ Hrun i Hin).
    destruct (keeps_lookup _ _ (scCommandStart_keeps i0 w) i c Hc) as (c1 & Hc1 & _).
    by eexists.
Qed.

Lemma fire_keeps ev w w' :
  fire ev w = Some w' ->
  clock w <= clock w' /\
  length (scCommands w') = length (scCommands w) /\
  forall j c, scCommands w !! j = Some c ->
    exists c', scCommands w' !! j = Some c' /\ same_command c c' /\
               (is_Some (ctx c) -> is_Some (ctx c')).
Proof.
  assert (Hk : forall w1, scCommands w1 = scCommands w -> clock w1 = clock w ->
            keeps w1 w' ->
            clock w <= clock w' /\
            length (scCommands w') = length (scCommands w) /\
            forall j c, scCommands w !! j = Some c ->
              exists c', scCommands w' !! j = Some c' /\ same_command c c' /\
                         (is_Some (ctx c) -> is_Some (ctx c'))).
  { intros w1 H1 H2 [K L F]. rewrite <- H1, <- H2. split; [ lia | ]. split; assumption. }
  unfold fire. destruct (alive w); [ | discriminate ].
  destruct ev as [| n err args | | n | d].
  - destruct (started w); [ discriminate | ]. intros [= <-].
    apply (Hk (with_started true w)); try reflexivity. apply forEachParallel_keeps.
  - destruct (pending w !! n) as [p|]; [ | discriminate ]. intros [= <-].
    apply (Hk (with_pending (delete n (pending w)) w)); try reflexivity.
    unfold deliver. destruct (phase p); apply resume_keeps; intros.
    + apply setupCallback_keeps.
    + apply keeps_same; apply execCallback_same.
  - destruct (immediates w) as [| i rest]; [ discriminate | ]. intros [= <-].
    apply (Hk (with_immediates rest w)); try reflexivity. apply scCommandLoop_keeps.
  - destruct (timers w !! n) as [t|]; [ | discriminate ].
    destruct (expiry t <=? clock w); [ | discriminate ]. intros [= <-].
    apply (Hk w); try reflexivity.
    unfold scWatchdogFire. cbn [scCommands with_timers].
    destruct (scCommands w !! target t); by apply keeps_same.
  - destruct (0 <=? d) eqn:Hd; [ | discriminate ]. intros [= <-].
    apply Z.leb_le in Hd. cbn. split; [ lia | ]. split; [ reflexivity | ].
    intros j c Hj. exists c. by repeat split.
Qed.

Lemma reachable_same_commands specs w :
  reachable specs w ->
  length (scCommands w) = length specs /\
  forall i c0, specs !! i = Some c0 ->
    exists c, scCommands w !! i = Some c /\ same_command c0 c /\
              (is_Some (ctx c0) -> is_Some (ctx c)).
Proof.
  induction 1 as [now | w ev w' Hr [L F] Hf].
  - split; [ reflexivity | ]. intros i c0 Hc0. exists c0. by repeat split.
  - destruct (fire_keeps ev w w' Hf) as (_ & L' & F').
    split; [ congruence | ]. intros i c0 Hc0.
    destruct (F i c0 Hc0) as (c & Hc & (N & S & E) & X).
    destruct (F' i c Hc) as (c' & Hc' & (N' & S' & E') & X').
    exists c'. split; [ exact Hc' | ]. split; [ | auto ].
    repeat split; congruence.
Qed.

(** X12.  The registry is fixed once the process is started: in every
    reachable state there are as many commands as were registered, each with
    the name, the setup function and the exec function it was registered
    with.  [scCommands] is written only through [cmdspec.ctx]: a turn of the
    event loop keeps every command and never takes a context away, and the
    wall clock does not go back. *)
Theorem registry_is_static (specs : list cmdspec) (w : World) :
  reachable specs w ->
  length (scCommands w) = length specs /\
  (forall i c0, specs !! i = Some c0 ->
     exists c, scCommands w !! i = Some c /\
       name c = name c0 /\ setup c = setup c0 /\ exec c = exec c0 /\
       (is_Some (ctx c0) -> is_Some (ctx c))) /\
  (forall ev w', fire ev w = Some w' ->
     clock w <= clock w' /\
     forall i c, scCommands w !! i = Some c ->
       exists c', scCommands w' !! i = Some c' /\ same_command c c' /\
                  (is_Some (ctx c) -> is_Some (ctx c'))).
Proof.
  intros Hr. destruct (reachable_same_commands specs w Hr) as [L F].
  split; [ exact L | ]. split.
  - intros i c0 Hc0. destruct (F i c0 Hc0) as (c & Hc & (N & S & E) & X).
    exists c. auto 6.
  - intros ev w' Hf. destruct (fire_keeps ev w w' Hf) as (K & _ & F'). auto.
Qed.

Lemma registry_is_static_witness :
  let w := after all_set_up in
  length (scCommands w) = 5%nat /\
  exists c, scCommands w !! 1%nat = Some c /\
            name c = "make RPC requests after connection closed".
Proof.
  cbn zeta.
  destruct (registry_is_static registry (after all_set_up)
              (reachable_after all_set_up ltac:(by_running))) as (L & F & _).
  split; [ exact L | ].
  destruct (F 1%nat _ eq_refl) as (c & Hc & N & _).
  exists c. split; [ exact Hc | exact N ].
Defined.

(** ** Introspection before and after the commands are started *)

Lemma reachable_ready specs w :
  Forall (fun c => ctx c = None) specs -> reachable specs w ->
  started w = true -> status w = Running ->
  forall i c, scCommands w !! i = Some c -> is_Some (ctx c).
Proof.
  intros Hs. induction 1 as [now | w ev w' Hr IH Hf]; [ discriminate | ].
  intros Hst Hrun i c' Hc'.
  pose proof (reachable_Inv specs w Hs Hr) as [P K G].
  destruct (fire_keeps ev w w' Hf) as (_ & L & F).
  assert (is_Some (scCommands w !! i)) as [c Hc].
  { apply lookup_lt_is_Some. rewrite <- L. by eapply lookup_lt_Some. }
  destruct (started w) eqn:Hsw.
  - assert (status w = Running) as Hw.
    { unfold fire in Hf. destruct (alive w) eqn:Ha; [ | discriminate ].
      by apply alive_status. }
    destruct (F i c Hc) as (c'' & Hc'' & _ & X).
    assert (c'' = c') as -> by congruence.
    apply X. by apply (IH eq_refl Hw i c).
  - destruct (P eq_refl) as (Hp & Hi & Ht & _).
    unfold fire in Hf. destruct (alive w); [ | discriminate ].
    destruct ev as [| n err args | | n | d].
    + rewrite Hsw in Hf. inversion Hf; subst w'; clear Hf.
      destruct (forEachParallel_all_ctx _ _ Hrun i) as (c'' & Hc'' & X).
      * apply elem_of_seq. apply lookup_lt_Some in Hc. cbn. lia.
      * by eexists.
      * by assert (c'' = c') as <- by congruence.
    + rewrite Hp in Hf. discriminate.
    + rewrite Hi in Hf. discriminate.
    + rewrite Ht in Hf. discriminate.
    + destruct (0 <=? d); [ | discriminate ]. inversion Hf; subst w'.
      cbn in Hst. congruence.
Qed.

(** X13.  Introspection before and after the commands are started.  Kang is
    listening before the server is up: until then [knGetObject] throws a
    TypeError for every identifier.  Once the commands are started and while
    the process runs, every identifier that [knListObjects] lists is
    accepted by [knGetObject], whose label and funcname are the name and the
    exec function name the command was registered with.  For a type other
    than 'cmd' both throw the same assertion error; the state is left as it
    is in every case. *)
Theorem kang_get_follows_start (specs : list cmdspec) (w : World) :
  Forall (fun c => ctx c = None) specs -> reachable specs w ->
  (started w = false ->
     forall which, exists e,
       knGetObject "cmd" which w = (Throw e, w) /\ VError.name e = "TypeError") /\
  (started w = true -> status w = Running ->
     forall ids which,
       knListObjects "cmd" w = (Normal ids, w) -> which ∈ ids ->
       exists c0 x,
         specs !! which = Some c0 /\
         knGetObject "cmd" which w =
           (Normal (JObj [ ("label", JStr (name c0));
                           ("funcname", JStr (fname (exec c0)));
                           ("nstarted", JNum (Z.of_nat (nstarted x)));
                           ("lastStarted", date_json (lastStarted x)) ]), w)) /\
  (forall type which, type <> "cmd" ->
     exists e,
       knListObjects type w = (Throw e, w) /\ knGetObject type which w = (Throw e, w) /\
       VError.name e = "AssertionError").
Proof.
  intros Hs Hr. split; [ | split ].
  - intros Hst which.
    destruct (inv_pristine w (reachable_Inv specs w Hs Hr) Hst) as (_ & _ & _ & _ & Hn).
    unfold knGetObject. cbn [String.eqb Ascii.eqb Bool.eqb].
    destruct (scCommands w !! which) as [c|] eqn:Hc.
    + rewrite Forall_forall in Hn. rewrite (Hn c) by (by eapply list_elem_of_lookup_2).
      eexists. split; reflexivity.
    + eexists. split; reflexivity.
  - intros Hst Hrun ids which Hl Hin.
    unfold knListObjects in Hl. cbn [String.eqb Ascii.eqb Bool.eqb] in Hl.
    inversion Hl as [Hids]. clear Hl.
    change (imap (fun i _ => i) (scCommands w))
      with (imap (fun i (_ : cmdspec) => id i) (scCommands w)) in Hids.
    rewrite (imap_seq_0 (scCommands w) id), list_fmap_id in Hids. subst ids.
    apply elem_of_seq in Hin as [_ Hlt]. cbn in Hlt.
    destruct (reachable_same_commands specs w Hr) as (L & F).
    assert (is_Some (specs !! which)) as [c0 Hc0].
    { apply lookup_lt_is_Some. by rewrite <- L. }
    destruct (F which c0 Hc0) as (c & Hc & (N & _ & E) & _).
    destruct (reachable_ready specs w Hs Hr Hst Hrun which c Hc) as [x Hx].
    exists c0, x. split; [ exact Hc0 | ].
    unfold knGetObject. cbn [String.eqb Ascii.eqb Bool.eqb].
    by rewrite Hc, Hx, N, E.
  - intros type which Hne. exists (VError.AssertionError "type == cmd").
    unfold knListObjects, knGetObject.
    destruct (String.eqb_spec type "cmd") as [-> | _]; [ contradiction | ].
    by repeat split.
Qed.

Lemma kang_get_follows_start_witness :
  let w := after [EvServerUp] in
  exists x,
    knGetObject "cmd" 4 w =
      (Normal (JObj [ ("label", JStr "successful RPC requests");
                      ("funcname", JStr "cmdRpcOkay");
                      ("nstarted", JNum (Z.of_nat (nstarted x)));
                      ("lastStarted", date_json (lastStarted x)) ]), w).
Proof.
  cbn zeta.
  destruct (kang_get_follows_start registry (after [EvServerUp]) registry_fresh
              (reachable_after [EvServerUp] ltac:(by_running))) as (_ & H & _).
  destruct (H ltac:(by_running) ltac:(by_running) [0; 1; 2; 3; 4]%nat 4%nat)
    as (c0 & x & Hc0 & Hg).
  - by_running.
  - repeat constructor.
  - inversion Hc0; subst c0. exists x. exact Hg.
Defined.

(** ** Time stamps *)

Lemma stamped_mono now now' x : now <= now' -> stamped now x -> stamped now' x.
Proof.
  intros Hle [A B C]. constructor.
  - lia.
  - destruct (setupDone x); [ | exact B ]. destruct B. split; [ lia | assumption ].
  - destruct (lastStarted x); [ | exact C ]. destruct C. split; [ assumption | lia ].
Qed.

Lemma Timed_same w w' :
  scCommands w' = scCommands w -> clock w' = clock w -> Timed w -> Timed w'.
Proof. unfold Timed. by intros -> ->. Qed.

Lemma scCommandLoop_timed i c x d w :
  others_timed i w -> scCommands w !! i = Some c -> ctx c = Some x ->
  setupDone x = Some d -> setupStarted x <= d <= clock w ->
  Timed (scCommandLoop i w).
Proof.
  intros O Hc Hx Hd Hle.
  destruct (scCommandLoop_ctx i c x w Hc Hx) as [H1 H2].
  intros j cj xj Hj Hxj. rewrite H1 in Hj. rewrite H2.
  destruct (decide (j = i)) as [-> | Hne].
  - rewrite list_lookup_insert_eq in Hj by (by eapply lookup_lt_Some).
    inversion Hj; subst cj. cbn in Hxj. inversion Hxj; subst xj.
    constructor; cbn.
    + lia.
    + rewrite Hd. split; [ exact Hle | lia ].
    + split; [ | lia ]. exists d. split; [ exact Hd | lia ].
  - rewrite list_lookup_insert_ne in Hj by congruence. by apply (O j cj xj).
Qed.

Lemma Timed_store i c x w :
  Timed w -> stamped (clock w) x -> Timed (store_ctx i c x w).
Proof.
  intros T Hx j cj xj Hj Hxj. cbn [clock store_ctx with_scCommands].
  destruct (decide (j = i)) as [-> | Hne].
  - cbn in Hj. destruct (scCommands w !! i) as [c0|] eqn:Hc.
    + rewrite list_lookup_insert_eq in Hj by (by eapply lookup_lt_Some).
      inversion Hj; subst cj. cbn in Hxj. by inversion Hxj; subst xj.
    + rewrite list_insert_ge in Hj by (by apply lookup_ge_None).
      congruence.
  - rewrite lookup_store_ne in Hj by exact Hne. by apply (T j cj xj).
Qed.

Lemma setupCallback_timed i err w : Timed w -> Timed (setupCallback i err w).
Proof.
  intros T. unfold setupCallback, with_cmd.
  destruct (scCommands w !! i) as [c|] eqn:Hc; [ | by apply (Timed_same w) ].
  destruct (ctx c) as [x|] eqn:Hx; [ | by apply (Timed_same w) ].
  destruct err as [e|].
  - match goal with
    | |- Timed (forEachDone ?e0 ?w0) => destruct (forEachDone_same e0 w0) as [H1 H2]
    end.
    by apply (Timed_same w).
  - cbn zeta.
    set (w1 := store_ctx i c (set_setupDone (clock w) x) w).
    assert (T1 : Timed (scCommandLoop i w1)).
    { apply (scCommandLoop_timed i (set_ctx (set_setupDone (clock w) x) c)
               (set_setupDone (clock w) x) (clock w)).
      - intros j cj xj Hne Hj Hxj. unfold w1 in Hj.
        rewrite lookup_store_ne in Hj by exact Hne.
        by apply (T j cj xj).
      - by apply lookup_store_eq.
      - reflexivity.
      - reflexivity.
      - cbn. pose proof (st_started _ _ (T i c x Hc Hx)). lia. }
    destruct (alive _); [ | exact T1 ].
    match goal with
    | |- Timed (forEachDone ?e0 ?w0) => destruct (forEachDone_same e0 w0) as [H1 H2]
    end.
    by apply (Timed_same (scCommandLoop i w1)).
Qed.

Lemma resume_setup_timed i p : forall w,
  Timed w -> Timed (resume i InSetup (setupCallback i) p w).
Proof.
  induction p as [err | e | q p IH | q k _]; intros w T; cbn [resume].
  - by apply setupCallback_timed.
  - by apply (Timed_same w).
  - apply IH. by apply (Timed_same w).
  - by apply (Timed_same w).
Qed.

Lemma forEachParallel_timed inputs : forall w,
  Timed w -> Timed (forEachParallel inputs w).
Proof.
  induction inputs as [| i rest IH]; intros w T; cbn [forEachParallel];
    [ exact T | ].
  assert (T1 : Timed (scCommandStart i w)).
  { unfold scCommandStart. destruct (scCommands w !! i) as [c|]; [ | exact T ].
    cbn zeta. apply resume_setup_timed. apply Timed_store; [ exact T | ].
    constructor; cbn; [ lia | reflexivity | reflexivity ]. }
  destruct (alive _); [ by apply IH | exact T1 ].
Qed.

Lemma Timed_fire ev w w' :
  fire ev w = Some w' -> Inv w -> Timed w -> Timed w'.
Proof.
  unfold fire. destruct (alive w) eqn:Ha; [ | discriminate ].
  apply alive_status in Ha. intros Hf [P K G] T. specialize (G Ha).
  destruct ev as [| n err args | | n | d].
  - destruct (started w); [ discriminate | ]. inversion Hf; subst w'.
    apply forEachParallel_timed. by apply (Timed_same w).
  - destruct (pending w !! n) as [p|]; [ | discriminate ]. inversion Hf; subst w'.
    unfold deliver. destruct (phase p).
    + apply resume_setup_timed. by apply (Timed_same w).
    + match goal with
      | |- Timed (resume ?i InExec _ ?p0 ?w0) =>
          destruct (resume_exec_same i p0 w0) as [H1 H2]
      end.
      by apply (Timed_same w).
  - destruct (immediates w) as [| i rest] eqn:Hi; [ discriminate | ].
    inversion Hf; subst w'.
    destruct (scCommands w !! i) as [c|] eqn:Hc.
    2:{ unfold scCommandLoop, with_cmd. cbn [scCommands with_immediates].
        rewrite Hc. by apply (Timed_same w). }
    pose proof (proj2 G i c Hc) as Si. unfold cmd_state in Si.
    assert (Hq : queued_of w i = i :: filter (fun j => j = i) rest).
    { unfold queued_of. rewrite Hi. by rewrite filter_cons_True. }
    rewrite Hq in Si.
    inversion Si as [ | | | x h Hh Hz Hx Hp Ht Hq' | ].
    pose proof (T i c x Hc (eq_sym Hx)) as [A B C].
    destruct (setupDone x) as [d0|] eqn:Hd; [ | lia ].
    apply (scCommandLoop_timed i c x d0); try done.
    + intros j cj xj _ Hj Hxj. by apply (T j cj xj).
    + cbn. lia.
  - destruct (timers w !! n) as [t|]; [ | discriminate ].
    destruct (expiry t <=? clock w); [ | discriminate ]. inversion Hf; subst w'.
    unfold scWatchdogFire. cbn [scCommands with_timers].
    destruct (scCommands w !! target t); by apply (Timed_same w).
  - destruct (0 <=? d) eqn:Hd; [ | discriminate ]. inversion Hf; subst w'.
    apply Z.leb_le in Hd. intros j cj xj Hj Hxj. cbn in *.
    apply (stamped_mono (clock w)); [ lia | by apply (T j cj xj) ].
Qed.

(** X14.  The time stamps of a context, in every reachable state, the wall
    clock never going back.  An iteration has started exactly when
    [setupDone] is set, and exactly when [lastStarted] is set: no exec runs
    before its setup has succeeded, and a successful setup starts the first
    iteration in the same turn.  Setup started before it was done, and it
    was done before the latest iteration started. *)
Theorem iteration_follows_setup (specs : list cmdspec) (w : World)
    (i : nat) (c : cmdspec) (x : Ctx) :
  Forall (fun c => ctx c = None) specs -> reachable specs w ->
  scCommands w !! i = Some c -> ctx c = Some x ->
  setupStarted x <= clock w /\
  ((0 < nstarted x)%nat <-> setupDone x <> None) /\
  ((0 < nstarted x)%nat <-> lastStarted x <> None) /\
  (forall d, setupDone x = Some d -> setupStarted x <= d <= clock w) /\
  (forall s, lastStarted x = Some s ->
     exists d, setupDone x = Some d /\ d <= s <= clock w).
Proof.
  intros Hs Hr Hc Hx.
  assert (T : Timed w).
  { clear Hc Hx. induction Hr as [now | w ev w' Hr IH Hf].
    - intros j cj xj Hj Hxj. cbn in Hj. rewrite Forall_forall in Hs.
      rewrite (Hs cj) in Hxj by (by eapply list_elem_of_lookup_2). discriminate.
    - eapply Timed_fire; [ exact Hf | by eapply reachable_Inv | exact IH ]. }
  destruct (T i c x Hc Hx) as [A B C].
  split; [ exact A | ].
  destruct (setupDone x) as [d|] eqn:Hd.
  - destruct B as [B1 B2]. split; [ split; [ discriminate | auto ] | ].
    split.
    + destruct (lastStarted x) as [s|]; [ split; [ discriminate | auto ] | lia ].
    + split; [ by intros d' [= <-] | ].
      intros s Hl. rewrite Hl in C. destruct C as [(d' & [= <-] & Hle) Hn].
      exists d. split; [ reflexivity | lia ].
  - split; [ split; [ lia | congruence ] | ].
    destruct (lastStarted x) as [s|].
    + destruct C as [(d' & Hd' & _) _]. discriminate.
    + split; [ split; [ lia | congruence ] | ]. split; discriminate.
Qed.

Lemma iteration_follows_setup_witness :
  let w := after [EvServerUp; EvTick 5; EvReply 3 None []] in
  exists c x,
    scCommands w !! 3%nat = Some c /\ ctx c = Some x /\
    nstarted x = 1%nat /\ setupDone x <> None /\ lastStarted x <> None.
Proof.
  cbn zeta.
  assert (H : exists c x,
             scCommands (after [EvServerUp; EvTick 5; EvReply 3 None []]) !! 3%nat
               = Some c /\ ctx c = Some x /\ nstarted x = 1%nat).
  { eexists _, _. split; [ by_running | split; by_running ]. }
  destruct H as (c & x & Hc & Hx & Hn).
  destruct (iteration_follows_setup registry _ 3 c x registry_fresh
              (reachable_after [EvServerUp; EvTick 5; EvReply 3 None []]
                 ltac:(by_running)) Hc Hx) as (_ & H1 & H2 & _).
  exists c, x. split; [ exact Hc | ]. split; [ exact Hx | ]. split; [ exact Hn | ].
  split; [ apply H1 | apply H2 ]; rewrite Hn; lia.
Defined.

(** ** The command lines of cli-sanity.test.js *)

(** X15.  [validArgsFor], for every tool name: 'sql' gets the one statement;
    any other name gets nothing, the bucket, the bucket and a key, or the
    bucket and a filter, so that a key or a filter never comes without the
    bucket and never both; in no case more than two arguments.  A name that
    is not one of the fifteen tools gets no arguments. *)
Theorem validArgsFor_shapes (cmdname : string) :
  (cmdname = "sql" -> CliSanity.validArgsFor cmdname = [ "select NOW()" ]) /\
  (cmdname <> "sql" ->
     CliSanity.validArgsFor cmdname = [] \/
     CliSanity.validArgsFor cmdname = [ CliSanity.bucket ] \/
     CliSanity.validArgsFor cmdname = [ CliSanity.bucket; "x" ] \/
     CliSanity.validArgsFor cmdname = [ CliSanity.bucket; "x=y" ]) /\
  (length (CliSanity.validArgsFor cmdname) <= 2)%nat /\
  (cmdname ∉ CliSanity.cmds -> CliSanity.validArgsFor cmdname = []).
Proof.
  assert (Hcase : cmdname ∈ CliSanity.cmds \/
            (CliSanity.validArgsFor cmdname = [] /\ cmdname <> "sql" /\
             cmdname ∉ CliSanity.cmds)).
  { destruct (String.eqb_spec cmdname "listbuckets") as [-> | ?];
      [ left; unfold CliSanity.cmds; repeat (first [ left | right ]) | ].
    destruct (String.eqb_spec cmdname "morayping") as [-> | ?];
      [ left; unfold CliSanity.cmds; repeat (first [ left | right ]) | ].
    destruct (String.eqb_spec cmdname "morayversion") as [-> | ?];
      [ left; unfold CliSanity.cmds; repeat (first [ left | right ]) | ].
    unfold CliSanity.validArgsFor, CliSanity.one_of, CliSanity.cmds.
    cbn [existsb].
    repeat match goal with
    | |- context [String.eqb cmdname ?s] =>
        destruct (String.eqb_spec cmdname s) as [-> | ?];
          [ left; repeat (first [ left | right ]) | ]
    end.
    right. cbn. split; [ reflexivity | ]. split; [ assumption | ].
    intros Hin. repeat (apply elem_of_cons in Hin as [Hin | Hin]; [ contradiction | ]).
    inversion Hin. }
  destruct Hcase as [Hin | (Hnil & Hsql & Hout)].
  - unfold CliSanity.cmds in Hin.
    repeat (apply elem_of_cons in Hin as [-> | Hin];
            [ split; [ intros; try discriminate; reflexivity | ];
              split; [ intros; try contradiction; cbn; auto | ];
              split; [ cbn; lia | ];
              intros Hno; exfalso; apply Hno; unfold CliSanity.cmds;
              repeat (first [ left | right ]) | ]).
    inversion Hin.
  - rewrite Hnil. split; [ contradiction | ]. split; [ auto | ].
    split; [ cbn; lia | auto ].
Qed.

Lemma foldl_push {A B : Type} (f : B -> list A) (l : list B) : forall init,
  foldl (fun acc b => acc ++ f b) init l = init ++ flat_map f l.
Proof.
  induction l as [| b l IH]; intros init; cbn [foldl flat_map].
  - by rewrite app_nil_r.
  - by rewrite IH, <- app_assoc.
Qed.

(** X16.  [generateFailureTests] leaves the test cases it finds in front and
    appends two for each of the fifteen tools.  The command line of each new
    case is the tool, [-h] with the bogus or the local host, [-p 1111], and
    then exactly the arguments [validArgsFor] gives for the tool; each
    expects status 1 and an empty stdout.  The names of the new cases are
    pairwise different. *)
Theorem failure_tests_generated (testcases : list CliSanity.TestCase) :
  let out := CliSanity.generateFailureTests testcases in
  take (length testcases) out = testcases /\
  length out = (length testcases + 2 * length CliSanity.cmds)%nat /\
  (forall tc, tc ∈ drop (length testcases) out ->
     exists cmdname host,
       cmdname ∈ CliSanity.cmds /\ host ∈ [ "bogus-test"; "127.0.0.1" ] /\
       CliSanity.exec tc
         = cmdname :: "-h" :: host :: "-p" :: "1111" :: CliSanity.validArgsFor cmdname /\
       CliSanity.statusCode tc = 1 /\ CliSanity.stdout tc = "^$") /\
  NoDup (CliSanity.name <$> drop (length testcases) out).
Proof.
  cbn zeta. unfold CliSanity.generateFailureTests. rewrite foldl_push.
  rewrite take_app_length, drop_app_length, length_app.
  split; [ reflexivity | ]. split; [ reflexivity | ]. split.
  - intros tc Hin. apply list_elem_of_In, in_flat_map in Hin as (cmdname & Hc & Hin).
    apply list_elem_of_In in Hc. exists cmdname.
    destruct Hin as [<- | [<- | []]].
    + exists "bogus-test". split; [ exact Hc | ]. split; [ left | ]. by repeat split.
    + exists "127.0.0.1". split; [ exact Hc | ]. split; [ right; left | ].
      by repeat split.
  - apply (bool_decide_unpack _). vm_compute. reflexivity.
Qed.

(** ** Lines of output *)

Lemma split_nonempty s : CliSanity.split s <> [].
Proof.
  destruct s as [| c s]; cbn; [ discriminate | ].
  destruct (Ascii.eqb c CliSanity.newline); [ discriminate | ].
  by destruct (CliSanity.split s).
Qed.

Lemma split_one_line l : one_line l = true -> CliSanity.split l = [ l ].
Proof.
  induction l as [| c l IH]; cbn; [ reflexivity | ].
  destruct (Ascii.eqb c CliSanity.newline); [ discriminate | ]. cbn.
  intros H. by rewrite (IH H).
Qed.

Lemma split_line l s :
  one_line l = true ->
  CliSanity.split (l +:+ String CliSanity.newline s) = l :: CliSanity.split s.
Proof.
  induction l as [| c l IH]; intros H.
  - change ("" +:+ String CliSanity.newline s) with (String CliSanity.newline s).
    reflexivity.
  - change (String c l +:+ String CliSanity.newline s)
      with (String c (l +:+ String CliSanity.newline s)).
    cbn in H |- *.
    destruct (Ascii.eqb c CliSanity.newline); [ discriminate | ]. cbn in H.
    by rewrite (IH H).
Qed.

Lemma string_app_assoc (a b c : string) : (a +:+ b) +:+ c = a +:+ (b +:+ c).
Proof.
  induction a as [| x a IH]; [ reflexivity | ].
  change (String x ((a +:+ b) +:+ c) = String x (a +:+ (b +:+ c))). by rewrite IH.
Qed.

Lemma string_app_nil_r (a : string) : a +:+ "" = a.
Proof.
  induction a as [| x a IH]; [ reflexivity | ].
  change (String x (a +:+ "") = String x a). by rewrite IH.
Qed.

Lemma split_written lines tail :
  Forall (fun l => one_line l = true) lines -> one_line tail = true ->
  CliSanity.split (written lines +:+ tail) = lines ++ [ tail ].
Proof.
  intros Hl Ht. induction Hl as [| l lines H _ IH]; cbn [written app].
  - by apply split_one_line.
  - rewrite string_app_assoc.
    change (String CliSanity.newline (written lines) +:+ tail)
      with (String CliSanity.newline (written lines +:+ tail)).
    by rewrite (split_line l _ H), IH.
Qed.

Lemma parse_all_spec parse lines vs :
  CliSanity.parse_all parse lines = Normal vs <->
  Forall2 (fun l v => parse l = Normal v) lines vs.
Proof.
  revert vs. induction lines as [| l lines IH]; intros vs; cbn.
  - split.
    + intros [= <-]. constructor.
    + intros H. by inversion H.
  - destruct (parse l) as [v | e] eqn:Hp.
    + destruct (CliSanity.parse_all parse lines) as [vs' | e] eqn:Hr.
      * split.
        -- intros [= <-]. constructor; [ exact Hp | by apply IH ].
        -- intros H. inversion H as [| ? v0 ? vs0 H1 H2]; subst.
           apply IH in H2. congruence.
      * split; [ discriminate | ].
        intros H. inversion H as [| ? v0 ? vs0 H1 H2]; subst.
        apply IH in H2. discriminate.
    + split; [ discriminate | ].
      intros H. inversion H as [| ? v0 ? vs0 H1 H2]; subst. congruence.
Qed.

(** X17.  [parseFindobjectsResults] on an output made of complete lines,
    each ended by a line feed, followed by [tail] without a line feed.  The
    lines are parsed one by one, in order; [tail] is dropped without being
    parsed.  The first assertion holds exactly when there is at least one
    complete line, the second exactly when [tail] is empty.  The result is
    the list of parsed objects exactly when every line parses. *)
Theorem findobjects_lines_parsed (parse : string -> Completion Json)
    (lines : list string) (tail : string) :
  Forall (fun l => one_line l = true) lines -> one_line tail = true ->
  CliSanity.parseFindobjectsResults parse (written lines +:+ tail)
    = ([ Nat.ltb 0 (length lines); String.eqb tail "" ],
       CliSanity.parse_all parse lines) /\
  (forall vs, CliSanity.parse_all parse lines = Normal vs <->
     Forall2 (fun l v => parse l = Normal v) lines vs).
Proof.
  intros Hl Ht. split; [ | intros vs; apply parse_all_spec ].
  unfold CliSanity.parseFindobjectsResults.
  rewrite (split_written lines tail Hl Ht).
  rewrite length_app, last_snoc. cbn [length].
  replace (length lines + 1 - 1)%nat with (length lines) by lia.
  rewrite take_app_length.
  replace (Nat.ltb 1 (length lines + 1)) with (Nat.ltb 0 (length lines));
    [ reflexivity | ].
  destruct (Nat.ltb_spec 0 (length lines)), (Nat.ltb_spec 1 (length lines + 1)); lia.
Qed.

Lemma findobjects_lines_parsed_witness :
  let parse (l : string) : Completion Json := Normal (JStr l) in
  CliSanity.parseFindobjectsResults parse (written [ "{}"; "[]" ] +:+ "")
    = ([ true; true ], Normal [ JStr "{}"; JStr "[]" ]).
Proof.
  cbn zeta.
  assert (H1 : Forall (fun l => one_line l = true) [ "{}"; "[]" ])
    by (repeat constructor).
  assert (H2 : one_line "" = true) by reflexivity.
  exact (proj1 (findobjects_lines_parsed (fun l => Normal (JStr l))
                  [ "{}"; "[]" ] "" H1 H2)).
Defined.

(** ** The test server *)

Lemma behind_app lit : forall s r u,
  Helper.behind lit s = Some r -> Helper.behind lit (s +:+ u) = Some (r +:+ u).
Proof.
  induction lit as [| a lit IH]; intros s r u; cbn.
  - by intros [= ->].
  - destruct s as [| b s]; [ discriminate | ].
    change (String b s +:+ u) with (String b (s +:+ u)). cbn [Helper.behind].
    destruct (Ascii.eqb a b); [ apply IH | discriminate ].
Qed.

Lemma somewhere_app (here : string -> bool) :
  (forall s u, here s = true -> here (s +:+ u) = true) ->
  forall s u, Helper.somewhere here s = true ->
              Helper.somewhere here (s +:+ u) = true.
Proof.
  intros Hh. induction s as [| c s IH]; intros u; cbn [Helper.somewhere].
  - rewrite orb_false_r. intros H. apply (Hh "" u) in H.
    change ("" +:+ u) with u in *. destruct u; cbn [Helper.somewhere]; by rewrite H.
  - intros H. apply orb_true_iff in H as [H | H].
    + apply (Hh _ u) in H. change (String c s +:+ u) with (String c (s +:+ u)) in *.
      cbn [Helper.somewhere]. by rewrite H.
    + change (String c s +:+ u) with (String c (s +:+ u)).
      cbn [Helper.somewhere]. rewrite (IH u H). apply orb_true_r.
Qed.

Lemma up_app s u : up s = true -> up (s +:+ u) = true.
Proof.
  unfold up, Helper.listening, Helper.manatee_ready.
  intros H. apply andb_true_iff in H as [H1 H2]. apply andb_true_iff. split.
  - revert H1. apply somewhere_app. intros s0 u0.
    destruct (Helper.behind _ s0) as [r|] eqn:Hb; [ | discriminate ].
    rewrite (behind_app _ _ _ u0 Hb). by destruct r.
  - revert H2. apply somewhere_app. intros s0 u0.
    destruct (Helper.behind _ s0) as [r|] eqn:Hb; [ | discriminate ].
    by rewrite (behind_app _ _ _ u0 Hb).
Qed.

Lemma feed_spec chunks : forall s,
  Helper.seen (Helper.feed chunks s).1 = Helper.seen s +:+ joined chunks /\
  Helper.server (Helper.feed chunks s).1 = Helper.server s /\
  (Helper.ready s = true ->
     readies (Helper.feed chunks s).2 = 0%nat /\
     Helper.ready (Helper.feed chunks s).1 = true /\
     Helper.t (Helper.feed chunks s).1 = Helper.t s) /\
  (Helper.ready s = false -> up (Helper.seen s) = false ->
     let now_up := up (Helper.seen s +:+ joined chunks) in
     readies (Helper.feed chunks s).2 = (if now_up then 1 else 0)%nat /\
     Helper.ready (Helper.feed chunks s).1 = now_up /\
     Helper.t (Helper.feed chunks s).1 = (if now_up then false else Helper.t s)).
Proof.
  induction chunks as [| c chunks IH]; intros s; cbn [Helper.feed joined].
  - rewrite string_app_nil_r. cbn [fst snd readies].
    split; [ reflexivity | ]. split; [ reflexivity | ]. split; [ auto | ].
    intros Hr Hu. cbn zeta. by rewrite Hu.
  - unfold Helper.onData. cbn zeta.
    fold (up (Helper.seen s +:+ c)). rewrite <- andb_assoc.
    fold (up (Helper.seen s +:+ c)).
    destruct (Helper.ready s) eqn:Hr; cbn [negb andb].
    + match goal with
      | |- context [Helper.feed chunks ?s1] =>
          destruct (IH s1) as (I1 & I2 & I3 & _);
          destruct (Helper.feed chunks s1) as [s2 a2]
      end.
      cbn [fst snd Helper.seen Helper.server Helper.ready Helper.t app] in *.
      rewrite I1, string_app_assoc.
      split; [ reflexivity | ]. split; [ exact I2 | ]. split; [ auto | discriminate ].
    + destruct (up (Helper.seen s +:+ c)) eqn:Hu.
      * match goal with
        | |- context [Helper.feed chunks ?s1] =>
            destruct (IH s1) as (I1 & I2 & I3 & _);
            destruct (Helper.feed chunks s1) as [s2 a2]
        end.
        cbn [fst snd Helper.seen Helper.server Helper.ready Helper.t app readies] in *.
        destruct (I3 eq_refl) as (J1 & J2 & J3).
        rewrite I1, string_app_assoc.
        split; [ reflexivity | ]. split; [ exact I2 | ]. split; [ discriminate | ].
        intros _ _. cbn zeta.
        rewrite <- string_app_assoc, (up_app _ (joined chunks) Hu).
        rewrite J1, J2, J3. auto.
      * match goal with
        | |- context [Helper.feed chunks ?s1] =>
            destruct (IH s1) as (I1 & I2 & _ & I4);
            destruct (Helper.feed chunks s1) as [s2 a2]
        end.
        cbn [fst snd Helper.seen Helper.server Helper.ready Helper.t app readies] in *.
        rewrite I1, string_app_assoc.
        split; [ reflexivity | ]. split; [ exact I2 | ]. split; [ discriminate | ].
        intros _ _. cbn zeta.
        specialize (I4 eq_refl Hu). cbn zeta in I4.
        rewrite string_app_assoc in I4. exact I4.
Qed.

(** X18.  A spawned server is reported ready once, whatever the chunks its
    output arrives in: the callback of [createServer] is called exactly
    when the output seen so far, put together, holds both 'moray listening
    on <digits>' and 'manatee ready', the ten-second timer is pending
    exactly until then, and no output that follows calls it again. *)
Theorem server_ready_once (chunks : list string) :
  let s := (Helper.feed chunks Helper.spawned).1 in
  let acts := (Helper.feed chunks Helper.spawned).2 in
  Helper.seen s = joined chunks /\
  readies acts = (if up (joined chunks) then 1 else 0)%nat /\
  Helper.ready s = up (joined chunks) /\
  Helper.t s = negb (up (joined chunks)) /\
  (forall more,
     readies (Helper.feed more s).2
       = (if up (joined chunks) then 0
          else if up (joined chunks +:+ joined more) then 1 else 0)%nat).
Proof.
  cbn zeta.
  destruct (feed_spec chunks Helper.spawned) as (F1 & _ & _ & F4).
  specialize (F4 eq_refl eq_refl). cbn zeta in F4.
  change (Helper.seen Helper.spawned +:+ joined chunks) with (joined chunks) in *.
  destruct F4 as (G1 & G2 & G3).
  split; [ exact F1 | ]. split; [ exact G1 | ]. split; [ exact G2 | ].
  split; [ rewrite G3; by destruct (up (joined chunks)) | ].
  intros more.
  destruct (feed_spec more (Helper.feed chunks Helper.spawned).1) as (_ & _ & M3 & M4).
  rewrite G2 in M3, M4. rewrite F1 in M4.
  destruct (up (joined chunks)) eqn:Hu.
  - by destruct (M3 eq_refl) as (M & _).
  - by destruct (M4 eq_refl eq_refl) as (M & _).
Qed.

Lemma cleanups_remote n : forall s,
  Helper.ts_remote s = true ->
  Helper.cleanups n s = Normal (s, replicate n Helper.Later).
Proof.
  induction n as [| n IH]; intros s Hr; cbn [Helper.cleanups replicate];
    [ reflexivity | ].
  unfold Helper.cleanupServer. rewrite Hr. by rewrite (IH s Hr).
Qed.

(** X19.  The ['exit'] handler calls the cleanup callback exactly when
    [cleanupServer] has stored one, the child was killed by SIGKILL and its
    status is not 0; a status of 0 throws in any case, and so does every
    exit of a server nobody has asked to clean up.  [cleanupServer] on a
    spawned server kills it the first time and fails its assertion from the
    second call on; on the remote server it only schedules the callback,
    every time. *)
Theorem server_cleanup_protocol (code : option Z) (signal : option string)
    (s : Helper.Server) (n : nat) :
  (Helper.onExit code signal s = Helper.CallCleanup <->
     Helper.ts_cleanup_cb s = true /\ signal = Some "SIGKILL" /\ code <> Some 0) /\
  (code = Some 0 -> Helper.onExit code signal s = Helper.ExitedClean) /\
  Helper.onExit code signal (Helper.server Helper.spawned) <> Helper.CallCleanup /\
  (Helper.ts_remote s = true ->
     Helper.cleanups n s = Normal (s, replicate n Helper.Later)) /\
  (Helper.ts_remote s = false -> Helper.ts_cleanup_cb s = false ->
     Helper.cleanups n s =
       match n with
       | 0%nat => Normal (s, [])
       | 1%nat => Normal ({| Helper.ts_remote := false;
                             Helper.ts_cleanup_cb := true |}, [ Helper.Kill ])
       | _ => Throw (VError.AssertionError "cannot call cleanupServer multiple times")
       end).
Proof.
  split; [ | split; [ | split; [ | split ] ] ].
  - unfold Helper.onExit.
    assert (Hsig : match signal with
                   | Some sig => String.eqb sig "SIGKILL"
                   | None => false
                   end = true <-> signal = Some "SIGKILL").
    { destruct signal as [sig|]; [ | split; discriminate ].
      rewrite String.eqb_eq. split; congruence. }
    rewrite <- Hsig.
    destruct (match signal with Some sig => String.eqb sig "SIGKILL" | None => false end);
      destruct (Helper.ts_cleanup_cb s); destruct code as [[| k | k]|]; cbn;
      (split; [ intros H; try discriminate; repeat split; congruence
              | intros (H1 & H2 & H3); congruence ]).
  - by intros ->.
  - unfold Helper.onExit. by destruct code as [[| k | k]|].
  - apply cleanups_remote.
  - intros Hr Hc. destruct n as [| [| n]]; cbn [Helper.cleanups]; [ reflexivity | | ].
    + unfold Helper.cleanupServer. by rewrite Hr, Hc.
    + unfold Helper.cleanupServer at 1. rewrite Hr, Hc.
      unfold Helper.cleanupServer. cbn. reflexivity.
Qed.

Lemma server_cleanup_protocol_witness :
  let s := {| Helper.ts_remote := false; Helper.ts_cleanup_cb := false |} in
  Helper.cleanups 2 s
    = Throw (VError.AssertionError "cannot call cleanupServer multiple times").
Proof.
  cbn zeta.
  by apply (proj2 (proj2 (proj2 (proj2
              (server_cleanup_protocol None None
                 {| Helper.ts_remote := false; Helper.ts_cleanup_cb := false |} 2))))).
Defined.

